(** * Go study corpus: the executable fragments

  The repository is a collection of notes on Go with a few small
  programs.  This development embeds the fragments that carry behaviour:

  - [DoubleEven]: the stand-alone error-handling demo
    ([handleError], [doubleEven]);
  - [FileUtil]: the command-line file utility ([cmdline.go]);
  - [GoroutinePool]: [DefaultConfig] and [NewPool] of the pool sketch;
  - [Chan]: the [chansend] excerpt of the runtime notes;
  - [Mutex]: the [Lock] / [lockSlow] excerpt;
  - [MutexProtocol]: the goroutines that call [Lock] and [Unlock] on one
    mutex;
  - [Sched]: the [schedule] and [findrunnable] excerpts;
  - [FileUtilAudit]: what a run of the file utility opens, changes and
    prints;
  - [BasisDemo]: [calcRemainderAndMod] of the second demo file;
  - [PoolSubmit]: [Submit], [SubmitWithContext] and [SubmitFunc];
  - [ChanRing]: the channel's buffer read as a queue;
  - [MutexRun]: [Lock] run by one goroutine on its own;
  - [SchedSpinning]: the count of spinning threads;
  - [RandomOrder], [StealWork], [Runqsteal]: the work-stealing excerpts
    ([randomOrder.start], [stealWork], [runqsteal]);
  - [Newproc]: the frame computation of [newproc1];
  - [Goexit]: [goexit] and [goexit1].

  Go's [int] is taken to be 64 bits wide (amd64, arm64); machine
  integers are values of [Z] with their wrap-around written out. *)

From Stdlib Require Import ZArith Lia Bool List String Ascii.
From Stdlib Require Strings.Byte.
From stdpp Require Import base option list gmap strings.

Local Open Scope Z_scope.

(** ** Machine integers *)

Module GoInt.

(** Two's-complement reduction of [x] to [w] bits, signed. *)
Definition wrap_signed (w : Z) (x : Z) : Z :=
  (x + 2 ^ (w - 1)) mod 2 ^ w - 2 ^ (w - 1).

(** Reduction of [x] to [w] bits, unsigned. *)
Definition wrap_unsigned (w : Z) (x : Z) : Z := x mod 2 ^ w.

Definition intSize : Z := 64.
Definition minInt : Z := - 2 ^ 63.
Definition maxInt : Z := 2 ^ 63 - 1.

(** Membership in the range of [int]. *)
Definition is_int (x : Z) : Prop := minInt <= x <= maxInt.

Definition wrap_int : Z -> Z := wrap_signed intSize.
Definition wrap_int32 : Z -> Z := wrap_signed 32.
Definition wrap_uint : Z -> Z := wrap_unsigned 64.
Definition wrap_uint32 : Z -> Z := wrap_unsigned 32.

End GoInt.

(** ** The stand-alone demo file: [handleError] and [doubleEven] *)

Module DoubleEven.
Import GoInt.

(** The file redeclares [error] as an interface with the single method
    [Error() string]; a value of it is [nil] or something that yields a
    message. *)
Definition errorString : Type := string.
Definition error : Type := option errorString.
Definition nil : error := None.

(** [errors.New]: an error whose [Error()] is the given text. *)
Definition errors_New (text : string) : error := Some text.

(** [handleError] prints one line fragment and returns; the value is the
    text written to standard output. *)
Definition handleError (stdout : list string) : list string :=
  stdout ++ ["hello world!"%string].

(** [i % 2]: Go's remainder truncates towards zero. *)
Definition go_rem (a b : Z) : Z := Z.rem a b.

(** [i * 2] in [int]. *)
Definition go_mul (a b : Z) : Z := wrap_int (a * b).

Definition doubleEven (i : Z) : Z * error :=
  if negb (go_rem i 2 =? 0)
  then (0, errors_New "only even number are processed")
  else (go_mul i 2, nil).

End DoubleEven.

(** ** The command-line file utility ([cmdline.go]) *)

Module FileUtil.

Local Open Scope string_scope.

(** *** Values of the standard library *)

(** An [error] is [nil] or carries the text that [%v] prints. *)
Definition error : Type := option string.
Definition nil : error := None.

Definition is_nil (err : error) : bool :=
  match err with None => true | Some _ => false end.

(** [%v] of an error. *)
Definition error_text (err : error) : string :=
  match err with None => "<nil>" | Some msg => msg end.

(** [*os.File]: [None] is the nil pointer, [Some fd] an open descriptor. *)
Definition File : Type := option nat.

(** [os.DirEntry], through the two methods [listFiles] calls. *)
Record DirEntry : Type := mkDirEntry { Name : string; IsDir : bool }.

(** Open flags of [os.OpenFile] (their Linux values) and the permission
    bits [0644]. *)
Definition O_WRONLY : Z := 1.
Definition O_APPEND : Z := 1024.
Definition perm_0644 : Z := 420.

(** *** Programs over the standard library

    Every call that leaves the program is an event; a program is a tree of
    events whose branches are indexed by the answers.  All programs of the
    utility are finite. *)

Inductive osE : Type -> Type :=
| os_Create (name : string) : osE (File * error)
| os_Open (name : string) : osE (File * error)
| os_OpenFile (name : string) (flag : Z) (perm : Z) : osE (File * error)
| os_ReadFile (name : string) : osE (list Byte.byte * error)
| os_WriteFile (name : string) (data : list Byte.byte) (perm : Z) : osE error
| os_Remove (name : string) : osE error
| os_Rename (oldpath newpath : string) : osE error
| os_ReadDir (name : string) : osE (list DirEntry * error)
| File_Close (f : File) : osE error
| File_WriteString (f : File) (s : string) : osE (Z * error)
| io_Copy (dst src : File) : osE (Z * error)
| Stdout (text : string) : osE unit
| Stderr (text : string) : osE unit.

Inductive Prog (A : Type) : Type :=
| Ret (a : A)
| Vis {X : Type} (e : osE X) (k : X -> Prog A).

Arguments Ret {A} a.
Arguments Vis {A X} e k.

Fixpoint bind {A B : Type} (p : Prog A) (f : A -> Prog B) : Prog B :=
  match p with
  | Ret a => f a
  | Vis e k => Vis e (fun x => bind (k x) f)
  end.

Definition trigger {X : Type} (e : osE X) : Prog X := Vis e Ret.

#[export] Instance Prog_ret : MRet Prog := @Ret.
#[export] Instance Prog_bind : MBind Prog := fun A B f p => bind p f.

(** An implementation of the standard library on a world [W]. *)
Definition handler (W : Type) : Type := forall X : Type, osE X -> W -> X * W.

Fixpoint run {W A : Type} (h : handler W) (p : Prog A) (w : W) : A * W :=
  match p with
  | Ret a => (a, w)
  | Vis e k => let '(x, w') := h _ e w in run h (k x) w'
  end.

(** The calls a run makes, in order, without their answers. *)
Inductive call : Type :=
| Call {X : Type} (e : osE X).

Fixpoint calls {W A : Type} (h : handler W) (p : Prog A) (w : W) : list call :=
  match p with
  | Ret _ => []
  | Vis e k => let '(x, w') := h _ e w in Call e :: calls h (k x) w'
  end.

(** [fmt.Println] of one string, and [fmt.Printf] once formatted. *)
Definition newline : string := String (ascii_of_nat 10) EmptyString.
Definition fmt_Println (s : string) : Prog unit := trigger (Stdout (s ++ newline)).
Definition fmt_Printf (formatted : string) : Prog unit := trigger (Stdout formatted).

(** *** The file operations *)

(** [defer file.Close()] runs once the result [nil] has been fixed, so the
    error of [Close] is dropped. *)
Definition createFile (path : string) : Prog error :=
  '(file, err) ← trigger (os_Create path);
  if negb (is_nil err) then Ret err
  else trigger (File_Close file);; Ret nil.

Definition readFile (path : string) : Prog (string * error) :=
  '(content, err) ← trigger (os_ReadFile path);
  if negb (is_nil err) then Ret ("", err)
  else Ret (string_of_list_byte content, nil).

Definition writeFile (path : string) (content : string) : Prog error :=
  trigger (os_WriteFile path (list_byte_of_string content) perm_0644).

Definition appendToFile (path : string) (content : string) : Prog error :=
  '(file, err) ← trigger (os_OpenFile path (Z.lor O_APPEND O_WRONLY) perm_0644);
  if negb (is_nil err) then Ret err
  else
    '(_, err) ← trigger (File_WriteString file content);
    if negb (is_nil err)
    then trigger (File_Close file);; Ret err
    else trigger (File_Close file);; Ret nil.

(** Deferred calls run last-in first-out: [destFile] is closed before
    [srcFile]. *)
Definition copyFile (src dest : string) : Prog error :=
  '(srcFile, err) ← trigger (os_Open src);
  if negb (is_nil err) then Ret err
  else
    '(destFile, err) ← trigger (os_Create dest);
    if negb (is_nil err)
    then trigger (File_Close srcFile);; Ret err
    else
      '(_, err) ← trigger (io_Copy destFile srcFile);
      if negb (is_nil err)
      then trigger (File_Close destFile);; trigger (File_Close srcFile);; Ret err
      else trigger (File_Close destFile);; trigger (File_Close srcFile);; Ret nil.

Definition deleteFile (path : string) : Prog error :=
  trigger (os_Remove path).

(** The body of the [range] loop of [listFiles]. *)
Definition listFiles_step (files : list string) (entry : DirEntry) : list string :=
  let fileInfo := Name entry in
  let fileInfo := if IsDir entry then fileInfo ++ "/" else fileInfo in
  (files ++ [fileInfo])%list.

Definition listFiles (path : string) : Prog (list string * error) :=
  let files := [] in
  '(entries, err) ← trigger (os_ReadDir path);
  if negb (is_nil err) then Ret ([], err)
  else Ret (fold_left listFiles_step entries files, nil).

Definition renameFile (oldPath newPath : string) : Prog error :=
  trigger (os_Rename oldPath newPath).

(** *** Command-line arguments *)

Record CommandFlags : Type := mkCommandFlags {
  Create : bool;
  Read : bool;
  Write : bool;
  Copy : bool;
  Delete : bool;
  List : bool;
  Rename : bool;
  Append : bool;
  Help : bool;
  Path : string;
  Content : string;
  Dest : string
}.

(** [var cmdFlags CommandFlags]: every field at its zero value, which is
    also the default each flag is registered with. *)
Definition zeroFlags : CommandFlags :=
  mkCommandFlags false false false false false false false false false "" "" "".

Definition set_Create (b : bool) (f : CommandFlags) : CommandFlags :=
  mkCommandFlags b (Read f) (Write f) (Copy f) (Delete f) (List f) (Rename f)
    (Append f) (Help f) (Path f) (Content f) (Dest f).
Definition set_Read (b : bool) (f : CommandFlags) : CommandFlags :=
  mkCommandFlags (Create f) b (Write f) (Copy f) (Delete f) (List f) (Rename f)
    (Append f) (Help f) (Path f) (Content f) (Dest f).
Definition set_Write (b : bool) (f : CommandFlags) : CommandFlags :=
  mkCommandFlags (Create f) (Read f) b (Copy f) (Delete f) (List f) (Rename f)
    (Append f) (Help f) (Path f) (Content f) (Dest f).
Definition set_Copy (b : bool) (f : CommandFlags) : CommandFlags :=
  mkCommandFlags (Create f) (Read f) (Write f) b (Delete f) (List f) (Rename f)
    (Append f) (Help f) (Path f) (Content f) (Dest f).
Definition set_Delete (b : bool) (f : CommandFlags) : CommandFlags :=
  mkCommandFlags (Create f) (Read f) (Write f) (Copy f) b (List f) (Rename f)
    (Append f) (Help f) (Path f) (Content f) (Dest f).
Definition set_List (b : bool) (f : CommandFlags) : CommandFlags :=
  mkCommandFlags (Create f) (Read f) (Write f) (Copy f) (Delete f) b (Rename f)
    (Append f) (Help f) (Path f) (Content f) (Dest f).
Definition set_Rename (b : bool) (f : CommandFlags) : CommandFlags :=
  mkCommandFlags (Create f) (Read f) (Write f) (Copy f) (Delete f) (List f) b
    (Append f) (Help f) (Path f) (Content f) (Dest f).
Definition set_Append (b : bool) (f : CommandFlags) : CommandFlags :=
  mkCommandFlags (Create f) (Read f) (Write f) (Copy f) (Delete f) (List f)
    (Rename f) b (Help f) (Path f) (Content f) (Dest f).
Definition set_Help (b : bool) (f : CommandFlags) : CommandFlags :=
  mkCommandFlags (Create f) (Read f) (Write f) (Copy f) (Delete f) (List f)
    (Rename f) (Append f) b (Path f) (Content f) (Dest f).
Definition set_Path (s : string) (f : CommandFlags) : CommandFlags :=
  mkCommandFlags (Create f) (Read f) (Write f) (Copy f) (Delete f) (List f)
    (Rename f) (Append f) (Help f) s (Content f) (Dest f).
Definition set_Content (s : string) (f : CommandFlags) : CommandFlags :=
  mkCommandFlags (Create f) (Read f) (Write f) (Copy f) (Delete f) (List f)
    (Rename f) (Append f) (Help f) (Path f) s (Dest f).
Definition set_Dest (s : string) (f : CommandFlags) : CommandFlags :=
  mkCommandFlags (Create f) (Read f) (Write f) (Copy f) (Delete f) (List f)
    (Rename f) (Append f) (Help f) (Path f) (Content f) s.

(** A registered flag: its name, its usage line, and the field it is bound
    to ([flag.BoolVar] or [flag.StringVar]). *)
Inductive flagValue : Type :=
| boolVar (set : bool -> CommandFlags -> CommandFlags)
| stringVar (set : string -> CommandFlags -> CommandFlags).

Record Flag : Type := mkFlag {
  flagName : string;
  flagUsage : string;
  flagVar : flagValue
}.

Definition isBoolFlag (fl : Flag) : bool :=
  match flagVar fl with boolVar _ => true | stringVar _ => false end.

(** The registrations of [parseFlags], in the order they are made. *)
Definition formal : list Flag :=
  [ mkFlag "create" "Create a new file" (boolVar set_Create);
    mkFlag "read" "Read a file" (boolVar set_Read);
    mkFlag "write" "Write to a file" (boolVar set_Write);
    mkFlag "copy" "Copy a file" (boolVar set_Copy);
    mkFlag "delete" "Delete a file" (boolVar set_Delete);
    mkFlag "list" "List files in a directory" (boolVar set_List);
    mkFlag "rename" "Rename a file" (boolVar set_Rename);
    mkFlag "append" "Append to a file" (boolVar set_Append);
    mkFlag "help" "Show help message" (boolVar set_Help);
    mkFlag "path" "Path to the file or directory" (stringVar set_Path);
    mkFlag "content" "Content to write to the file" (stringVar set_Content);
    mkFlag "dest" "Destination path for copy or rename" (stringVar set_Dest) ].

Definition lookupFlag (name : string) : option Flag :=
  List.find (fun fl => String.eqb (flagName fl) name) formal.

(** [flag.Parse], the standard library's reading of the arguments:
    [-name], [--name], [-name=value] and, for a string flag, [-name value];
    the first argument that is not a flag, or [--], ends the flags. *)

Definition dq : string := String (ascii_of_nat 34) EmptyString.

(** [strconv.ParseBool]. *)
Definition ParseBool (s : string) : option bool :=
  if existsb (String.eqb s) ["1"; "t"; "T"; "TRUE"; "true"; "True"] then Some true
  else if existsb (String.eqb s) ["0"; "f"; "F"; "FALSE"; "false"; "False"] then Some false
  else None.

(** The part of a string up to the first [=], and what follows it. *)
Fixpoint cutEquals (s : string) : string * option string :=
  match s with
  | EmptyString => (EmptyString, None)
  | String c rest =>
      if Ascii.eqb c "="%char then (EmptyString, Some rest)
      else let '(name, value) := cutEquals rest in (String c name, value)
  end.

Inductive parseStep : Type :=
| Seen (f : CommandFlags) (rest : list string)
| Finished (f : CommandFlags) (rest : list string)
| Failed (msg : string)
| ErrHelp.

Definition parseOne (f : CommandFlags) (args : list string) : parseStep :=
  match args with
  | [] => Finished f []
  | s :: rest =>
      match s with
      | String "-"%char (String c1 s2 as s1) =>
          if Ascii.eqb c1 "-"%char && String.eqb s2 "" then Finished f rest
          else
            let name := if Ascii.eqb c1 "-"%char then s2 else s1 in
            match name with
            | EmptyString => Failed ("bad flag syntax: " ++ s)
            | String c0 name' =>
                if Ascii.eqb c0 "-"%char || Ascii.eqb c0 "="%char
                then Failed ("bad flag syntax: " ++ s)
                else
                  let '(name1, value) := cutEquals name' in
                  let name := String c0 name1 in
                  match lookupFlag name with
                  | None =>
                      if String.eqb name "help" || String.eqb name "h" then ErrHelp
                      else Failed ("flag provided but not defined: -" ++ name)
                  | Some fl =>
                      match flagVar fl, value with
                      | boolVar set, None => Seen (set true f) rest
                      | boolVar set, Some v =>
                          match ParseBool v with
                          | Some b => Seen (set b f) rest
                          | None =>
                              Failed ("invalid boolean value " ++ dq ++ v ++ dq
                                      ++ " for -" ++ name ++ ": parse error")
                          end
                      | stringVar set, Some v => Seen (set v f) rest
                      | stringVar set, None =>
                          match rest with
                          | v :: rest' => Seen (set v f) rest'
                          | [] => Failed ("flag needs an argument: -" ++ name)
                          end
                      end
                  end
            end
      | _ => Finished f args
      end
  end.

Fixpoint flag_Parse (fuel : nat) (f : CommandFlags) (args : list string) : parseStep :=
  match parseOne f args with
  | Seen f' rest =>
      match fuel with
      | O => Finished f' rest
      | S fuel' => flag_Parse fuel' f' rest
      end
  | r => r
  end.

(** [parseFlags] on the arguments after the program name.  Each step of
    [flag_Parse] consumes an argument, so their number is fuel enough. *)
Definition parseFlags (args : list string) : parseStep :=
  let cmdFlags := zeroFlags in
  flag_Parse (List.length args) cmdFlags args.

(** *** [printHelp] and [main] *)

Definition helpText : string :=
  "
Usage: fileutil [options]
Options:
	-create   Create a new file		
	-read     Read a file
	-write    Write to a file
	-copy     Copy a file
	-delete   Delete a file
	-list     List files in a directory
	-rename   Rename a file
	-append   Append to a file
	-help     Show help message
	-path     Path to the file or directory
	-content  Content to write to the file
	-dest    Destination path for copy or rename


Examples:
	fileutil -create -path /path/to/file.txt -content " ++ dq ++
  "Hello, World!" ++ dq ++
  "
	fileutil -read -path /path/to/file.txt
	fileutil -write -path /path/to/file.txt -content " ++ dq ++
  "New content" ++ dq ++
  "
	fileutil -copy -path /path/to/file.txt -dest /path/to/copy.txt
	fileutil -delete -path /path/to/file.txt
	fileutil -list -path /path/to/directory
	fileutil -rename -path /path/to/file.txt -dest /path/to/newfile.txt
	fileutil -append -path /path/to/file.txt -content " ++ dq ++
  "Appended content" ++ dq ++
  "
".

Definition printHelp : Prog unit := fmt_Println helpText.

(** The body of [main] once [parseFlags] has returned [cmdFlags]. *)
Definition main_with (cmdFlags : CommandFlags) : Prog unit :=
  if Help cmdFlags then printHelp
  else if Create cmdFlags then
    if String.eqb (Path cmdFlags) "" then
      fmt_Println "Path is required for creating a file."
    else
      err ← createFile (Path cmdFlags);
      if negb (is_nil err)
      then fmt_Printf ("Error creating file: " ++ error_text err ++ newline)
      else fmt_Printf ("File created successfully: " ++ Path cmdFlags ++ newline)
  else if Read cmdFlags then
    if String.eqb (Path cmdFlags) "" then
      fmt_Println "Path is required for reading a file."
    else
      '(content, err) ← readFile (Path cmdFlags);
      if negb (is_nil err)
      then fmt_Printf ("Error reading file: " ++ error_text err ++ newline)
      else fmt_Printf ("File content:" ++ newline ++ content ++ newline)
  else if Write cmdFlags then
    if String.eqb (Path cmdFlags) "" then
      fmt_Println "Path is required for writing to a file."
    else
      err ← writeFile (Path cmdFlags) (Content cmdFlags);
      if negb (is_nil err)
      then fmt_Printf ("Error writing to file: " ++ error_text err ++ newline)
      else fmt_Printf ("File written successfully: " ++ Path cmdFlags ++ newline)
  else if Append cmdFlags then
    if String.eqb (Path cmdFlags) "" then
      fmt_Println "Path is required for appending to a file."
    else
      err ← appendToFile (Path cmdFlags) (Content cmdFlags);
      if negb (is_nil err)
      then fmt_Printf ("Error appending to file: " ++ error_text err ++ newline)
      else fmt_Printf ("File appended successfully: " ++ Path cmdFlags ++ newline)
  else if Copy cmdFlags then
    if String.eqb (Path cmdFlags) "" || String.eqb (Dest cmdFlags) "" then
      fmt_Println "Path and destination are required for copying a file."
    else
      err ← copyFile (Path cmdFlags) (Dest cmdFlags);
      if negb (is_nil err)
      then fmt_Printf ("Error copying file: " ++ error_text err ++ newline)
      else fmt_Printf ("File copied successfully from " ++ Path cmdFlags
                       ++ " to " ++ Dest cmdFlags ++ newline)
  else if Delete cmdFlags then
    if String.eqb (Path cmdFlags) "" then
      fmt_Println "Path is required for deleting a file."
    else
      err ← deleteFile (Path cmdFlags);
      if negb (is_nil err)
      then fmt_Printf ("Error deleting file: " ++ error_text err ++ newline)
      else fmt_Printf ("File deleted successfully: " ++ Path cmdFlags ++ newline)
  else if List cmdFlags then
    if String.eqb (Path cmdFlags) "" then
      fmt_Println "Path is required for listing files in a directory."
    else
      '(files, err) ← listFiles (Path cmdFlags);
      if negb (is_nil err)
      then fmt_Printf ("Error listing files: " ++ error_text err ++ newline)
      else
        fmt_Println "Files in directory:";;
        foldr (fun file rest => fmt_Println file;; rest) (Ret tt) files
  else if Rename cmdFlags then
    if String.eqb (Path cmdFlags) "" || String.eqb (Dest cmdFlags) "" then
      fmt_Println "Path and destination are required for renaming a file."
    else
      err ← renameFile (Path cmdFlags) (Dest cmdFlags);
      if negb (is_nil err)
      then fmt_Printf ("Error renaming file: " ++ error_text err ++ newline)
      else fmt_Printf ("File renamed successfully from " ++ Path cmdFlags
                       ++ " to " ++ Dest cmdFlags ++ newline)
  else printHelp.

(** [main] from the argument list; the value is the exit status.  A
    command line [flag.Parse] rejects ends the process with status 2 after
    the message (the usage text that follows it is not modelled), an
    undefined [-h] with status 0. *)
Definition main (args : list string) : Prog Z :=
  match parseFlags args with
  | Seen cmdFlags _ | Finished cmdFlags _ => main_with cmdFlags;; Ret 0%Z
  | Failed msg => trigger (Stderr (msg ++ newline));; Ret 2%Z
  | ErrHelp => Ret 0%Z
  end.

(** *** An in-memory file system

    One implementation of the events, on which the programs can be run.
    Paths are keys of a finite map; a directory's entries are the keys one
    component below it.  A [FailingFile] stands for a file on a medium that
    yields only its first [readable] bytes and then an input/output error. *)

Inductive Node : Type :=
| RegularFile (data : list Byte.byte)
| Directory
| FailingFile (data : list Byte.byte) (readable : nat).

Record MemFS : Type := mkMemFS {
  nodes : gmap string Node;
  opened : gmap nat string;
  next_fd : nat;
  stdout : list string;
  stderr : list string
}.

Definition with_nodes (n : gmap string Node) (w : MemFS) : MemFS :=
  mkMemFS n (opened w) (next_fd w) (stdout w) (stderr w).

Definition open_fd (name : string) (w : MemFS) : File * MemFS :=
  (Some (next_fd w),
   mkMemFS (nodes w) (<[next_fd w := name]> (opened w)) (S (next_fd w))
     (stdout w) (stderr w)).

Definition pathError (op name msg : string) : error :=
  Some (op ++ " " ++ name ++ ": " ++ msg).

Definition ENOENT : string := "no such file or directory".
Definition EISDIR : string := "is a directory".
Definition ENOTDIR : string := "not a directory".
Definition EIO : string := "input/output error".

Definition hasSlash (s : string) : bool :=
  match String.index 0 "/" s with Some _ => true | None => false end.

(** The name of [key] inside the directory [dir], if it is an entry of it. *)
Definition entryOf (dir key : string) : option string :=
  let pre := dir ++ "/" in
  if String.prefix pre key then
    let name := String.substring (String.length pre)
                  (String.length key - String.length pre) key in
    if String.eqb name "" || hasSlash name then None else Some name
  else None.

Definition isDirectory (n : Node) : bool :=
  match n with Directory => true | _ => false end.

Definition dirEntries (dir : string) (m : gmap string Node) : list DirEntry :=
  omap (fun '(key, n) =>
          match entryOf dir key with
          | Some name => Some (mkDirEntry name (isDirectory n))
          | None => None
          end)
       (map_to_list m).

(** What a sequential read of the node yields. *)
Definition readNode (op name : string) (n : Node) : list Byte.byte * error :=
  match n with
  | RegularFile data => (data, nil)
  | Directory => ([], pathError op name EISDIR)
  | FailingFile data readable => (take readable data, pathError op name EIO)
  end.

Definition appendNode (extra : list Byte.byte) (n : Node) : Node :=
  match n with
  | RegularFile data => RegularFile (data ++ extra)
  | FailingFile data readable => FailingFile (data ++ extra) readable
  | Directory => Directory
  end.

(** The os calls on the in-memory file system, to run the program on
    concrete inputs.  The map is flat: a file is created without looking
    for its parent directory, there are no permissions, and a directory
    is listed in the order of the map, where [os.ReadDir] sorts by name. *)
Definition memfs : handler MemFS :=
  fun X e =>
    match e in osE X return MemFS -> X * MemFS with
    | os_Create name => fun w =>
        match nodes w !! name with
        | Some Directory => ((None, pathError "open" name EISDIR), w)
        | _ =>
            if String.eqb name "" then ((None, pathError "open" name ENOENT), w)
            else
              let '(f, w') := open_fd name (with_nodes (<[name := RegularFile []]> (nodes w)) w) in
              ((f, nil), w')
        end
    | os_Open name => fun w =>
        match nodes w !! name with
        | None => ((None, pathError "open" name ENOENT), w)
        | Some _ => let '(f, w') := open_fd name w in ((f, nil), w')
        end
    | os_OpenFile name flag perm => fun w =>
        match nodes w !! name with
        | None => ((None, pathError "open" name ENOENT), w)
        | Some Directory => ((None, pathError "open" name EISDIR), w)
        | Some _ => let '(f, w') := open_fd name w in ((f, nil), w')
        end
    | os_ReadFile name => fun w =>
        match nodes w !! name with
        | None => (([], pathError "open" name ENOENT), w)
        | Some n => (readNode "read" name n, w)
        end
    | os_WriteFile name data perm => fun w =>
        match nodes w !! name with
        | Some Directory => (pathError "open" name EISDIR, w)
        | _ =>
            if String.eqb name "" then (pathError "open" name ENOENT, w)
            else (nil, with_nodes (<[name := RegularFile data]> (nodes w)) w)
        end
    | os_Remove name => fun w =>
        match nodes w !! name with
        | None => (pathError "remove" name ENOENT, w)
        | Some n =>
            if isDirectory n && negb (bool_decide (dirEntries name (nodes w) = []))
            then (pathError "remove" name "directory not empty", w)
            else (nil, with_nodes (delete name (nodes w)) w)
        end
    | os_Rename oldpath newpath => fun w =>
        match nodes w !! oldpath with
        | None => (Some ("rename " ++ oldpath ++ " " ++ newpath ++ ": " ++ ENOENT), w)
        | Some n =>
            if String.eqb newpath ""
            then (Some ("rename " ++ oldpath ++ " " ++ newpath ++ ": " ++ ENOENT), w)
            else (nil, with_nodes (<[newpath := n]> (delete oldpath (nodes w))) w)
        end
    | os_ReadDir name => fun w =>
        match nodes w !! name with
        | None => (([], pathError "open" name ENOENT), w)
        | Some Directory => ((dirEntries name (nodes w), nil), w)
        | Some _ => (([], pathError "readdirent" name ENOTDIR), w)
        end
    | File_Close f => fun w =>
        match f with
        | None => (Some "invalid argument", w)
        | Some fd =>
            match opened w !! fd with
            | None => (Some "file already closed", w)
            | Some _ =>
                (nil, mkMemFS (nodes w) (delete fd (opened w)) (next_fd w)
                        (stdout w) (stderr w))
            end
        end
    | File_WriteString f s => fun w =>
        match f ≫= (fun fd => opened w !! fd) with
        | None => ((0%Z, Some "invalid argument"), w)
        | Some name =>
            ((Z.of_nat (String.length s), nil),
             with_nodes (alter (appendNode (list_byte_of_string s)) name (nodes w)) w)
        end
    | io_Copy dst src => fun w =>
        match dst ≫= (fun fd => opened w !! fd), src ≫= (fun fd => opened w !! fd) with
        | Some dname, Some sname =>
            match nodes w !! sname with
            | None => ((0%Z, pathError "read" sname ENOENT), w)
            | Some n =>
                let '(data, err) := readNode "read" sname n in
                ((Z.of_nat (List.length data), err),
                 with_nodes (alter (appendNode data) dname (nodes w)) w)
            end
        | _, _ => ((0%Z, Some "invalid argument"), w)
        end
    | Stdout text => fun w =>
        (tt, mkMemFS (nodes w) (opened w) (next_fd w) (stdout w ++ [text]) (stderr w))
    | Stderr text => fun w =>
        (tt, mkMemFS (nodes w) (opened w) (next_fd w) (stdout w) (stderr w ++ [text]))
    end.

Definition emptyFS : MemFS := mkMemFS ∅ ∅ 3 [] [].

(** *** The dispatch of [main], case by case *)

(** The cases of the [switch], in its order. *)
Inductive Operation : Type :=
| OpCreate | OpRead | OpWrite | OpAppend | OpCopy | OpDelete | OpList | OpRename.

(** The case [main] takes: the first whose flag is set, unless [-help]. *)
Definition selected (cmdFlags : CommandFlags) : option Operation :=
  if Help cmdFlags then None
  else if Create cmdFlags then Some OpCreate
  else if Read cmdFlags then Some OpRead
  else if Write cmdFlags then Some OpWrite
  else if Append cmdFlags then Some OpAppend
  else if Copy cmdFlags then Some OpCopy
  else if Delete cmdFlags then Some OpDelete
  else if List cmdFlags then Some OpList
  else if Rename cmdFlags then Some OpRename
  else None.

(** The flag that stands for an operation. *)
Definition flagOf (op : Operation) : string :=
  match op with
  | OpCreate => "create" | OpRead => "read" | OpWrite => "write"
  | OpAppend => "append" | OpCopy => "copy" | OpDelete => "delete"
  | OpList => "list" | OpRename => "rename"
  end.

(** The guard at the head of each case. *)
Definition required_missing (op : Operation) (cmdFlags : CommandFlags) : bool :=
  match op with
  | OpCopy | OpRename =>
      String.eqb (Path cmdFlags) "" || String.eqb (Dest cmdFlags) ""
  | _ => String.eqb (Path cmdFlags) ""
  end.

Definition missing_message (op : Operation) : string :=
  match op with
  | OpCreate => "Path is required for creating a file."
  | OpRead => "Path is required for reading a file."
  | OpWrite => "Path is required for writing to a file."
  | OpAppend => "Path is required for appending to a file."
  | OpCopy => "Path and destination are required for copying a file."
  | OpDelete => "Path is required for deleting a file."
  | OpList => "Path is required for listing files in a directory."
  | OpRename => "Path and destination are required for renaming a file."
  end.

(** The file operation a case calls once its guard has passed. *)
Inductive helper : Type :=
| createFile_ (path : string)
| readFile_ (path : string)
| writeFile_ (path content : string)
| appendToFile_ (path content : string)
| copyFile_ (src dest : string)
| deleteFile_ (path : string)
| listFiles_ (path : string)
| renameFile_ (oldPath newPath : string).

Definition helperOf (op : Operation) (cmdFlags : CommandFlags) : helper :=
  match op with
  | OpCreate => createFile_ (Path cmdFlags)
  | OpRead => readFile_ (Path cmdFlags)
  | OpWrite => writeFile_ (Path cmdFlags) (Content cmdFlags)
  | OpAppend => appendToFile_ (Path cmdFlags) (Content cmdFlags)
  | OpCopy => copyFile_ (Path cmdFlags) (Dest cmdFlags)
  | OpDelete => deleteFile_ (Path cmdFlags)
  | OpList => listFiles_ (Path cmdFlags)
  | OpRename => renameFile_ (Path cmdFlags) (Dest cmdFlags)
  end.

(** The words with which a message names what is missing. *)
Definition names_missing (op : Operation) (msg : string) : bool :=
  match op with
  | OpCopy | OpRename => String.prefix "Path and destination are required" msg
  | _ => String.prefix "Path is required" msg
  end.

(** A helper's call, followed by the report the case prints. *)
Definition report (failure success : string) (err : error) : Prog unit :=
  if negb (is_nil err)
  then fmt_Printf (failure ++ error_text err ++ newline)
  else fmt_Printf success.

Definition call_helper (hp : helper) : Prog unit :=
  match hp with
  | createFile_ path =>
      err ← createFile path;
      report "Error creating file: "
             ("File created successfully: " ++ path ++ newline) err
  | readFile_ path =>
      '(content, err) ← readFile path;
      report "Error reading file: "
             ("File content:" ++ newline ++ content ++ newline) err
  | writeFile_ path content =>
      err ← writeFile path content;
      report "Error writing to file: "
             ("File written successfully: " ++ path ++ newline) err
  | appendToFile_ path content =>
      err ← appendToFile path content;
      report "Error appending to file: "
             ("File appended successfully: " ++ path ++ newline) err
  | copyFile_ src dest =>
      err ← copyFile src dest;
      report "Error copying file: "
             ("File copied successfully from " ++ src ++ " to " ++ dest ++ newline) err
  | deleteFile_ path =>
      err ← deleteFile path;
      report "Error deleting file: "
             ("File deleted successfully: " ++ path ++ newline) err
  | listFiles_ path =>
      '(files, err) ← listFiles path;
      if negb (is_nil err)
      then fmt_Printf ("Error listing files: " ++ error_text err ++ newline)
      else
        fmt_Println "Files in directory:";;
        foldr (fun file rest => fmt_Println file;; rest) (Ret tt) files
  | renameFile_ oldPath newPath =>
      err ← renameFile oldPath newPath;
      report "Error renaming file: "
             ("File renamed successfully from " ++ oldPath ++ " to " ++ newPath
              ++ newline) err
  end.

(** The operations the description of the utility lists. *)
Definition listed_operations : list Operation :=
  [OpCreate; OpRead; OpWrite; OpCopy; OpDelete; OpList; OpRename].

(** Whether a call goes to the file system (everything but output). *)
Definition touches_files (c : call) : bool :=
  match c with
  | Call (Stdout _) | Call (Stderr _) => false
  | _ => true
  end.

(** *** The wrappers as the description words them

    [readFile] as "[os.ReadFile] converted to string" and [listFiles] as
    "the [os.ReadDir] entry names, with a slash after directories", taken
    literally: whatever the library call returns is passed on. *)

Module Described.

Definition entryText (entry : DirEntry) : string :=
  if IsDir entry then Name entry ++ "/" else Name entry.

Definition readFile (path : string) : Prog (string * error) :=
  '(content, err) ← trigger (os_ReadFile path);
  Ret (string_of_list_byte content, err).

Definition listFiles (path : string) : Prog (list string * error) :=
  '(entries, err) ← trigger (os_ReadDir path);
  Ret (map entryText entries, err).

End Described.


End FileUtil.

(** ** The goroutine pool sketch: [DefaultConfig] and [NewPool] *)

Module GoroutinePool.
Import GoInt.

Definition error : Type := option string.
Definition nil : error := None.
Definition errors_New (text : string) : error := Some text.

(** A call returns, or panics with a message. *)
Inductive outcome (A : Type) : Type :=
| Returns (a : A)
| Panics (msg : string).

Arguments Returns {A} a.
Arguments Panics {A} msg.

(** [time.Duration] counts nanoseconds. *)
Definition Second : Z := 1000000000.

Record Config : Type := mkConfig {
  MinWorkers : Z;
  MaxWorkers : Z;
  KeepAlive : Z;
  QueueSize : Z
}.

(** A channel as [make] returns it: empty, open, with its capacity. *)
Record chan : Type := mkChan { elemSize : Z; capacity : Z }.

(** [make(chan T, size)], after the runtime's [makechan]: the buffer must
    fit under [maxAlloc] (its linux/amd64 value). *)
Definition maxAlloc : Z := 2 ^ 48.
Definition hchanSize : Z := 96.

Definition make_chan (elemsize size : Z) : outcome chan :=
  if (size <? 0) || (maxAlloc - hchanSize <? elemsize * size)
  then Panics "makechan: size out of range"%string
  else Returns (mkChan elemsize size).

(** The fields of [Pool] that carry data; [wg], [mu] and [once] start at
    their zero values and are never read by [NewPool]. *)
Record Pool : Type := mkPool {
  minWorkers : Z;
  maxWorkers : Z;
  keepAlive : Z;
  queueSize : Z;
  currentWorkers : Z;
  idleWorkers : Z;
  runningTasks : Z;
  totalTasks : Z;
  completedTasks : Z;
  failedTasks : Z;
  taskQueue : chan;
  workerQueue : chan;
  quit : chan;
  closed : Z
}.

Section NewPool.

(** [runtime.NumCPU()]. *)
Variable NumCPU : Z.

(** The goroutines and whatever else lives outside the pool value. *)
Variable World : Type.

(** [pool.createWorker()]: its definition is not part of the notes. *)
Variable createWorker : Pool * World -> Pool * World.

(** [go pool.dispatcher()]: a goroutine is started on the dispatcher,
    whose body breaks off in the notes. *)
Variable go_dispatcher : Pool -> World -> World.

Definition DefaultConfig : Config :=
  let numCPU := NumCPU in
  mkConfig numCPU (wrap_int (numCPU * 2)) (60 * Second) 1000.

(** [for i := 0; i < config.MinWorkers; i++ { pool.createWorker() }] *)
Fixpoint startWorkers (fuel : nat) (i : Z) (config : Config) (pw : Pool * World)
  : Pool * World :=
  match fuel with
  | O => pw
  | S fuel' =>
      if i <? MinWorkers config
      then startWorkers fuel' (wrap_int (i + 1)) config (createWorker pw)
      else pw
  end.

(** [None] is the nil [*Config], respectively the nil [*Pool]. *)
Definition NewPool (config : option Config) (w : World)
  : outcome (option Pool * error) * World :=
  let config := match config with None => DefaultConfig | Some c => c end in
  if (MinWorkers config <=? 0) || (MaxWorkers config <=? 0) then
    (Returns (None, errors_New "workers count must be positive"%string), w)
  else if MinWorkers config >? MaxWorkers config then
    (Returns (None, errors_New "minWorkers cannot be greater than maxWorkers"%string), w)
  else
    match make_chan 8 (QueueSize config) with
    | Panics msg => (Panics msg, w)
    | Returns tq =>
        match make_chan 8 (MaxWorkers config) with
        | Panics msg => (Panics msg, w)
        | Returns wq =>
            match make_chan 0 0 with
            | Panics msg => (Panics msg, w)
            | Returns q =>
                let pool :=
                  mkPool (wrap_int32 (MinWorkers config))
                         (wrap_int32 (MaxWorkers config))
                         (KeepAlive config) (QueueSize config)
                         0 0 0 0 0 0 tq wq q 0 in
                let '(pool, w) :=
                  startWorkers (Z.to_nat (MinWorkers config)) 0 config (pool, w) in
                let w := go_dispatcher pool w in
                (Returns (Some pool, nil), w)
            end
        end
    end.

(** The configuration [NewPool] works with. *)
Definition effective (config : option Config) : Config :=
  match config with None => DefaultConfig | Some c => c end.

End NewPool.

(** A stand-in for the missing [createWorker], for running [NewPool]: it
    counts the worker in the pool and starts one goroutine; the world is
    the number of goroutines started. *)
Definition countingWorker (pw : Pool * nat) : Pool * nat :=
  let '(p, n) := pw in
  (mkPool (minWorkers p) (maxWorkers p) (keepAlive p) (queueSize p)
          (currentWorkers p + 1) (idleWorkers p) (runningTasks p) (totalTasks p)
          (completedTasks p) (failedTasks p) (taskQueue p) (workerQueue p)
          (quit p) (closed p),
   S n).

Definition countingDispatcher (p : Pool) (n : nat) : nat := S n.

(** The call came back with a non-nil error. *)
Definition returns_error (o : outcome (option Pool * error)) : Prop :=
  match o with
  | Returns (_, Some _) => True
  | _ => False
  end.

End GoroutinePool.

(** ** The channel send excerpt ([chansend]) *)

Module Chan.
Import GoInt.

Section Send.

(** Values of the channel's element type. *)
Variable Elem : Type.

(** A waiting goroutine's entry in a wait queue, and a goroutine, as far
    as [chansend] touches them. *)
Record sudog : Type := mkSudog {
  sg_addr : Z;                (* where the sudog lives: its identity *)
  sg_g : Z;                   (* the goroutine's id *)
  sg_elem : option Elem;      (* what [elem] points to *)
  sg_releasetime : Z;
  sg_isSelect : bool;
  sg_c : bool                 (* [c] is set *)
}.

Record g : Type := mkG {
  goid : Z;
  waiting : option Z;         (* address of the sudog waited on, or nil *)
  param : option Z;           (* [gp.param], nil or a pointer *)
  activeStackChans : bool
}.

Record hchan : Type := mkHchan {
  qcount : Z;
  dataqsiz : Z;
  buf : gmap Z Elem;
  elemsize : Z;
  closed : Z;
  sendx : Z;
  recvx : Z;
  recvq : list sudog;
  sendq : list sudog;
  lock : bool                 (* the mutex is held *)
}.

(** How a call of [chansend] ends, or where it stops. *)
Inductive result : Type :=
| Returned (b : bool) (c : option hchan)
| Panicked (msg : string) (c : hchan)
| Thrown (msg : string)
| ParkedForever                          (* blocked on the nil channel *)
| Parked (gp : g) (mysg : sudog) (c : hchan).
                                         (* blocked in [gopark] on [c] *)

(** [full], absent from the notes. *)
Variable full : hchan -> bool.

(** [send(c, sg, ep, unlockf, 3)], absent from the notes: it gives the
    element to the receiver [sg] and calls [unlockf]. *)
Variable send : hchan -> sudog -> Elem -> (hchan -> hchan) -> hchan.

(** [acquireSudog()]: the address of the sudog handed out. *)
Variable acquireSudog : Z.

Definition do_lock (c : hchan) : hchan :=
  mkHchan (qcount c) (dataqsiz c) (buf c) (elemsize c) (closed c) (sendx c)
    (recvx c) (recvq c) (sendq c) true.

Definition unlock (c : hchan) : hchan :=
  mkHchan (qcount c) (dataqsiz c) (buf c) (elemsize c) (closed c) (sendx c)
    (recvx c) (recvq c) (sendq c) false.

(** [c.recvq.dequeue()] *)
Definition dequeue_recvq (c : hchan) : option sudog * hchan :=
  match recvq c with
  | [] => (None, c)
  | sg :: rest =>
      (Some sg,
       mkHchan (qcount c) (dataqsiz c) (buf c) (elemsize c) (closed c) (sendx c)
         (recvx c) rest (sendq c) (lock c))
  end.

(** [c.sendq.enqueue(mysg)] *)
Definition enqueue_sendq (mysg : sudog) (c : hchan) : hchan :=
  mkHchan (qcount c) (dataqsiz c) (buf c) (elemsize c) (closed c) (sendx c)
    (recvx c) (recvq c) (sendq c ++ [mysg]) (lock c).

(** The buffered send: the element is copied to slot [sendx], [sendx]
    advances and falls back to 0 at [dataqsiz], [qcount] grows by one. *)
Definition buffer_put (ep : Elem) (c : hchan) : hchan :=
  let buf' := <[sendx c := ep]> (buf c) in
  let sendx1 := wrap_uint (sendx c + 1) in
  let sendx2 := if sendx1 =? dataqsiz c then 0 else sendx1 in
  mkHchan (wrap_uint (qcount c + 1)) (dataqsiz c) buf' (elemsize c) (closed c)
    sendx2 (recvx c) (recvq c) (sendq c) (lock c).

(** [chansend] up to the point where it returns, panics or parks; [None]
    is the nil channel, [gp] the calling goroutine ([getg()]). *)
Definition chansend (c : option hchan) (ep : Elem) (block : bool) (gp : g) : result :=
  match c with
  | None => if negb block then Returned false None else ParkedForever
  | Some c =>
      if negb block && (closed c =? 0) && full c then Returned false (Some c)
      else
        let c := do_lock c in
        if negb (closed c =? 0) then
          Panicked "send on closed channel" (unlock c)
        else
          match dequeue_recvq c with
          | (Some sg, c) => Returned true (Some (send c sg ep unlock))
          | (None, c) =>
              if qcount c <? dataqsiz c then
                Returned true (Some (unlock (buffer_put ep c)))
              else if negb block then
                Returned false (Some (unlock c))
              else
                let mysg := mkSudog acquireSudog (goid gp) (Some ep) 0 false true in
                let gp := mkG (goid gp) (Some (sg_addr mysg)) None (activeStackChans gp) in
                Parked gp mysg (enqueue_sendq mysg c)
          end
  end.

(** What follows [gopark] once the goroutine has been woken: [gp] and [c]
    are as the waker left them. *)
Definition chansend_wakeup (gp : g) (mysg : sudog) (c : hchan) : result :=
  if negb (bool_decide (waiting gp = Some (sg_addr mysg))) then
    Thrown "G waiting list is corrupted"
  else
    let closed_ := bool_decide (param gp = None) in
    if closed_ then
      if closed c =? 0 then Thrown "chansend: spurious wakeup"
      else Panicked "send on closed channel" c
    else Returned true (Some c).

(** The send as the description words it, written out on the fields of
    the channel: on a closed channel a panic; else the hand-over to the
    first waiting receiver, which leaves the queue, under the lock that
    [send] releases; else, with room in the buffer, the element stored in
    slot [sendx], [sendx] moved on by one and back to 0 at [dataqsiz],
    [qcount] one higher; else false for a non-blocking send, and for a
    blocking one the sender's sudog at the end of [sendq] and the
    goroutine parked. *)
Definition described_send (c : hchan) (ep : Elem) (block : bool) (gp : g) : result :=
  if negb (closed c =? 0) then Panicked "send on closed channel" c
  else
    match recvq c with
    | sg :: rest =>
        Returned true
          (Some (send
                   (mkHchan (qcount c) (dataqsiz c) (buf c) (elemsize c) (closed c)
                      (sendx c) (recvx c) rest (sendq c) true)
                   sg ep
                   (fun c' =>
                      mkHchan (qcount c') (dataqsiz c') (buf c') (elemsize c')
                        (closed c') (sendx c') (recvx c') (recvq c') (sendq c')
                        false)))
    | [] =>
        if qcount c <? dataqsiz c then
          Returned true
            (Some (mkHchan (qcount c + 1) (dataqsiz c) (<[sendx c := ep]> (buf c))
                     (elemsize c) (closed c)
                     (if sendx c + 1 =? dataqsiz c then 0 else sendx c + 1)
                     (recvx c) [] (sendq c) false))
        else if block then
          let mysg := mkSudog acquireSudog (goid gp) (Some ep) 0 false true in
          Parked (mkG (goid gp) (Some acquireSudog) None (activeStackChans gp)) mysg
            (mkHchan (qcount c) (dataqsiz c) (buf c) (elemsize c) (closed c)
               (sendx c) (recvx c) [] (sendq c ++ [mysg]) true)
        else Returned false (Some c)
    end.

(** A channel between two operations, as the runtime keeps it: nobody
    holds its lock, [qcount] is within the buffer, [sendx] is an index of
    the buffer while there is room, and receivers wait only at an empty
    buffer. *)
Definition consistent (c : hchan) : Prop :=
  lock c = false
  /\ 0 <= qcount c <= dataqsiz c /\ dataqsiz c < 2 ^ 64
  /\ 0 <= sendx c /\ (qcount c < dataqsiz c -> sendx c < dataqsiz c)
  /\ (recvq c <> [] -> qcount c = 0).

(** What can be asked of [full]: it calls a channel full only when a send
    cannot go ahead, no receiver waiting and no room in the buffer. *)
Definition sound_at (c : hchan) : Prop :=
  full c = true -> recvq c = [] /\ dataqsiz c <= qcount c.

(** [full] as the Go runtime defines it: an unbuffered channel is full
    when no receiver waits, a buffered one when its buffer is. *)
Definition runtime_full (c : hchan) : bool :=
  if dataqsiz c =? 0 then bool_decide (recvq c = [])
  else qcount c =? dataqsiz c.

(** A [send] that hands the element over outside the channel and
    releases the lock. *)
Definition direct_send (c : hchan) (sg : sudog) (ep : Elem)
    (unlockf : hchan -> hchan) : hchan :=
  unlockf c.

End Send.

Arguments mkSudog {Elem}.
Arguments sg_addr {Elem}.
Arguments sg_g {Elem}.
Arguments sg_elem {Elem}.
Arguments sg_releasetime {Elem}.
Arguments sg_isSelect {Elem}.
Arguments sg_c {Elem}.
Arguments mkHchan {Elem}.
Arguments qcount {Elem}.
Arguments dataqsiz {Elem}.
Arguments buf {Elem}.
Arguments elemsize {Elem}.
Arguments closed {Elem}.
Arguments sendx {Elem}.
Arguments recvx {Elem}.
Arguments recvq {Elem}.
Arguments sendq {Elem}.
Arguments lock {Elem}.
Arguments Returned {Elem}.
Arguments Panicked {Elem}.
Arguments Thrown {Elem}.
Arguments ParkedForever {Elem}.
Arguments Parked {Elem}.
Arguments do_lock {Elem}.
Arguments unlock {Elem}.
Arguments dequeue_recvq {Elem}.
Arguments enqueue_sendq {Elem}.
Arguments buffer_put {Elem}.
Arguments chansend {Elem}.
Arguments chansend_wakeup {Elem}.
Arguments described_send {Elem}.
Arguments consistent {Elem}.
Arguments sound_at {Elem}.
Arguments runtime_full {Elem}.
Arguments direct_send {Elem}.

(** An unbuffered channel on which a receiver waits, and a goroutine
    about to send. *)
Definition with_receiver : hchan Z :=
  mkHchan 0 0 ∅ 8 0 0 0 [mkSudog 100 2 None 0 false true] [] false.

Definition sender : g := mkG 1 None None false.

(** An open, unlocked channel of capacity 2 with nothing in it. *)
Definition empty_buffered : hchan Z :=
  mkHchan 0 2 ∅ 8 0 0 0 [] [] false.

End Chan.

(** ** The mutex excerpt ([Lock], [lockSlow]) *)

Module Mutex.
Import GoInt.

(** [const ( mutexLocked = 1 << iota; mutexWoken; mutexStarving;
    mutexWaiterShift = iota )] *)
Definition mutexLocked : Z := Z.shiftl 1 0.
Definition mutexWoken : Z := Z.shiftl 1 1.
Definition mutexStarving : Z := Z.shiftl 1 2.
Definition mutexWaiterShift : Z := 3.

(** The two words of a [Mutex], shared by all goroutines. *)
Record Mutex : Type := mkMutex { state : Z; sema : Z }.

(** The operations through which [Lock] reaches the mutex or the runtime. *)
Inductive action : Type :=
| Load                               (* a plain read of [m.state] *)
| CompareAndSwapInt32 (old new : Z)
| AddInt32 (delta : Z)
| SemacquireMutex (queueLifo : bool)
| doSpin.

(** The effect of an action on the mutex and the value it yields ([1] for
    a successful swap), or [None] while a semaphore acquire has to wait. *)
Definition perform (a : action) (m : Mutex) : option (Mutex * Z) :=
  match a with
  | Load => Some (m, state m)
  | CompareAndSwapInt32 old new =>
      if state m =? old then Some (mkMutex new (sema m), 1) else Some (m, 0)
  | AddInt32 delta =>
      let v := wrap_int32 (state m + delta) in Some (mkMutex v (sema m), v)
  | SemacquireMutex _ =>
      if 0 <? sema m then Some (mkMutex (state m) (wrap_uint32 (sema m - 1)), 0)
      else None
  | doSpin => Some (m, 0)
  end.

(** The local variables of [lockSlow]. *)
Record locals : Type := mkLocals {
  waitStartTime : Z;
  starving : bool;
  awoke : bool;
  iter : Z;
  old : Z
}.

(** Where a goroutine stands inside [Lock]. *)
Inductive pc : Type :=
| FastPath            (* [Lock]: the compare-and-swap from 0 *)
| SlowEntry           (* [lockSlow]: [old := m.state] *)
| LoopHead            (* top of the [for] *)
| Spin                (* [runtime_doSpin()] after the woken swap *)
| SpinReload          (* [iter++; old = m.state; continue] *)
| RetryReload         (* the swap failed: [old = m.state] *)
| Wait (queueLifo : bool)
                      (* [runtime_SemacquireMutex(&m.sema, queueLifo, 1)] *)
| WakeReload          (* woken: [old = m.state] *)
| Handoff (delta : Z) (* [atomic.AddInt32(&m.state, delta)] *)
| Done.               (* [Lock] has returned *)

(** What the runtime decides for one step: [runtime_canSpin(iter)] and the
    clock. *)
Record oracle : Type := mkOracle { canSpin : bool; nanotime : Z }.

Section Lock.

(** [starvationThresholdNs], not defined in the notes. *)
Variable starvationThresholdNs : Z.

Definition is_set (x mask : Z) : bool := negb (Z.land x mask =? 0).

(** The new state [lockSlow] prepares from [old]. *)
Definition prepare (l : locals) : Z :=
  let new := old l in
  let new := if Z.land (old l) mutexStarving =? 0 then Z.lor new mutexLocked else new in
  let new := if negb (Z.land (old l) (Z.lor mutexLocked mutexStarving) =? 0)
             then wrap_int32 (new + Z.shiftl 1 mutexWaiterShift) else new in
  let new := if starving l && negb (Z.land (old l) mutexLocked =? 0)
             then Z.lor new mutexStarving else new in
  let new := if awoke l then Z.ldiff new mutexWoken else new in
  new.

(** The condition of the spinning branch, and of the woken swap in it. *)
Definition spins (o : oracle) (l : locals) : bool :=
  (Z.land (old l) (Z.lor mutexLocked mutexStarving) =? mutexLocked) && canSpin o.

Definition wants_woken (l : locals) : bool :=
  negb (awoke l) && (Z.land (old l) mutexWoken =? 0)
  && negb (Z.shiftr (old l) mutexWaiterShift =? 0).

(** The action a goroutine at [p] with locals [l] performs next. *)
Definition next_action (o : oracle) (p : pc) (l : locals) : option action :=
  match p with
  | FastPath => Some (CompareAndSwapInt32 0 mutexLocked)
  | SlowEntry => Some Load
  | LoopHead =>
      if spins o l then
        if wants_woken l
        then Some (CompareAndSwapInt32 (old l) (Z.lor (old l) mutexWoken))
        else Some doSpin
      else Some (CompareAndSwapInt32 (old l) (prepare l))
  | Spin => Some doSpin
  | SpinReload => Some Load
  | RetryReload => Some Load
  | Wait queueLifo => Some (SemacquireMutex queueLifo)
  | WakeReload => Some Load
  | Handoff delta => Some (AddInt32 delta)
  | Done => None
  end.

Definition set_old (v : Z) (l : locals) : locals :=
  mkLocals (waitStartTime l) (starving l) (awoke l) (iter l) v.

(** Where the goroutine continues once its action has yielded [v]. *)
Definition continue (o : oracle) (p : pc) (l : locals) (v : Z) : pc * locals :=
  match p with
  | FastPath =>
      if v =? 1 then (Done, l) else (SlowEntry, l)
  | SlowEntry =>
      (LoopHead, mkLocals 0 false false 0 v)
  | LoopHead =>
      if spins o l then
        if wants_woken l
        then (Spin, mkLocals (waitStartTime l) (starving l)
                      (if v =? 1 then true else awoke l) (iter l) (old l))
        else (SpinReload, l)
      else if v =? 1 then
        if Z.land (old l) (Z.lor mutexLocked mutexStarving) =? 0 then (Done, l)
        else
          let queueLifo := negb (waitStartTime l =? 0) in
          let wst := if waitStartTime l =? 0 then nanotime o else waitStartTime l in
          (Wait queueLifo, mkLocals wst (starving l) (awoke l) (iter l) (old l))
      else (RetryReload, l)
  | Spin => (SpinReload, l)
  | SpinReload =>
      (LoopHead, mkLocals (waitStartTime l) (starving l) (awoke l)
                   (wrap_int (iter l + 1)) v)
  | RetryReload => (LoopHead, set_old v l)
  | Wait _ =>
      let starving' :=
        starving l || (starvationThresholdNs <? wrap_int (nanotime o - waitStartTime l)) in
      (WakeReload, mkLocals (waitStartTime l) starving' (awoke l) (iter l) (old l))
  | WakeReload =>
      if negb (Z.land v mutexStarving =? 0) then
        let delta := wrap_int32 (mutexLocked - Z.shiftl 1 mutexWaiterShift) in
        let delta := if negb (starving l) || (Z.shiftr v mutexWaiterShift =? 1)
                     then wrap_int32 (delta - mutexStarving) else delta in
        (Handoff delta, set_old v l)
      else
        (LoopHead, mkLocals (waitStartTime l) (starving l) true 0 v)
  | Handoff _ => (Done, l)
  | Done => (Done, l)
  end.

(** One step of a goroutine inside [Lock]; [None] when it has returned or
    has to wait for the semaphore. *)
Definition step (o : oracle) (p : pc) (l : locals) (m : Mutex)
  : option (pc * locals * Mutex) :=
  match next_action o p l with
  | None => None
  | Some a =>
      match perform a m with
      | None => None
      | Some (m', v) => Some (continue o p l v, m')
      end
  end.

Definition entry : locals := mkLocals 0 false false 0 0.

(** Reading a state word: the three flags and the waiter count. *)
Definition locked (s : Z) : bool := is_set s mutexLocked.
Definition woken (s : Z) : bool := is_set s mutexWoken.
Definition starved (s : Z) : bool := is_set s mutexStarving.
Definition waiters (s : Z) : Z := Z.shiftr s mutexWaiterShift.

End Lock.

End Mutex.

(** ** [Lock] among the goroutines that use the mutex

    What [Lock] finds in the state word depends on what the other
    goroutines do to it, and they use the mutex through [Lock] and
    [Unlock].  The notes quote [sync/mutex.go] for [Lock]; [Unlock] is
    the one of that file of Go's sync package:

      func (m *Mutex) Unlock() {
          new := atomic.AddInt32(&m.state, -mutexLocked)
          if new != 0 {
              m.unlockSlow(new)
          }
      }

      func (m *Mutex) unlockSlow(new int32) {
          if (new+mutexLocked)&mutexLocked == 0 {
              fatal("sync: unlock of unlocked mutex")
          }
          if new&mutexStarving == 0 {
              old := new
              for {
                  if old>>mutexWaiterShift == 0 ||
                      old&(mutexLocked|mutexWoken|mutexStarving) != 0 {
                      return
                  }
                  new = (old - 1<<mutexWaiterShift) | mutexWoken
                  if atomic.CompareAndSwapInt32(&m.state, old, new) {
                      runtime_Semrelease(&m.sema, false, 1)
                      return
                  }
                  old = m.state
              }
          } else {
              runtime_Semrelease(&m.sema, true, 1)
          }
      }

    Every goroutine calls [Lock], and once it has returned [Unlock], over
    and over; the steps of the goroutines interleave in any order.  The
    semaphore is the counter of [perform]: a release adds one, an
    acquire waits until it is positive and takes one. *)

Module MutexProtocol.
Import GoInt Mutex.

(** Where a goroutine stands inside [Unlock]. *)
Inductive upc : Type :=
| UAdd                      (* [new := atomic.AddInt32(&m.state, -mutexLocked)] *)
| UCas (old : Z)            (* the swap of [old] for [(old - 1<<mutexWaiterShift) | mutexWoken] *)
| UReload                   (* the swap failed: [old = m.state] *)
| URelease (handoff : bool) (* [runtime_Semrelease(&m.sema, handoff, 1)] *)
| UFatal.                   (* [fatal("sync: unlock of unlocked mutex")] *)

(** What a goroutine is doing: nothing with the mutex, a call of [Lock]
    ([Locking Done] once the call has returned, until it calls
    [Unlock]), or a call of [Unlock]. *)
Inductive place : Type :=
| Idle
| Locking (p : pc) (l : locals)
| Unlocking (u : upc).

(** The loop of [unlockSlow] in normal mode, entered with [old]: it
    returns when nobody waits or somebody is already at work on the
    mutex, and else tries to wake a waiter. *)
Definition unlock_loop (old : Z) : place :=
  if (Z.shiftr old mutexWaiterShift =? 0)
     || negb (Z.land old (Z.lor (Z.lor mutexLocked mutexWoken) mutexStarving) =? 0)
  then Idle
  else Unlocking (UCas old).

Definition unlockSlow (new : Z) : place :=
  if Z.land (wrap_int32 (new + mutexLocked)) mutexLocked =? 0 then Unlocking UFatal
  else if Z.land new mutexStarving =? 0 then unlock_loop new
  else Unlocking (URelease true).

(** One step of a goroutine inside [Unlock]. *)
Definition unlock_step (u : upc) (m : Mutex) : option (place * Mutex) :=
  match u with
  | UAdd =>
      let new := wrap_int32 (state m - mutexLocked) in
      Some (if new =? 0 then Idle else unlockSlow new, mkMutex new (sema m))
  | UCas old =>
      if state m =? old
      then Some (Unlocking (URelease false),
                 mkMutex (Z.lor (wrap_int32 (old - Z.shiftl 1 mutexWaiterShift))
                            mutexWoken)
                   (sema m))
      else Some (Unlocking UReload, m)
  | UReload => Some (unlock_loop (state m), m)
  | URelease _ => Some (Idle, mkMutex (state m) (wrap_uint32 (sema m + 1)))
  | UFatal => None
  end.

(** The mutex and the goroutines that use it. *)
Record system : Type := mkSystem { mu : Mutex; threads : list place }.

Section System.

Variable starvationThresholdNs : Z.

(** One step of one goroutine: an idle one calls [Lock], one whose
    [Lock] has returned calls [Unlock], the others go on where they
    are. *)
Definition thread_step (o : oracle) (t : place) (m : Mutex) : option (place * Mutex) :=
  match t with
  | Idle => Some (Locking FastPath entry, m)
  | Locking Done _ => Some (Unlocking UAdd, m)
  | Locking p l =>
      match step starvationThresholdNs o p l m with
      | Some (p', l', m') => Some (Locking p' l', m')
      | None => None
      end
  | Unlocking u => unlock_step u m
  end.

(** Goroutine [i] takes a step. *)
Definition sys_step (i : nat) (o : oracle) (σ : system) : option system :=
  match threads σ !! i with
  | None => None
  | Some t =>
      match thread_step o t (mu σ) with
      | Some (t', m') => Some (mkSystem m' (<[i := t']> (threads σ)))
      | None => None
      end
  end.

(** The goroutines take their steps in the order of [sched]. *)
Fixpoint run (sched : list (nat * oracle)) (σ : system) : option system :=
  match sched with
  | [] => Some σ
  | (i, o) :: sched' =>
      match sys_step i o σ with
      | Some σ' => run sched' σ'
      | None => None
      end
  end.

(** [n] goroutines and a zero mutex. *)
Definition initial (n : nat) : system :=
  mkSystem (mkMutex 0 0) (replicate n Idle).

Definition reachable (n : nat) (σ : system) : Prop :=
  exists sched, run sched (initial n) = Some σ.

End System.

(** How many goroutines are at a place of a kind. *)
Definition tally (kind : place -> Z) (ts : list place) : Z :=
  foldr (fun t acc => kind t + acc) 0 ts.

(** The kinds: holding the mutex; asleep on the semaphore; woken from it
    and about to read the state; about to take the mutex handed over;
    awake in the loop of [lockSlow] after a wake-up; an unlocker about to
    release the semaphore, to wake a waiter or to hand the mutex over. *)
Definition holding (t : place) : Z :=
  match t with
  | Locking Done _ | Unlocking UAdd => 1
  | _ => 0
  end.

Definition asleep (t : place) : Z :=
  match t with Locking (Wait _) _ => 1 | _ => 0 end.

Definition roused (t : place) : Z :=
  match t with Locking WakeReload _ => 1 | _ => 0 end.

Definition taking (t : place) : Z :=
  match t with Locking (Handoff _) _ => 1 | _ => 0 end.

Definition awake (t : place) : Z :=
  match t with
  | Locking LoopHead l | Locking Spin l | Locking SpinReload l
  | Locking RetryReload l => Z.b2z (awoke l)
  | _ => 0
  end.

Definition waking (t : place) : Z :=
  match t with Unlocking (URelease false) => 1 | _ => 0 end.

Definition handing (t : place) : Z :=
  match t with Unlocking (URelease true) => 1 | _ => 0 end.

(** What each goroutine knows where it stands: in the loop of
    [lockSlow] only a goroutine that was woken is starving; the hand-off
    adds -7 or -11; the unlocker swaps a word without flags and with
    waiters; and nobody unlocks an unlocked mutex. *)
Definition place_ok (t : place) : Prop :=
  match t with
  | Locking LoopHead l | Locking Spin l | Locking SpinReload l
  | Locking RetryReload l => starving l = true -> awoke l = true
  | Locking (Handoff delta) _ => delta = -7 \/ delta = -11
  | Unlocking (UCas old) =>
      locked old = false /\ woken old = false /\ starved old = false
      /\ waiters old <> 0
  | Unlocking UFatal => False
  | _ => True
  end.

(** The encoding of the state word, read against what the goroutines are
    doing.  The locked bit says that a goroutine holds the mutex.  In
    normal mode the woken bit says that a wake-up is under way (an
    unlocker about to release the semaphore, a released semaphore not
    yet taken, a goroutine woken from it) or that a goroutine spins
    awake, and the waiter count is the number of goroutines asleep less
    the wake-ups already booked; in starving mode the woken bit is
    clear, the count is the number of goroutines asleep or woken that
    have not yet taken the mutex, and an unlocked mutex is on its way to
    exactly one of them. *)
Definition encoding (σ : system) : Prop :=
  let s := state (mu σ) in
  let k := sema (mu σ) in
  let ts := threads σ in
  0 <= waiters s /\ 0 <= k
  /\ Forall place_ok ts
  /\ Z.b2z (locked s) = tally holding ts
  /\ (if starved s then
        woken s = false
        /\ tally awake ts = 0 /\ tally waking ts = 0
        /\ k + tally roused ts + tally taking ts + tally handing ts
           = 1 - Z.b2z (locked s)
        /\ waiters s = tally asleep ts + tally roused ts + tally taking ts
      else
        Z.b2z (woken s)
        = tally awake ts + tally waking ts + k + tally roused ts
        /\ tally taking ts = 0 /\ tally handing ts = 0
        /\ waiters s = tally asleep ts - tally waking ts - k).

(** A schedule of two goroutines on which the second one starves and is
    handed the mutex: the first locks on the fast path, the second
    queues up; the first unlocks and wakes it, but locks again before it
    runs; the second, woken late, turns the mutex starving and sleeps
    again; the first unlocks and hands the mutex over. *)
Definition early : oracle := mkOracle false 5.
Definition late : oracle := mkOracle false 100.

Definition handoff_schedule : list (nat * oracle) :=
  [ (0, early); (0, early);
    (1, early); (1, early); (1, early); (1, early);
    (0, early); (0, early); (0, early); (0, early);
    (0, early); (0, early); (0, early); (0, early);
    (1, late); (1, late); (1, late);
    (0, late); (0, late); (0, late);
    (1, late); (1, late) ]%nat.

Definition starved_locals : locals := mkLocals 5 true true 0 12.

End MutexProtocol.

(** ** The scheduler excerpts ([schedule], [findrunnable]) *)

Module Sched.
Import GoInt.

Section Schedule.

(** Goroutine descriptors (a [*g] is an [option G], [None] for nil) and
    the part of the runtime the excerpts do not look into: run queues,
    timers, pollers. *)
Variable G : Type.
Variable Rest : Type.

(** The fields the excerpts read or write. *)
Record runtime : Type := mkRuntime {
  preempt : bool;        (* [_g_.m.p.ptr().preempt] *)
  schedtick : Z;         (* [_g_.m.p.ptr().schedtick], a [uint32] *)
  spinning : bool;       (* [_g_.m.spinning] *)
  gcwaiting : Z;         (* [sched.gcwaiting] *)
  runqsize : Z;          (* [sched.runqsize] *)
  nmspinning : Z;        (* [sched.nmspinning], a [uint32] *)
  npidle : Z;            (* [sched.npidle], a [uint32] *)
  lastpoll : Z;          (* [sched.lastpoll] *)
  netpollWaiters : Z;
  gomaxprocs : Z;
  sched_lock : bool;     (* [sched.lock] is held *)
  rest : Rest
}.

(** The runtime functions the excerpts call without defining them. *)
Variable gcstopm : runtime -> runtime.
Variable globrunqget : Z -> runtime -> option G * runtime.
Variable runqget : runtime -> option G * bool * runtime.
Variable netpollinited : runtime -> bool.
Variable netpoll : Z -> runtime -> list G * runtime.
Variable injectglist : list G -> runtime -> runtime.
Variable casgstatus : G -> runtime -> runtime.
Variable stopm : runtime -> runtime.

(** [stealWork(now)] yields [(gp, inheritTime, rnow, pollUntil, newWork)]. *)
Variable stealWork : Z -> runtime -> option G * bool * Z * Z * bool * runtime.

Definition set_preempt (b : bool) (r : runtime) : runtime :=
  mkRuntime b (schedtick r) (spinning r) (gcwaiting r) (runqsize r) (nmspinning r)
    (npidle r) (lastpoll r) (netpollWaiters r) (gomaxprocs r) (sched_lock r) (rest r).

Definition set_spinning (b : bool) (r : runtime) : runtime :=
  mkRuntime (preempt r) (schedtick r) b (gcwaiting r) (runqsize r) (nmspinning r)
    (npidle r) (lastpoll r) (netpollWaiters r) (gomaxprocs r) (sched_lock r) (rest r).

(** [atomic.Xadd(&sched.nmspinning, delta)] *)
Definition Xadd_nmspinning (delta : Z) (r : runtime) : runtime :=
  mkRuntime (preempt r) (schedtick r) (spinning r) (gcwaiting r) (runqsize r)
    (wrap_uint32 (nmspinning r + delta))
    (npidle r) (lastpoll r) (netpollWaiters r) (gomaxprocs r) (sched_lock r) (rest r).

Definition set_sched_lock (b : bool) (r : runtime) : runtime :=
  mkRuntime (preempt r) (schedtick r) (spinning r) (gcwaiting r) (runqsize r)
    (nmspinning r) (npidle r) (lastpoll r) (netpollWaiters r) (gomaxprocs r) b (rest r).

Definition lock : runtime -> runtime := set_sched_lock true.
Definition unlock : runtime -> runtime := set_sched_lock false.

(** How a scheduling routine ends. *)
Inductive found : Type :=
| Found (gp : option G) (inheritTime : bool) (r : runtime)
| Throw (msg : string).

(** [lock(&sched.lock); gp := globrunqget(_p_, max); unlock(&sched.lock)] *)
Definition globrunqget_locked (max : Z) (r : runtime) : option G * runtime :=
  let r := lock r in
  let '(gp, r) := globrunqget max r in
  (gp, unlock r).

(** The spinning test of step 4, in [uint32]. *)
Definition may_spin (r : runtime) : bool :=
  let procs := wrap_uint32 (gomaxprocs r) in
  spinning r
  || (wrap_uint32 (2 * nmspinning r) <? wrap_uint32 (procs - npidle r)).

(** [findrunnable]; [fuel] bounds the trips through [goto top], [now] is
    the variable of that name, which the excerpt uses without declaring
    it.  [None]: the fuel ran out. *)
Fixpoint findrunnable (fuel : nat) (now : Z) (r : runtime) : option found :=
  match fuel with
  | O => None
  | S fuel' =>
      (* 1 *)
      let '(gp, inheritTime, r) := runqget r in
      if bool_decide (is_Some gp) then Some (Found gp inheritTime r) else
      (* 2 *)
      let '(gp, r) :=
        if negb (runqsize r =? 0) then globrunqget_locked 0 r else (None, r) in
      if bool_decide (is_Some gp) then Some (Found gp false r) else
      (* 3 *)
      let polled :=
        if netpollinited r && (0 <? netpollWaiters r) && negb (lastpoll r =? 0)
        then
          let '(list, r) := netpoll 0 r in
          match list with
          | gp :: list => (Some gp, casgstatus gp (injectglist list r))
          | [] => (None, r)
          end
        else (None, r) in
      let '(gp, r) := polled in
      if bool_decide (is_Some gp) then Some (Found gp false r) else
      (* 4 *)
      let stolen :=
        if may_spin r then
          let r := if negb (spinning r)
                   then Xadd_nmspinning 1 (set_spinning true r) else r in
          let '(gp, inheritTime, tnow, w, newWork, r) := stealWork now r in
          (gp, inheritTime, tnow, newWork, r)
        else (None, false, now, false, r) in
      let '(gp, inheritTime, now, newWork, r) := stolen in
      if bool_decide (is_Some gp) then Some (Found gp inheritTime r) else
      if newWork then findrunnable fuel' now r else
      (* 5 *)
      let r5 := if spinning r then Xadd_nmspinning (-1) (set_spinning false r) else r in
      if spinning r && (wrap_int32 (nmspinning r5) <? 0)
      then Some (Throw "findrunnable: negative nmspinning") else
      let r := r5 in
      (* 6 *)
      let '(gp, r) :=
        if negb (runqsize r =? 0) then globrunqget_locked 0 r else (None, r) in
      if bool_decide (is_Some gp) then Some (Found gp false r) else
      (* 7 *)
      findrunnable fuel' now (stopm r)
  end.

(** How [schedule] ends: it hands [gp] to [execute], which does not come
    back. *)
Inductive scheduled : Type :=
| Execute (gp : option G) (inheritTime : bool) (r : runtime)
| Fatal (msg : string).

(** [schedule]; [fuel] bounds the trips through its own [goto top] and is
    passed on to [findrunnable].  [None]: the fuel ran out. *)
Fixpoint schedule (fuel : nat) (now : Z) (r : runtime) : option scheduled :=
  match fuel with
  | O => None
  | S fuel' =>
      let r := set_preempt false r in
      if negb (gcwaiting r =? 0) then schedule fuel' now (gcstopm r)
      else
        let gp : option G := None in
        let inheritTime := false in
        let '(gp, r) :=
          if bool_decide (gp = None)
             && (Z.rem (schedtick r) 61 =? 0) && (0 <? runqsize r)
          then globrunqget_locked 1 r
          else (gp, r) in
        let picked :=
          match gp with
          | None => let '(gp, inheritTime, r) := runqget r in Some (Found gp inheritTime r)
          | Some _ => Some (Found gp inheritTime r)
          end in
        let picked :=
          match picked with
          | Some (Found None _ r) => findrunnable fuel now r
          | other => other
          end in
        match picked with
        | Some (Found gp inheritTime r) => Some (Execute gp inheritTime r)
        | Some (Throw msg) => Some (Fatal msg)
        | None => None
        end
  end.

(** One trip through [goto top] while a collection is pending: the
    preemption flag is cleared and [gcstopm] runs. *)
Definition gc_round (r : runtime) : runtime :=
  gcstopm
    (mkRuntime false (schedtick r) (spinning r) (gcwaiting r) (runqsize r)
       (nmspinning r) (npidle r) (lastpoll r) (netpollWaiters r) (gomaxprocs r)
       (sched_lock r) (rest r)).

Fixpoint after_collections (n : nat) (r : runtime) : runtime :=
  match n with
  | O => r
  | S n' => after_collections n' (gc_round r)
  end.

(** The order of picking as the description words it, written out on
    the fields of the runtime: with the preemption flag cleared, on every
    61st tick with a non-empty global queue one goroutine is asked of
    [globrunqget] while [sched.lock] is held, and the lock is released;
    if that gave none, the local queue through [runqget]; if that gave
    none, [findrunnable]; the goroutine found goes to [execute]. *)
Definition described_pick (fuel : nat) (now : Z) (r : runtime) : option scheduled :=
  let '(gp, r) :=
    if (schedtick r mod 61 =? 0) && (0 <? runqsize r)
    then
      let '(gp, r1) :=
        globrunqget 1
          (mkRuntime false (schedtick r) (spinning r) (gcwaiting r) (runqsize r)
             (nmspinning r) (npidle r) (lastpoll r) (netpollWaiters r)
             (gomaxprocs r) true (rest r)) in
      (gp,
       mkRuntime (preempt r1) (schedtick r1) (spinning r1) (gcwaiting r1)
         (runqsize r1) (nmspinning r1) (npidle r1) (lastpoll r1)
         (netpollWaiters r1) (gomaxprocs r1) false (rest r1))
    else
      (None,
       mkRuntime false (schedtick r) (spinning r) (gcwaiting r) (runqsize r)
         (nmspinning r) (npidle r) (lastpoll r) (netpollWaiters r)
         (gomaxprocs r) (sched_lock r) (rest r)) in
  match gp with
  | Some gp => Some (Execute (Some gp) false r)
  | None =>
      let '(gp, inheritTime, r) := runqget r in
      match gp with
      | Some gp => Some (Execute (Some gp) inheritTime r)
      | None =>
          match findrunnable fuel now r with
          | Some (Found gp inheritTime r) => Some (Execute gp inheritTime r)
          | Some (Throw msg) => Some (Fatal msg)
          | None => None
          end
      end
  end.

(** Step 4 of [findrunnable] on entry: the goroutine starts spinning if
    it was not. *)
Definition start_spinning (r : runtime) : runtime :=
  if negb (spinning r) then Xadd_nmspinning 1 (set_spinning true r) else r.

End Schedule.

Arguments mkRuntime {Rest}.
Arguments preempt {Rest}.
Arguments schedtick {Rest}.
Arguments spinning {Rest}.
Arguments gcwaiting {Rest}.
Arguments runqsize {Rest}.
Arguments nmspinning {Rest}.
Arguments npidle {Rest}.
Arguments lastpoll {Rest}.
Arguments netpollWaiters {Rest}.
Arguments gomaxprocs {Rest}.
Arguments sched_lock {Rest}.
Arguments rest {Rest}.
Arguments set_preempt {Rest}.
Arguments set_spinning {Rest}.
Arguments Xadd_nmspinning {Rest}.
Arguments set_sched_lock {Rest}.
Arguments lock {Rest}.
Arguments unlock {Rest}.
Arguments Found {G Rest}.
Arguments Throw {G Rest}.
Arguments Execute {G Rest}.
Arguments Fatal {G Rest}.
Arguments globrunqget_locked {G Rest}.
Arguments may_spin {Rest}.
Arguments start_spinning {Rest}.
Arguments findrunnable {G Rest}.
Arguments schedule {G Rest}.
Arguments described_pick {G Rest}.
Arguments gc_round {Rest}.
Arguments after_collections {Rest}.

(** A runtime to run the excerpts on: the rest of it is the global and
    the local run queue, goroutines are numbers; the global queue gives
    up its head, the local queue likewise, nothing is polled, and
    stealing finds goroutine 99. *)
Definition toy_globrunqget (max : Z) (r : runtime (list nat * list nat))
  : option nat * runtime (list nat * list nat) :=
  match fst (rest r) with
  | [] => (None, r)
  | gp :: q =>
      (Some gp,
       mkRuntime (preempt r) (schedtick r) (spinning r) (gcwaiting r)
         (runqsize r - 1) (nmspinning r) (npidle r) (lastpoll r)
         (netpollWaiters r) (gomaxprocs r) (sched_lock r) (q, snd (rest r)))
  end.

Definition toy_runqget (r : runtime (list nat * list nat))
  : option nat * bool * runtime (list nat * list nat) :=
  match snd (rest r) with
  | [] => (None, false, r)
  | gp :: q =>
      (Some gp, true,
       mkRuntime (preempt r) (schedtick r) (spinning r) (gcwaiting r)
         (runqsize r) (nmspinning r) (npidle r) (lastpoll r)
         (netpollWaiters r) (gomaxprocs r) (sched_lock r) (fst (rest r), q))
  end.

Definition toy_stealWork (now : Z) (r : runtime (list nat * list nat))
  : option nat * bool * Z * Z * bool * runtime (list nat * list nat) :=
  (Some 99%nat, false, now, 0, false, r).

Definition toy_schedule (fuel : nat) (r : runtime (list nat * list nat))
  : option (scheduled nat (list nat * list nat)) :=
  schedule (fun r => r) toy_globrunqget toy_runqget (fun _ => false)
    (fun _ r => ([], r)) (fun _ r => r) (fun _ r => r) (fun r => r)
    toy_stealWork fuel 0 r.

(** Tick 122, two goroutines in the global queue, one in the local. *)
Definition toy_runtime (tick : Z) (global_q local_q : list nat)
  : runtime (list nat * list nat) :=
  mkRuntime true tick false 0 (Z.of_nat (length global_q)) 0 0 0 0 4 false
    (global_q, local_q).

(** A global queue that gives up its head only to a caller that holds
    [sched.lock], and a [gcstopm] that comes back with one collection
    less to wait for. *)
Definition guarded_globrunqget (max : Z) (r : runtime (list nat * list nat))
  : option nat * runtime (list nat * list nat) :=
  if sched_lock r then toy_globrunqget max r else (None, r).

Definition toy_gcstopm (r : runtime (list nat * list nat))
  : runtime (list nat * list nat) :=
  mkRuntime (preempt r) (schedtick r) (spinning r) (gcwaiting r - 1) (runqsize r)
    (nmspinning r) (npidle r) (lastpoll r) (netpollWaiters r) (gomaxprocs r)
    (sched_lock r) (rest r).

Definition guarded_schedule (fuel : nat) (r : runtime (list nat * list nat))
  : option (scheduled nat (list nat * list nat)) :=
  schedule toy_gcstopm guarded_globrunqget toy_runqget (fun _ => false)
    (fun _ r => ([], r)) (fun _ r => r) (fun _ r => r) (fun r => r)
    toy_stealWork fuel 0 r.

(** [toy_runtime] with [pending] collections to wait for. *)
Definition collecting (pending tick : Z) (global_q local_q : list nat)
  : runtime (list nat * list nat) :=
  mkRuntime true tick false pending (Z.of_nat (length global_q)) 0 0 0 0 4 false
    (global_q, local_q).

End Sched.

(** ** The file utility: what a run opens, closes and changes *)

Module FileUtilAudit.
Import FileUtil.

Local Open Scope string_scope.

(** Calls that can change what the file system holds. *)
Definition mutating (c : call) : bool :=
  match c with
  | Call (os_Create _) | Call (os_OpenFile _ _ _) | Call (os_WriteFile _ _ _)
  | Call (os_Remove _) | Call (os_Rename _ _) | Call (File_WriteString _ _)
  | Call (io_Copy _ _) => true
  | _ => false
  end.

Fixpoint remove_first (f : File) (held : list File) : list File :=
  match held with
  | [] => []
  | g :: rest => if decide (g = f) then rest else g :: remove_first f rest
  end.

(** The files held open after a call that was answered with [x]: a
    successful open adds its file, [Close] takes its file off. *)
Definition track {X : Type} (e : osE X) : X -> list File -> list File :=
  match e in osE X return X -> list File -> list File with
  | os_Create _ | os_Open _ | os_OpenFile _ _ _ =>
      fun x held => if is_nil (snd x) then fst x :: held else held
  | File_Close f => fun _ held => remove_first f held
  | _ => fun _ held => held
  end.

(** The files a run leaves open, given those held when it starts. *)
Fixpoint leaked {W A : Type} (h : handler W) (p : Prog A) (w : W)
    (held : list File) : list File :=
  match p with
  | Ret _ => held
  | Vis e k => let '(x, w') := h _ e w in leaked h (k x) w' (track e x held)
  end.

(** The lines the listing prints for the entries of a directory. *)
Definition listing (entries : list DirEntry) : list call :=
  Call (Stdout ("Files in directory:" ++ newline))
  :: map (fun entry => Call (Stdout (Described.entryText entry ++ newline))) entries.

(** What a run prints: the texts of its writes to standard output, in
    order; and the calls that write to standard error. *)
Definition printed (c : call) : option string :=
  match c with Call (Stdout text) => Some text | _ => None end.

Definition output (cs : list call) : list string := omap printed cs.

Definition on_stderr (c : call) : bool :=
  match c with Call (Stderr _) => true | _ => false end.

(** A file system with a directory [docs] holding a file and a
    directory. *)
Definition docsFS : MemFS :=
  mkMemFS {[ "docs" := Directory; "docs/sub" := Directory;
             "docs/todo.txt" := RegularFile [] ]} ∅ 3 [] [].

End FileUtilAudit.

(** ** The second demo file: [calcRemainderAndMod] *)

Module BasisDemo.
Import GoInt.

Definition error : Type := option string.
Definition nil : error := None.
Definition errors_New (text : string) : error := Some text.

(** [/] and [%] on [int]: the quotient truncates towards zero and wraps
    in the one case where it does not fit, [minInt / -1]. *)
Definition go_div (a b : Z) : Z := wrap_int (Z.quot a b).
Definition go_mod (a b : Z) : Z := Z.rem a b.

Definition calcRemainderAndMod (numerator denominator : Z) : Z * Z * error :=
  if denominator =? 0
  then (0, 0, errors_New "denominator is 0")
  else (go_div numerator denominator, go_mod numerator denominator, nil).

End BasisDemo.

(** ** The goroutine pool sketch: submitting tasks *)

Module PoolSubmit.
Import GoInt GoroutinePool.

Section Submit.

(** Function values: [func() error] and [func(error)]. *)
Variable F : Type.
Variable C : Type.

(** [Task]; a [*Task] is an [option Task], a function field [None] when
    nil.  [Deadline] is a [time.Time], zero when unset. *)
Record Task : Type := mkTask {
  Fn : option F;
  Callback : option C;
  Priority : Z;
  Deadline : Z
}.

(** A [context.Context], through the two methods [SubmitWithContext]
    calls: whether [Done()] is closed, and [Err()]. *)
Record Context : Type := mkContext { done : bool; Err : error }.

(** [context.Background()] is never done. *)
Definition Background : Context := mkContext false nil.

(** The pool together with what its channels hold: the tasks buffered in
    [taskQueue] (oldest first), the goroutines blocked receiving from it
    and the tasks handed straight to such a receiver, and whether [quit]
    has been closed. *)
Record state : Type := mkState {
  pool : Pool;
  queued : list Task;
  receivers : nat;
  handed : list Task;
  quit_closed : bool
}.

(** [atomic.AddUint64(&p.totalTasks, 1)] *)
Definition count_task (s : state) : state :=
  let p := pool s in
  mkState
    (mkPool (minWorkers p) (maxWorkers p) (keepAlive p) (queueSize p)
       (currentWorkers p) (idleWorkers p) (runningTasks p)
       (wrap_uint (totalTasks p + 1)) (completedTasks p) (failedTasks p)
       (taskQueue p) (workerQueue p) (quit p) (closed p))
    (queued s) (receivers s) (handed s) (quit_closed s).

(** A send on [taskQueue] can proceed when a receiver waits or the
    buffer has room; it goes to the receiver if there is one. *)
Definition send_ready (s : state) : bool :=
  (0 <? Z.of_nat (receivers s))
  || (Z.of_nat (length (queued s)) <? capacity (taskQueue (pool s))).

Definition send (task : Task) (s : state) : state :=
  match receivers s with
  | S n => mkState (pool s) (queued s) n (handed s ++ [task]) (quit_closed s)
  | O => mkState (pool s) (queued s ++ [task]) O (handed s) (quit_closed s)
  end.

(** How a submission ends: it returns, or the caller stays blocked in the
    [select]. *)
Inductive result : Type :=
| Returned (err : error) (s : state)
| Blocked (s : state).

Definition state_of (r : result) : state :=
  match r with Returned _ s | Blocked s => s end.

(** [SubmitWithContext]: the results it can have.  A [select] with
    several cases ready takes any one of them; with none it blocks. *)
Definition SubmitWithContext (ctx : Context) (task : option Task) (s : state)
  : list result :=
  if closed (pool s) =? 1 then [Returned (errors_New "pool is closed") s]
  else
    match task ≫= (fun t => Fn t ≫= (fun _ => Some t)) with
    | None => [Returned (errors_New "task or task function cannot be nil") s]
    | Some t =>
        let s := count_task s in
        let ready :=
          (if send_ready s then [Returned nil (send t s)] else [])
          ++ (if done ctx then [Returned (Err ctx) s] else [])
          ++ (if quit_closed s
              then [Returned (errors_New "pool is shutting down") s] else []) in
        match ready with
        | [] => [Blocked s]
        | _ => ready
        end
    end.

Definition Submit (task : option Task) (s : state) : list result :=
  SubmitWithContext Background task s.

(** [SubmitFunc(fn)] submits [&Task{Fn: fn}]. *)
Definition SubmitFunc (fn : option F) (s : state) : list result :=
  Submit (Some (mkTask fn None 0 0)) s.

(** The submission got past the two checks. *)
Definition accepted (task : option Task) (s : state) : Prop :=
  closed (pool s) <> 1 /\ exists t, task = Some t /\ Fn t <> None.

End Submit.

Arguments mkTask {F C}.
Arguments Fn {F C}.
Arguments Callback {F C}.
Arguments Priority {F C}.
Arguments Deadline {F C}.
Arguments mkState {F C}.
Arguments pool {F C}.
Arguments queued {F C}.
Arguments receivers {F C}.
Arguments handed {F C}.
Arguments quit_closed {F C}.
Arguments count_task {F C}.
Arguments send_ready {F C}.
Arguments send {F C}.
Arguments Returned {F C}.
Arguments Blocked {F C}.
Arguments state_of {F C}.
Arguments SubmitWithContext {F C}.
Arguments Submit {F C}.
Arguments SubmitFunc {F C}.
Arguments accepted {F C}.

(** A pool with a task queue of capacity 2, for running submissions;
    function values are numbers. *)
Definition small_pool (closed_ : Z) : Pool :=
  mkPool 1 2 (60 * Second) 2 0 0 0 0 0 0 (mkChan 8 2) (mkChan 8 2) (mkChan 0 0)
    closed_.

Definition job (n : nat) : Task nat nat := mkTask (Some n) None 0 0.

End PoolSubmit.

(** ** The channel's buffer as a queue *)

Module ChanRing.
Import GoInt Chan.

Section Ring.

Variable Elem : Type.

(** The buffer is a ring: receives take from slot [recvx] onwards, so the
    [k]-th oldest element waiting in the buffer sits [k] slots after
    [recvx], counted modulo [dataqsiz]. *)
Definition slot (c : hchan Elem) (k : nat) : Z :=
  (recvx c + Z.of_nat k) mod dataqsiz c.

(** What the buffer holds, oldest first. *)
Definition contents (c : hchan Elem) : list (option Elem) :=
  map (fun k => buf c !! slot c k) (seq 0 (Z.to_nat (qcount c))).

(** The indices of a buffered channel fit together: [sendx] is [qcount]
    slots after [recvx]. *)
Definition ring_ok (c : hchan Elem) : Prop :=
  0 < dataqsiz c < 2 ^ 64
  /\ 0 <= qcount c <= dataqsiz c
  /\ 0 <= recvx c < dataqsiz c
  /\ sendx c = (recvx c + qcount c) mod dataqsiz c.

(** [c'] is [c] but possibly for the state of its lock. *)
Definition same_but_lock (c c' : hchan Elem) : Prop :=
  c' = mkHchan (qcount c) (dataqsiz c) (buf c) (elemsize c) (closed c)
         (sendx c) (recvx c) (recvq c) (sendq c) (lock c').

(** [gp] after a waker has set [gp.param] to [p]. *)
Definition woken (gp : g) (p : option Z) : g :=
  mkG (goid gp) (waiting gp) p (activeStackChans gp).

End Ring.

Arguments slot {Elem}.
Arguments contents {Elem}.
Arguments ring_ok {Elem}.
Arguments same_but_lock {Elem}.

(** A channel of capacity 3 whose two elements wrap around the end of the
    buffer: 5 in slot 2, then 6 in slot 0. *)
Definition wrapped : hchan Z :=
  mkHchan 2 3 {[ 2 := 5; 0 := 6 ]} 8 0 1 2 [] [] false.

End ChanRing.

(** ** [Lock] run by one goroutine on its own *)

Module MutexRun.
Import GoInt Mutex.

Section Run.

Variable starvationThresholdNs : Z.

(** The goroutine takes its steps with no other goroutine touching the
    mutex in between, the runtime answering each step from [os]; it stops
    when [Lock] has returned, when it has to wait for the semaphore, or
    when the answers run out. *)
Fixpoint run_alone (os : list oracle) (p : pc) (l : locals) (m : Mutex)
  : pc * locals * Mutex :=
  match os with
  | [] => (p, l, m)
  | o :: os' =>
      match step starvationThresholdNs o p l m with
      | None => (p, l, m)
      | Some (p', l', m') => run_alone os' p' l' m'
      end
  end.

End Run.

End MutexRun.

(** ** The scheduler's count of spinning threads *)

Module SchedSpinning.
Import GoInt Sched.

Section Spinning.

Variable Rest : Type.

(** This M's share of [sched.nmspinning]. *)
Definition own (r : runtime Rest) : Z := if spinning r then 1 else 0.

(** [sched.nmspinning] covers this M when it spins, and the other
    spinning Ms are fewer than [2^31 - 1]. *)
Definition accounted (r : runtime Rest) : Prop :=
  0 <= nmspinning r - own r < 2 ^ 31 - 1.

End Spinning.

Arguments own {Rest}.
Arguments accounted {Rest}.

End SchedSpinning.

(** ** The order of stealing ([randomOrder.start]) *)

Module RandomOrder.
Import GoInt.

Record randomOrder : Type := mkRandomOrder {
  count : Z;                 (* uint32 *)
  coprimes : list Z          (* []uint32 *)
}.

Record randomEnum : Type := mkRandomEnum {
  enum_i : Z;
  enum_count : Z;
  pos : Z;
  inc : Z
}.

(** A call returns a value or panics at run time. *)
Inductive started : Type :=
| Started (enum : randomEnum)
| Panics (msg : string).

(** [uint32(len(ord.coprimes))] *)
Definition len32 (ord : randomOrder) : Z :=
  wrap_uint32 (Z.of_nat (length (coprimes ord))).

(** [start]: the fields of the literal are evaluated in order; [%] by
    zero and an index outside the slice panic. *)
Definition start (ord : randomOrder) (i : Z) : started :=
  if count ord =? 0 then Panics "integer divide by zero" else
  if len32 ord =? 0 then Panics "integer divide by zero" else
  match coprimes ord !! Z.to_nat (i mod len32 ord) with
  | None => Panics "index out of range"
  | Some p =>
      match coprimes ord !! Z.to_nat (wrap_uint32 (i + 1) mod len32 ord) with
      | None => Panics "index out of range"
      | Some c => Started (mkRandomEnum (i mod count ord) (count ord) p c)
      end
  end.

End RandomOrder.

(** ** The frame of a new goroutine ([newproc1]) *)

Module Newproc.
Import GoInt.

Section Frame.

(** [sys.RegSize], [sys.MinFrameSize] and [sys.SpAlign] of the target. *)
Variable RegSize : Z.
Variable MinFrameSize : Z.
Variable SpAlign : Z.

(** [totalSize := 4*sys.RegSize + uintptr(siz) + sys.MinFrameSize;
    totalSize += -totalSize & (sys.SpAlign - 1)], in [uintptr]. *)
Definition totalSize (siz : Z) : Z :=
  let totalSize := wrap_uint (wrap_uint (4 * RegSize + wrap_uint siz) + MinFrameSize) in
  wrap_uint (totalSize + Z.land (wrap_uint (- totalSize)) (wrap_uint (SpAlign - 1))).

(** [sp := newg.stack.hi - totalSize] *)
Definition sp (hi siz : Z) : Z := wrap_uint (hi - totalSize siz).

End Frame.

End Newproc.

(** ** Work stealing ([stealWork]) *)

Module StealWork.
Import GoInt RandomOrder.

(** A runtime call returns, or dies in [throw]. *)
Inductive thrown (A : Type) : Type :=
| Ok (a : A)
| Throw (msg : string).

Arguments Ok {A} a.
Arguments Throw {A} msg.

(** [a[i]] for an index held in a [uint32]. *)
Definition index {A : Type} (a : list A) (i : Z) : option A :=
  if i <? 0 then None else a !! Z.to_nat i.

Section Steal.

(** Goroutines, pointers to Ps (compared with [==]), and the state of
    the runtime. *)
Variable G : Type.
Variable P : Type.
Context `{EqDecision P}.
Variable W : Type.

(** What [stealWork] reads and calls: [sched.gcwaiting], [allp],
    [stealOrder], [fastrand()]; the methods [done], [next] and
    [position] of the enumeration, which the notes do not show;
    [runqsteal] and [runqget]. *)
Variable gcwaiting : W -> Z.
Variable allp : W -> list P.
Variable stealOrder : W -> randomOrder.
Variable fastrand : W -> Z * W.
Variable done : randomEnum -> bool.
Variable next : randomEnum -> randomEnum.
Variable position : randomEnum -> Z.
Variable runqsteal : P -> P -> bool -> W -> thrown (option G) * W.
Variable runqget : P -> W -> option G * bool * W.

(** How [stealWork] ends: with its five results, or in a panic or
    throw. *)
Inductive stolen : Type :=
| Stolen (gp : option G) (inheritTime : bool) (rnow pollUntil : Z)
    (newWork : bool) (w : W)
| Died (msg : string) (w : W).

(** How one enumeration of the Ps ends: it ran through, or [stealWork]
    returned from inside it. *)
Inductive pass : Type :=
| Finished (w : W)
| Left (res : stolen).

Definition stealTries : Z := 4.

(** The inner [for enum := ...; !enum.done(); enum.next()]; [fuel]
    bounds its iterations.  [pollUntil] and [newWork] are the named
    results, which nothing assigns. *)
Fixpoint steal_pass (fuel : nat) (pp : P) (now pollUntil : Z) (newWork : bool)
    (stealTimersOrRunNextG : bool) (enum : randomEnum) (w : W) : option pass :=
  match fuel with
  | O => None
  | S fuel' =>
      if done enum then Some (Finished w)
      else if negb (gcwaiting w =? 0)
      then Some (Left (Stolen None false now pollUntil true w))
      else
        match index (allp w) (position enum) with
        | None => Some (Left (Died "index out of range" w))
        | Some p2 =>
            if decide (pp = p2)
            then steal_pass fuel' pp now pollUntil newWork stealTimersOrRunNextG
                   (next enum) w
            else
              match runqsteal pp p2 stealTimersOrRunNextG w with
              | (Throw msg, w) => Some (Left (Died msg w))
              | (Ok (Some gp), w) =>
                  Some (Left (Stolen (Some gp) false now pollUntil newWork w))
              | (Ok None, w) =>
                  steal_pass fuel' pp now pollUntil newWork stealTimersOrRunNextG
                    (next enum) w
              end
        end
  end.

(** What follows the loops. *)
Definition after_tries (pp : P) (ranTimer : bool) (now pollUntil : Z)
    (newWork : bool) (w : W) : stolen :=
  if ranTimer then
    match runqget pp w with
    | (Some gp, inheritTime, w) => Stolen (Some gp) inheritTime now pollUntil newWork w
    | (None, _, w) => Stolen None false now pollUntil newWork w
    end
  else Stolen None false now pollUntil newWork w.

(** The outer [for i := 0; i < stealTries; i++], with [todo] passes
    still to make. *)
Fixpoint steal_tries (fuel : nat) (todo : nat) (i : Z) (pp : P) (ranTimer : bool)
    (now pollUntil : Z) (newWork : bool) (w : W) : option stolen :=
  match todo with
  | O => Some (after_tries pp ranTimer now pollUntil newWork w)
  | S todo' =>
      let stealTimersOrRunNextG := i =? stealTries - 1 in
      let '(r, w) := fastrand w in
      match start (stealOrder w) r with
      | Panics msg => Some (Died msg w)
      | Started enum =>
          match steal_pass fuel pp now pollUntil newWork stealTimersOrRunNextG
                  enum w with
          | None => None
          | Some (Left res) => Some res
          | Some (Finished w) =>
              steal_tries fuel todo' (wrap_int (i + 1)) pp ranTimer now pollUntil
                newWork w
          end
      end
  end.

(** [stealWork(now)], run on the P [pp]; [None]: an enumeration did not
    end within [fuel] steps. *)
Definition stealWork (fuel : nat) (pp : P) (now : Z) (w : W) : option stolen :=
  let ranTimer := false in
  steal_tries fuel (Z.to_nat stealTries) 0 pp ranTimer now 0 false w.

Definition state_of (res : stolen) : W :=
  match res with Stolen _ _ _ _ _ w | Died _ w => w end.

End Steal.

Arguments Stolen {G W}.
Arguments Died {G W}.
Arguments Finished {G W}.
Arguments Left {G W}.
Arguments state_of {G W}.
Arguments steal_pass {G P _ W}.
Arguments after_tries {G P W}.
Arguments steal_tries {G P _ W}.
Arguments stealWork {G P _ W}.

Section Recorded.

Variable G : Type.
Variable P : Type.
Context `{EqDecision P}.
Variable W : Type.

(** The victims [runqsteal] was tried on, with the flag passed. *)
Definition record : Type := list (P * bool).

(** [runqsteal] with a recorder in front of it. *)
Definition recording (runqsteal : P -> P -> bool -> W -> thrown (option G) * W)
    (pp p2 : P) (stealRunNextG : bool) (wl : W * record)
  : thrown (option G) * (W * record) :=
  let '(r, w) := runqsteal pp p2 stealRunNextG (fst wl) in
  (r, (w, snd wl ++ [(p2, stealRunNextG)])).

(** A runtime function on the state that carries the record. *)
Definition aside {A : Type} (f : W -> A * W) (wl : W * record) : A * (W * record) :=
  let '(a, w) := f (fst wl) in (a, (w, snd wl)).

(** [stealWork] run with the recorder, from an empty record. *)
Definition recorded_stealWork
    (gcwaiting : W -> Z) (allp : W -> list P) (stealOrder : W -> randomOrder)
    (fastrand : W -> Z * W) (done : randomEnum -> bool)
    (next : randomEnum -> randomEnum) (position : randomEnum -> Z)
    (runqsteal : P -> P -> bool -> W -> thrown (option G) * W)
    (runqget : P -> W -> option G * bool * W)
    (fuel : nat) (pp : P) (now : Z) (w : W) : option (stolen G (W * record)) :=
  stealWork (W := W * record)
    (fun wl => gcwaiting (fst wl)) (fun wl => allp (fst wl))
    (fun wl => stealOrder (fst wl)) (aside fastrand) done next position
    (recording runqsteal) (fun pp => aside (runqget pp)) fuel pp now (w, []).

(** A result without its record. *)
Definition forget (res : stolen G (W * record)) : stolen G W :=
  match res with
  | Stolen gp inheritTime rnow pollUntil newWork wl =>
      Stolen gp inheritTime rnow pollUntil newWork (fst wl)
  | Died msg wl => Died msg (fst wl)
  end.

(** The state an enumeration ends in, and its result without the
    record. *)
Definition pass_state (r : pass G (W * record)) : W * record :=
  match r with Finished wl => wl | Left res => state_of res end.

Definition forget_pass (r : pass G (W * record)) : pass G W :=
  match r with Finished wl => Finished (fst wl) | Left res => Left (forget res) end.

End Recorded.

Arguments recording {G P W}.
Arguments aside {P W A}.
Arguments recorded_stealWork {G P _ W}.
Arguments forget {G P W}.
Arguments pass_state {G P W}.
Arguments forget_pass {G P W}.

(** A runtime to run [stealWork] on: three Ps, numbered as in [allp], of
    which P 0 is the caller; the enumeration walks as the Go runtime's
    does ([done] when [i] reaches [count], [next] adds [inc] to [pos]
    modulo [count]); [fastrand] yields what the state holds; and only the
    [runnext] of P 2 can be stolen, which gives goroutine 42. *)
Definition toy_done (enum : randomEnum) : bool := enum_i enum =? enum_count enum.

Definition toy_next (enum : randomEnum) : randomEnum :=
  mkRandomEnum (enum_i enum + 1) (enum_count enum)
    ((pos enum + inc enum) mod enum_count enum) (inc enum).

Definition toy_runqsteal (pp p2 : nat) (stealRunNextG : bool) (w : Z)
  : thrown (option nat) * Z :=
  if stealRunNextG && bool_decide (p2 = 2%nat) then (Ok (Some 42%nat), w)
  else (Ok None, w).

Definition toy_stealWork (fuel : nat) (now : Z) (w : Z) : option (stolen nat Z) :=
  stealWork (fun _ => 0) (fun _ => [0; 1; 2]%nat) (fun _ => mkRandomOrder 3 [1; 2])
    (fun w => (w, w)) toy_done toy_next pos toy_runqsteal
    (fun _ w => (None, false, w)) fuel 0%nat now w.

Definition toy_recorded (fuel : nat) (now : Z) (w : Z)
  : option (stolen nat (Z * record nat)) :=
  recorded_stealWork (fun _ => 0) (fun _ => [0; 1; 2]%nat)
    (fun _ => mkRandomOrder 3 [1; 2]) (fun w => (w, w)) toy_done toy_next pos
    toy_runqsteal (fun _ w => (None, false, w)) fuel 0%nat now w.

End StealWork.

(** ** The exit of a goroutine ([goexit], [goexit1]) *)

Module Goexit.

(** Goroutine states, with the values the Go runtime gives them. *)
Definition _Grunning : Z := 2.
Definition _Gdead : Z := 6.

Section Exit.

(** Ms, Ps, and the state of the runtime outside the goroutine. *)
Variable M : Type.
Variable P : Type.
Variable W : Type.

(** [m.p.ptr()] *)
Variable p : M -> P.

(** A [_defer] record; its [link] is the rest of the list it heads. *)
Record Defer : Type := mkDefer { fn : Z; siz : Z }.

(** The fields of [g] that [goexit] and [goexit1] touch; [None] and [[]]
    are nil. *)
Record g : Type := mkG {
  _defer : list Defer;
  _panic : option Z;
  m : option M;
  atomicstatus : Z;
  lockedm : Z;
  preemptStop : bool;
  paniconfault : bool
}.

(** The runtime functions called, none of which the notes define:
    [reflectcall(nil, d.fn, deferArgs(d), d.siz, d.siz)] runs the deferred
    function. *)
Variable reflectcall : Defer -> g * W -> g * W.
Variable freedefer : Defer -> g * W -> g * W.
Variable casgstatus : g -> Z -> Z -> W -> g * W.
Variable gfput : P -> g -> W -> W.
Variable schedule : W -> W.

(** How the exit of a goroutine ends: [schedule] has taken over, or the
    thread died on a nil pointer. *)
Inductive exited : Type :=
| Scheduled (_g_ : g) (w : W)
| Faulted (msg : string) (_g_ : g) (w : W).

Definition goexit1 (_g_ : g) (w : W) : exited :=
  let '(_g_, w) := casgstatus _g_ _Grunning _Gdead w in
  let _g_ := mkG (_defer _g_) (_panic _g_) None (atomicstatus _g_) (lockedm _g_)
               (preemptStop _g_) (paniconfault _g_) in
  let _g_ := mkG (_defer _g_) (_panic _g_) (m _g_) (atomicstatus _g_) 0
               (preemptStop _g_) (paniconfault _g_) in
  let _g_ := mkG (_defer _g_) (_panic _g_) (m _g_) (atomicstatus _g_) (lockedm _g_)
               false (paniconfault _g_) in
  let _g_ := mkG (_defer _g_) (_panic _g_) (m _g_) (atomicstatus _g_) (lockedm _g_)
               (preemptStop _g_) false in
  let _g_ := mkG [] (_panic _g_) (m _g_) (atomicstatus _g_) (lockedm _g_)
               (preemptStop _g_) (paniconfault _g_) in
  let _g_ := mkG (_defer _g_) None (m _g_) (atomicstatus _g_) (lockedm _g_)
               (preemptStop _g_) (paniconfault _g_) in
  match m _g_ with
  | None => Faulted "invalid memory address or nil pointer dereference" _g_ w
  | Some mp =>
      let w := gfput (p mp) _g_ w in
      Scheduled _g_ (schedule w)
  end.

(** [goexit]; [fuel] bounds the trips through the loop. *)
Fixpoint goexit (fuel : nat) (_g_ : g) (w : W) : option exited :=
  match fuel with
  | O => None
  | S fuel' =>
      match _defer _g_ with
      | d :: link =>
          let _g_ := mkG link (_panic _g_) (m _g_) (atomicstatus _g_) (lockedm _g_)
                       (preemptStop _g_) (paniconfault _g_) in
          let '(_g_, w) := reflectcall d (_g_, w) in
          let '(_g_, w) := freedefer d (_g_, w) in
          goexit fuel' _g_ w
      | [] => Some (goexit1 _g_ w)
      end
  end.

(** One deferred call: taken off the chain, run, freed. *)
Definition run_defer (gw : g * W) (d : Defer) : g * W :=
  let '(_g_, w) := gw in
  let _g_ := mkG (tail (_defer _g_)) (_panic _g_) (m _g_) (atomicstatus _g_)
               (lockedm _g_) (preemptStop _g_) (paniconfault _g_) in
  freedefer d (reflectcall d (_g_, w)).

End Exit.

Arguments mkG {M}.
Arguments _defer {M}.
Arguments _panic {M}.
Arguments m {M}.
Arguments atomicstatus {M}.
Arguments lockedm {M}.
Arguments preemptStop {M}.
Arguments paniconfault {M}.
Arguments Scheduled {M W}.
Arguments Faulted {M W}.
Arguments goexit1 {M P W}.
Arguments goexit {M P W}.
Arguments run_defer {M W}.

(** A runtime to run [goexit] on: the state is the list of the deferred
    functions called so far, and [casgstatus] sets the status. *)
Definition toy_reflectcall (d : Defer) (gw : g unit * list Z) : g unit * list Z :=
  (fst gw, snd gw ++ [fn d]).

Definition toy_casgstatus (_g_ : g unit) (oldval newval : Z) (w : list Z)
  : g unit * list Z :=
  (mkG (_defer _g_) (_panic _g_) (m _g_) newval (lockedm _g_) (preemptStop _g_)
     (paniconfault _g_), w).

(** A running goroutine with three deferred calls pending, the most
    recent first. *)
Definition toy_g : g unit :=
  mkG [mkDefer 3 0; mkDefer 2 0; mkDefer 1 0] None (Some tt) _Grunning 0 false false.

Definition toy_goexit (fuel : nat) (_g_ : g unit) : option (exited unit (list Z)) :=
  goexit (fun _ => tt) toy_reflectcall (fun _ gw => gw) toy_casgstatus
    (fun _ _ w => w) (fun w => w) fuel _g_ [].

End Goexit.

(** ** Stealing from one P ([runqsteal]) *)

Module Runqsteal.
Import GoInt StealWork.

Section Steal.

Variable G : Type.

(** The fields of [p] that [runqsteal] touches.  [runq] is an array of
    256 [guintptr]; a slot that is not in the map holds 0. *)
Record p : Type := mkP {
  runqhead : Z;
  runqtail : Z;
  runq : gmap Z G;
  runnext : option G
}.

(** [len(_p_.runq)] *)
Definition runq_len : Z := 256.

(** [runqgrab(p2, &_p_.runq, t, stealRunNextG)], which the notes do not
    define: it takes goroutines from [p2] and stores them in the
    caller's array from slot [t] on; it yields their number, [p2] and
    the array as it left them. *)
Variable runqgrab : p -> gmap Z G -> Z -> bool -> Z * p * gmap Z G.

Definition runqsteal (_p_ p2 : p) (stealRunNextG : bool)
  : thrown (option G) * p * p :=
  let t := runqtail _p_ in
  let '(n, p2, batch) := runqgrab p2 (runq _p_) t stealRunNextG in
  let _p_ := mkP (runqhead _p_) (runqtail _p_) batch (runnext _p_) in
  if n =? 0 then (Ok None, _p_, p2)
  else
    let n := wrap_uint32 (n - 1) in
    match runq _p_ !! (wrap_uint32 (t + n) mod wrap_uint32 runq_len) with
    | None => (Throw "runqsteal: inconsistent runq", _p_, p2)
    | Some gp =>
        (Ok (Some gp),
         mkP (runqhead _p_) (wrap_uint32 (t + n)) (runq _p_) (runnext _p_), p2)
    end.

(** The local run queue of a P: the slots from [runqhead] up to
    [runqtail], oldest first; both indices count modulo [2^32]. *)
Definition queue_len (pp : p) : Z := wrap_uint32 (runqtail pp - runqhead pp).

Definition slot (k : Z) : Z := wrap_uint32 k mod wrap_uint32 runq_len.

Definition queue (pp : p) : list (option G) :=
  map (fun j => runq pp !! slot (runqhead pp + Z.of_nat j))
      (seq 0 (Z.to_nat (queue_len pp))).

End Steal.

Arguments mkP {G}.
Arguments runqhead {G}.
Arguments runqtail {G}.
Arguments runq {G}.
Arguments runnext {G}.
Arguments runqsteal {G}.
Arguments queue_len {G}.
Arguments queue {G}.

(** A [runqgrab] for running [runqsteal]: the victim gives up the
    goroutines 7, 8 and 9, which go into the slots from [batchHead] on. *)
Definition toy_runqgrab (p2 : p nat) (batch : gmap Z nat) (batchHead : Z)
    (stealRunNextG : bool) : Z * p nat * gmap Z nat :=
  (3, mkP (runqtail p2) (runqtail p2) (runq p2) (runnext p2),
   <[slot (batchHead + 2) := 9%nat]>
     (<[slot (batchHead + 1) := 8%nat]> (<[slot batchHead := 7%nat]> batch))).

(** A P whose queue is empty, with both indices about to wrap, and a
    victim. *)
Definition toy_thief : p nat := mkP (2 ^ 32 - 1) (2 ^ 32 - 1) ∅ None.
Definition toy_victim : p nat :=
  mkP 0 3 {[ 0 := 7%nat; 1 := 8%nat; 2 := 9%nat ]} None.

End Runqsteal.

(** * Properties *)

(** ** Machine integers *)

Module GoIntFacts.
Import GoInt.

Lemma wrap_int_range x : is_int (wrap_int x).
Proof.
  unfold is_int, wrap_int, wrap_signed, intSize, minInt, maxInt.
  pose proof (Z.mod_pos_bound (x + 2 ^ (64 - 1)) (2 ^ 64) ltac:(lia)).
  change (2 ^ (64 - 1)) with (2 ^ 63) in *.
  change (2 ^ 64) with (2 * 2 ^ 63) in *. lia.
Qed.

Lemma wrap_int_small x : is_int x -> wrap_int x = x.
Proof.
  unfold is_int, wrap_int, wrap_signed, intSize, minInt, maxInt. intros H.
  change (2 ^ (64 - 1)) with (2 ^ 63).
  rewrite Z.mod_small; [lia|].
  change (2 ^ 64) with (2 * 2 ^ 63). lia.
Qed.

Lemma wrap_int32_small x : - 2 ^ 31 <= x < 2 ^ 31 -> wrap_int32 x = x.
Proof.
  unfold wrap_int32, wrap_signed. intros H.
  change (2 ^ (32 - 1)) with (2 ^ 31).
  rewrite Z.mod_small; [lia|].
  change (2 ^ 32) with (2 * 2 ^ 31). lia.
Qed.

Lemma wrap_uint_small x : 0 <= x < 2 ^ 64 -> wrap_uint x = x.
Proof. intros H. unfold wrap_uint, wrap_unsigned. now apply Z.mod_small. Qed.

End GoIntFacts.

(** ** [doubleEven] *)

Module DoubleEvenFacts.
Import GoInt GoIntFacts DoubleEven.

Lemma go_rem_2_even i : Z.even i = true -> go_rem i 2 = 0.
Proof.
  intros H. apply Z.even_spec in H. destruct H as [k ->].
  unfold go_rem. rewrite Z.mul_comm. apply Z.rem_mul. lia.
Qed.

Lemma go_rem_2_odd i : Z.odd i = true -> go_rem i 2 <> 0.
Proof.
  intros H E. unfold go_rem in E.
  pose proof (Z.quot_rem' i 2) as Q. rewrite E, Z.add_0_r in Q.
  rewrite Q, Z.odd_mul in H. discriminate H.
Qed.

Lemma doubleEven_even i :
  Z.even i = true -> doubleEven i = (wrap_int (2 * i), nil).
Proof.
  intros H. unfold doubleEven. rewrite (go_rem_2_even i H). simpl.
  unfold go_mul. now rewrite (Z.mul_comm i 2).
Qed.

Lemma doubleEven_odd i :
  Z.odd i = true ->
  doubleEven i = (0, errors_New "only even number are processed").
Proof.
  intros H. unfold doubleEven.
  destruct (Z.eqb_spec (go_rem i 2) 0) as [E|E]; [|reflexivity].
  now apply go_rem_2_odd in E.
Qed.

(** C8, as the code has it: for every [i], an even [i] gives the product
    [2 * i] reduced to the 64 bits of [int] and no error, which is [2 * i]
    itself exactly when [2 * i] fits, that is for [-2^62 <= i < 2^62]; an
    odd [i] gives [0] and the error "only even number are processed"; and
    an error is returned if and only if [i] is odd. *)
Theorem doubleEven_spec (i : Z) :
  (Z.even i = true ->
     doubleEven i = (wrap_int (2 * i), nil)
     /\ (- 2 ^ 62 <= i < 2 ^ 62 -> doubleEven i = (2 * i, nil)))
  /\ (Z.odd i = true ->
        doubleEven i = (0, errors_New "only even number are processed"))
  /\ (snd (doubleEven i) <> nil <-> Z.odd i = true).
Proof.
  split; [|split].
  - intros H. split; [now apply doubleEven_even|].
    intros R. rewrite (doubleEven_even i H). f_equal.
    apply wrap_int_small. unfold is_int, minInt, maxInt.
    change (2 ^ 63) with (2 * 2 ^ 62). lia.
  - apply doubleEven_odd.
  - destruct (Z.odd i) eqn:O.
    + rewrite (doubleEven_odd i O). simpl. split; [reflexivity|discriminate].
    + assert (Z.even i = true) as H by (rewrite <- Z.negb_odd, O; reflexivity).
      rewrite (doubleEven_even i H). simpl. split; [congruence|discriminate].
Qed.

(** The three cases of [doubleEven_spec] at [4], [7] and [-3]. *)
Lemma doubleEven_spec_witness :
  doubleEven 4 = (8, nil)
  /\ doubleEven 7 = (0, errors_New "only even number are processed")
  /\ snd (doubleEven (-3)) <> nil.
Proof.
  split; [|split].
  - apply (proj1 (doubleEven_spec 4)); [reflexivity | lia].
  - apply (proj1 (proj2 (doubleEven_spec 7))). reflexivity.
  - apply (proj2 (proj2 (doubleEven_spec (-3)))). reflexivity.
Defined.

(** C8 as stated fails where the product leaves [int]: [2^62] is an even
    [int], and [doubleEven] returns [-2^63] for it, not [2 * 2^62]. *)
Lemma doubleEven_wraps :
  is_int (2 ^ 62) /\ Z.even (2 ^ 62) = true
  /\ doubleEven (2 ^ 62) = (- 2 ^ 63, nil)
  /\ doubleEven (2 ^ 62) <> (2 * 2 ^ 62, nil).
Proof.
  split; [|split; [|split]].
  - unfold is_int, minInt, maxInt. lia.
  - reflexivity.
  - reflexivity.
  - vm_compute. discriminate.
Qed.

End DoubleEvenFacts.

(** ** The command-line file utility *)

Module FileUtilFacts.
Import FileUtil.

Local Open Scope string_scope.

(** *** Running programs *)

Lemma run_bind {W A B} (h : handler W) (p : Prog A) (f : A -> Prog B) (w : W) :
  run h (bind p f) w = let '(a, w') := run h p w in run h (f a) w'.
Proof.
  revert w. induction p as [a | X e k IH]; intros w; simpl.
  - reflexivity.
  - destruct (h X e w) as [x w']. apply IH.
Qed.

Lemma calls_bind {W A B} (h : handler W) (p : Prog A) (f : A -> Prog B) (w : W) :
  calls h (bind p f) w =
  (calls h p w ++ let '(a, w') := run h p w in calls h (f a) w')%list.
Proof.
  revert w. induction p as [a | X e k IH]; intros w; simpl.
  - reflexivity.
  - destruct (h X e w) as [x w']. simpl. f_equal. apply IH.
Qed.

(** The loop of [listFiles] appends one text per entry, in order. *)
Lemma listFiles_loop entries files :
  fold_left listFiles_step entries files
  = (files ++ map Described.entryText entries)%list.
Proof.
  revert files. induction entries as [| entry entries IH]; intros files; simpl.
  - now rewrite app_nil_r.
  - rewrite IH. unfold listFiles_step, Described.entryText.
    now rewrite <- app_assoc.
Qed.

(** *** Reading the command line *)

(** A flag that was read took at least one argument with it. *)
Lemma parseOne_consumes f args f' rest :
  parseOne f args = Seen f' rest -> (List.length rest < List.length args)%nat.
Proof.
  unfold parseOne. intros H.
  repeat (match type of H with
          | context [match ?x with _ => _ end] =>
              destruct x eqn:?; try discriminate H
          end).
  all: injection H as <- <-; simpl; lia.
Qed.

(** So the number of arguments is fuel enough: reading them ends with the
    flags, a failure or the request for help. *)
Lemma flag_Parse_finishes fuel f args f' rest :
  (List.length args <= fuel)%nat -> flag_Parse fuel f args <> Seen f' rest.
Proof.
  revert f args. induction fuel as [|fuel IH]; intros f args Hlen; simpl.
  - destruct args; [|simpl in Hlen; lia]. simpl. discriminate.
  - destruct (parseOne f args) as [f1 rest1| | |] eqn:E; try discriminate.
    apply IH. apply parseOne_consumes in E. lia.
Qed.

Lemma parseFlags_finishes args f' rest : parseFlags args <> Seen f' rest.
Proof. unfold parseFlags. now apply flag_Parse_finishes. Qed.

(** *** The dispatch of [main] *)

(** [main] shows the usage text, or takes the selected case: the message
    about the missing argument, or the one helper of that case. *)
Lemma main_with_dispatch (cmdFlags : CommandFlags) :
  main_with cmdFlags =
  match selected cmdFlags with
  | None => printHelp
  | Some op =>
      if required_missing op cmdFlags
      then fmt_Println (missing_message op)
      else call_helper (helperOf op cmdFlags)
  end.
Proof.
  unfold main_with, selected.
  destruct (Help cmdFlags); [reflexivity|].
  destruct (Create cmdFlags); [simpl; now destruct (String.eqb _ _)|].
  destruct (Read cmdFlags); [simpl; now destruct (String.eqb _ _)|].
  destruct (Write cmdFlags); [simpl; now destruct (String.eqb _ _)|].
  destruct (Append cmdFlags); [simpl; now destruct (String.eqb _ _)|].
  destruct (Copy cmdFlags); [simpl; now destruct (_ || _)|].
  destruct (Delete cmdFlags); [simpl; now destruct (String.eqb _ _)|].
  destruct (List cmdFlags); [simpl; now destruct (String.eqb _ _)|].
  destruct (Rename cmdFlags); [simpl; now destruct (_ || _)|].
  reflexivity.
Qed.

(** A single boolean flag on the command line selects its operation. *)
Lemma own_flag_selects (op : Operation) :
  exists cmdFlags,
    parseFlags ["-" ++ flagOf op] = Finished cmdFlags []
    /\ selected cmdFlags = Some op.
Proof. destruct op; eexists; split; reflexivity. Qed.

Lemma all_operations (op : Operation) :
  In op [OpCreate; OpRead; OpWrite; OpAppend; OpCopy; OpDelete; OpList; OpRename].
Proof. destruct op; simpl; tauto. Qed.

(** *** The operations on offer *)

(** C1, as the code has it: the registered flags are the nine boolean
    flags [-create], [-read], [-write], [-copy], [-delete], [-list],
    [-rename], [-append] and [-help] and the three string flags [-path],
    [-content] and [-dest]; each of the eight operations create, read,
    write, append, copy, delete, list and rename is selected by its own
    flag; [main] shows the usage text or runs the case of the selected
    operation and nothing else; and without a selected operation it makes
    no call to the file system. *)
Theorem operations_on_offer :
  map (fun fl => (flagName fl, isBoolFlag fl)) formal
  = [("create", true); ("read", true); ("write", true); ("copy", true);
     ("delete", true); ("list", true); ("rename", true); ("append", true);
     ("help", true); ("path", false); ("content", false); ("dest", false)]
  /\ (forall op : Operation,
        In op [OpCreate; OpRead; OpWrite; OpAppend; OpCopy; OpDelete; OpList; OpRename]
        /\ exists cmdFlags,
             parseFlags ["-" ++ flagOf op] = Finished cmdFlags []
             /\ selected cmdFlags = Some op)
  /\ (forall cmdFlags : CommandFlags,
        main_with cmdFlags =
        match selected cmdFlags with
        | None => printHelp
        | Some op =>
            if required_missing op cmdFlags
            then fmt_Println (missing_message op)
            else call_helper (helperOf op cmdFlags)
        end)
  /\ (forall (cmdFlags : CommandFlags) (W : Type) (h : handler W) (w : W),
        selected cmdFlags = None ->
        existsb touches_files (calls h (main_with cmdFlags) w) = false).
Proof.
  split; [reflexivity|]. split; [|split].
  - intros op. split; [apply all_operations | apply own_flag_selects].
  - apply main_with_dispatch.
  - intros cmdFlags W h w Hsel. rewrite main_with_dispatch, Hsel.
    unfold printHelp, fmt_Println, trigger. simpl.
    destruct (h unit _ w). reflexivity.
Qed.

(** With only [-rename] given, [operations_on_offer] selects the rename
    case; with nothing given, no call reaches the file system. *)
Lemma operations_on_offer_witness :
  (exists cmdFlags,
     parseFlags ["-rename"] = Finished cmdFlags [] /\ selected cmdFlags = Some OpRename)
  /\ existsb touches_files (calls memfs (main_with zeroFlags) emptyFS) = false.
Proof.
  split.
  - apply (proj2 (proj1 (proj2 operations_on_offer) OpRename)).
  - apply (proj2 (proj2 (proj2 operations_on_offer)) zeroFlags). reflexivity.
Defined.

(** C1 as stated leaves out a case: [-append] is a registered flag, it
    selects an operation that is not among the seven listed, and on a file
    system holding [notes.txt] the run opens that file for appending and
    writes to it. *)
Lemma append_is_on_offer :
  In "append" (map flagName formal)
  /\ calls memfs (main ["-append"; "-path"; "notes.txt"; "-content"; "x"])
       (mkMemFS {[ "notes.txt" := RegularFile [] ]} ∅ 3 [] [])
     = [Call (os_OpenFile "notes.txt" 1025 420);
        Call (File_WriteString (Some 3%nat) "x");
        Call (File_Close (Some 3%nat));
        Call (Stdout ("File appended successfully: notes.txt" ++ newline))]
  /\ ~ (forall args cmdFlags rest op,
          parseFlags args = Finished cmdFlags rest ->
          selected cmdFlags = Some op ->
          In op listed_operations).
Proof.
  split; [|split].
  - simpl. tauto.
  - vm_compute. reflexivity.
  - intros H.
    specialize (H ["-append"; "-path"; "notes.txt"] _ _ OpAppend eq_refl eq_refl).
    simpl in H. intuition discriminate.
Qed.

(** *** A missing argument *)

(** C10: when the selected operation lacks its argument ([-path] for
    create, read, write, append, delete and list; [-path] or [-dest] for
    copy and rename), [main] is the printing of one line that names it:
    on every implementation of the library the run, also when started
    from the command line that was parsed into these flags, consists of
    that one write to standard output, and the in-memory file system
    keeps its files and its open descriptors. *)
Theorem missing_argument (cmdFlags : CommandFlags) (op : Operation) :
  selected cmdFlags = Some op ->
  required_missing op cmdFlags = true ->
  main_with cmdFlags = fmt_Println (missing_message op)
  /\ names_missing op (missing_message op) = true
  /\ (forall (W : Type) (h : handler W) (w : W),
        calls h (main_with cmdFlags) w
        = [Call (Stdout (missing_message op ++ newline))])
  /\ (forall (args rest : list string) (W : Type) (h : handler W) (w : W),
        parseFlags args = Finished cmdFlags rest ->
        calls h (main args) w
        = [Call (Stdout (missing_message op ++ newline))])
  /\ (forall w : MemFS,
        let w' := snd (run memfs (main_with cmdFlags) w) in
        nodes w' = nodes w /\ opened w' = opened w
        /\ stdout w' = (stdout w ++ [(missing_message op ++ newline)%string])%list).
Proof.
  intros Hsel Hmiss.
  assert (E : main_with cmdFlags = fmt_Println (missing_message op)).
  { now rewrite main_with_dispatch, Hsel, Hmiss. }
  split; [exact E|]. split; [now destruct op|]. split; [|split].
  - intros W h w. rewrite E. unfold fmt_Println, trigger. simpl.
    now destruct (h unit _ w).
  - intros args rest W h w Hparse. unfold main. rewrite Hparse, E.
    unfold fmt_Println, trigger. simpl. now destruct (h unit _ w).
  - intros w. rewrite E. simpl. auto.
Qed.

(** [missing_argument] at [-copy -path a.txt], where [-dest] is missing. *)
Lemma missing_argument_witness :
  main_with (set_Path "a.txt" (set_Copy true zeroFlags))
  = fmt_Println "Path and destination are required for copying a file.".
Proof.
  apply (missing_argument (set_Path "a.txt" (set_Copy true zeroFlags)) OpCopy);
    reflexivity.
Defined.

(** *** The wrappers *)



End FileUtilFacts.

(** ** [NewPool] *)

Module GoroutinePoolFacts.
Import GoInt GoIntFacts GoroutinePool.

Section Facts.

Variable NumCPU : Z.
Variable World : Type.
Variable createWorker : Pool * World -> Pool * World.
Variable go_dispatcher : Pool -> World -> World.

Local Abbreviation NewPool := (NewPool NumCPU World createWorker go_dispatcher).
Local Abbreviation startWorkers := (startWorkers World createWorker).

(** The loop calls [createWorker] once for each [i] below [MinWorkers]. *)
Lemma startWorkers_iter (fuel : nat) (i : Z) (config : Config) (pw : Pool * World) :
  0 <= i ->
  i + Z.of_nat fuel = MinWorkers config ->
  is_int (MinWorkers config) ->
  startWorkers fuel i config pw = Nat.iter fuel createWorker pw.
Proof.
  revert i pw. induction fuel as [| fuel IH]; intros i pw Hi Hsum Hint.
  - reflexivity.
  - cbn [GoroutinePool.startWorkers].
    replace (i <? MinWorkers config) with true by (symmetry; apply Z.ltb_lt; lia).
    rewrite wrap_int_small by (unfold is_int, minInt, maxInt in *; lia).
    rewrite IH by (try lia; assumption).
    now rewrite Nat.iter_succ_r.
Qed.

Lemma iter_keeps_queues (n : nat) (pw : Pool * World) :
  (forall pw, taskQueue (fst (createWorker pw)) = taskQueue (fst pw)
              /\ workerQueue (fst (createWorker pw)) = workerQueue (fst pw)) ->
  taskQueue (fst (Nat.iter n createWorker pw)) = taskQueue (fst pw)
  /\ workerQueue (fst (Nat.iter n createWorker pw)) = workerQueue (fst pw).
Proof.
  intros Hkeep. induction n as [| n [IH1 IH2]]; [easy|].
  simpl. destruct (Hkeep (Nat.iter n createWorker pw)) as [E1 E2].
  split; congruence.
Qed.

(** C9.  With [runtime.NumCPU()] at least 1 (and small enough to be
    doubled), and a [createWorker] that leaves the two queues of the pool
    in place: for a non-nil [Config], [NewPool] returns an error exactly
    when [MinWorkers <= 0], [MaxWorkers <= 0] or [MinWorkers > MaxWorkers];
    for nil it works with [DefaultConfig], which is [NumCPU], [2 * NumCPU],
    60 seconds and 1000, and returns no error; and a pool it returns has a
    [taskQueue] of capacity [QueueSize], a [workerQueue] of capacity
    [MaxWorkers], and is what [MinWorkers] calls of [createWorker] made of
    the fresh pool, the dispatcher being started after them. *)
Theorem NewPool_spec (w : World) :
  1 <= NumCPU < 2 ^ 62 ->
  (forall pw, taskQueue (fst (createWorker pw)) = taskQueue (fst pw)
              /\ workerQueue (fst (createWorker pw)) = workerQueue (fst pw)) ->
  (forall config : Config,
     returns_error (fst (NewPool (Some config) w))
     <-> (MinWorkers config <= 0 \/ MaxWorkers config <= 0
          \/ MinWorkers config > MaxWorkers config))
  /\ (DefaultConfig NumCPU = mkConfig NumCPU (2 * NumCPU) (60 * Second) 1000
      /\ NewPool None w = NewPool (Some (DefaultConfig NumCPU)) w
      /\ ~ returns_error (fst (NewPool None w)))
  /\ (forall (config : option Config) (pool : Pool) (w' : World),
        is_int (MinWorkers (effective NumCPU config)) ->
        NewPool config w = (Returns (Some pool, nil), w') ->
        let cfg := effective NumCPU config in
        capacity (taskQueue pool) = QueueSize cfg
        /\ capacity (workerQueue pool) = MaxWorkers cfg
        /\ exists (pool0 : Pool) (w1 : World),
             currentWorkers pool0 = 0
             /\ Nat.iter (Z.to_nat (MinWorkers cfg)) createWorker (pool0, w) = (pool, w1)
             /\ w' = go_dispatcher pool w1).
Proof.
  intros HCPU Hkeep.
  assert (Herr : forall config : Config,
            returns_error (fst (NewPool (Some config) w))
            <-> (MinWorkers config <= 0 \/ MaxWorkers config <= 0
                 \/ MinWorkers config > MaxWorkers config)).
  { intros config. unfold GoroutinePool.NewPool.
    destruct (Z.leb_spec (MinWorkers config) 0) as [H1|H1];
      [simpl; split; [lia|tauto]|].
    destruct (Z.leb_spec (MaxWorkers config) 0) as [H2|H2];
      [simpl; split; [lia|tauto]|].
    cbn [orb].
    destruct (Z.gtb_spec (MinWorkers config) (MaxWorkers config)) as [H3|H3];
      [simpl; split; [lia|tauto]|].
    destruct (make_chan 8 (QueueSize config)); [|simpl; split; [tauto|lia]].
    destruct (make_chan 8 (MaxWorkers config)); [|simpl; split; [tauto|lia]].
    cbn [make_chan]. simpl.
    destruct (GoroutinePool.startWorkers _ _ _ _ _ _). simpl. split; [tauto|lia]. }
  assert (Hdef : DefaultConfig NumCPU = mkConfig NumCPU (2 * NumCPU) (60 * Second) 1000).
  { unfold DefaultConfig. f_equal. rewrite Z.mul_comm. apply wrap_int_small.
    unfold is_int, minInt, maxInt. change (2 ^ 63) with (2 * 2 ^ 62). lia. }
  split; [exact Herr|]. split.
  - split; [exact Hdef|]. split; [reflexivity|].
    change (NewPool None w) with (NewPool (Some (DefaultConfig NumCPU)) w).
    rewrite Herr, Hdef. simpl. lia.
  - intros config pool w' Hint Hret cfg.
    unfold GoroutinePool.NewPool in Hret. fold (effective NumCPU config) in Hret.
    fold cfg in Hret.
    destruct (Z.leb_spec (MinWorkers cfg) 0) as [H1|H1]; [discriminate Hret|].
    destruct (Z.leb_spec (MaxWorkers cfg) 0) as [H2|H2]; [discriminate Hret|].
    cbn [orb] in Hret.
    destruct (MinWorkers cfg >? MaxWorkers cfg); [discriminate Hret|].
    unfold make_chan in Hret.
    destruct ((QueueSize cfg <? 0) || _); [discriminate Hret|].
    destruct ((MaxWorkers cfg <? 0) || _); [discriminate Hret|].
    simpl in Hret.
    rewrite startWorkers_iter in Hret by (try lia; assumption).
    match type of Hret with
    | context [Nat.iter ?n createWorker (?p0, w)] =>
        pose proof (iter_keeps_queues n (p0, w) Hkeep) as [K1 K2];
        destruct (Nat.iter n createWorker (p0, w)) as [pool1 w1] eqn:Eiter;
        set (pool0 := p0) in *
    end.
    injection Hret as <- <-. simpl in K1, K2.
    rewrite K1, K2. simpl.
    split; [reflexivity|]. split; [reflexivity|].
    exists pool0, w1. split; [reflexivity|]. split; [exact Eiter|reflexivity].
Qed.

End Facts.

(** [NewPool_spec] on a machine with 8 processors, with a [createWorker]
    that counts: a configuration of 2 to 4 workers and a queue of 10 gives
    a pool with those capacities, 2 workers and 3 goroutines. *)
Lemma NewPool_spec_witness :
  exists pool,
    NewPool 8 nat countingWorker countingDispatcher
      (Some (mkConfig 2 4 (60 * Second) 10)) 0%nat
    = (Returns (Some pool, nil), 3%nat)
    /\ capacity (taskQueue pool) = 10
    /\ capacity (workerQueue pool) = 4
    /\ currentWorkers pool = 2.
Proof.
  eexists. split; [reflexivity|].
  pose proof (NewPool_spec 8 nat countingWorker countingDispatcher 0%nat
                ltac:(lia) ltac:(intros [p n]; split; reflexivity)) as [_ [_ H]].
  specialize (H (Some (mkConfig 2 4 (60 * Second) 10)) _ _
                ltac:(unfold is_int, minInt, maxInt; simpl; lia) eq_refl).
  destruct H as [H1 [H2 _]].
  split; [exact H1|]. split; [exact H2|]. reflexivity.
Defined.

End GoroutinePoolFacts.

(** ** [chansend] *)

Module ChanFacts.
Import GoInt GoIntFacts Chan.

Section Facts.

Variable Elem : Type.
Variable full : hchan Elem -> bool.
Variable send : hchan Elem -> sudog Elem -> Elem -> (hchan Elem -> hchan Elem) -> hchan Elem.
Variable acquireSudog : Z.

Local Abbreviation chansend := (chansend full send acquireSudog).
Local Abbreviation described_send := (described_send send acquireSudog).

(** The slot, the index and the count after a buffered send. *)
Lemma buffer_put_slot (ep : Elem) (c : hchan Elem) :
  buf (buffer_put ep c) !! sendx c = Some ep
  /\ forall i, i <> sendx c -> buf (buffer_put ep c) !! i = buf c !! i.
Proof.
  unfold buffer_put. simpl. split.
  - apply lookup_insert_eq.
  - intros i Hi. now apply lookup_insert_ne.
Qed.

Lemma buffer_put_sendx (ep : Elem) (c : hchan Elem) :
  0 <= sendx c < dataqsiz c -> dataqsiz c < 2 ^ 64 ->
  sendx (buffer_put ep c) = (sendx c + 1) mod dataqsiz c.
Proof.
  intros Hx Hq. unfold buffer_put. simpl.
  rewrite wrap_uint_small by lia.
  destruct (Z.eqb_spec (sendx c + 1) (dataqsiz c)) as [E|E].
  - rewrite E, Z.mod_same by lia. reflexivity.
  - rewrite Z.mod_small by lia. reflexivity.
Qed.

Lemma buffer_put_qcount (ep : Elem) (c : hchan Elem) :
  0 <= qcount c < dataqsiz c -> dataqsiz c < 2 ^ 64 ->
  qcount (buffer_put ep c) = qcount c + 1.
Proof.
  intros Hc Hq. unfold buffer_put. simpl. apply wrap_uint_small. lia.
Qed.

(** The runtime's [full] is sound on every consistent channel. *)
Lemma runtime_full_sound (c : hchan Elem) :
  consistent c -> sound_at runtime_full c.
Proof.
  intros (_ & Hq & _ & _ & _ & Hr). unfold sound_at, runtime_full.
  destruct (Z.eqb_spec (dataqsiz c) 0) as [E0|E0].
  - intros H. apply bool_decide_eq_true in H. split; [exact H|lia].
  - intros H. apply Z.eqb_eq in H. split; [|lia].
    destruct (recvq c) as [|sg rest]; [reflexivity|].
    assert (qcount c = 0) by (apply Hr; discriminate). lia.
Qed.

(** C4.  On every consistent channel, and with a [full] that calls a
    channel full only when a send cannot go ahead (as the runtime's does),
    [chansend] does what the description says: a send on a closed
    channel panics with "send on closed channel"; otherwise, if a
    receiver waits in [recvq], the element is handed to the first one;
    otherwise, if [qcount < dataqsiz], the element is stored in the
    buffer at [sendx], [sendx] is advanced and reset to 0 when it reaches
    [dataqsiz], and [qcount] is incremented; otherwise a non-blocking
    send returns false, leaving the channel as it was, and a blocking
    send puts the sender at the end of [sendq] and parks. *)
Theorem chansend_order (c : hchan Elem) (ep : Elem) (block : bool) (gp : g) :
  consistent c ->
  sound_at full c ->
  chansend (Some c) ep block gp = described_send c ep block gp
  /\ sound_at runtime_full c.
Proof.
  intros Hc Hfull. split; [|now apply runtime_full_sound].
  destruct Hc as (Hlock & Hq & Hd & Hx0 & Hx & Hr).
  assert (Hu : mkHchan (qcount c) (dataqsiz c) (buf c) (elemsize c) (closed c)
                 (sendx c) (recvx c) (recvq c) (sendq c) false = c).
  { destruct c; simpl in *. now subst. }
  unfold Chan.chansend, Chan.described_send.
  destruct (negb block && (closed c =? 0) && full c) eqn:Hfast.
  - apply andb_prop in Hfast as [Hfast Hf].
    apply andb_prop in Hfast as [Hblock Hclosed].
    destruct block; [discriminate Hblock|].
    destruct (Hfull Hf) as [Hrecv Hroom].
    rewrite Hclosed, Hrecv. cbn [negb].
    destruct (Z.ltb_spec (qcount c) (dataqsiz c)) as [Hlt|_]; [lia|reflexivity].
  - cbn [do_lock closed]. destruct (Z.eqb_spec (closed c) 0) as [Hopen|Hclosed];
      cbn [negb].
    2:{ unfold unlock. cbn. now rewrite Hu. }
    unfold dequeue_recvq, unlock, buffer_put, enqueue_sendq, do_lock. cbn.
    destruct (recvq c) as [|sg rest] eqn:Hrecv; [|reflexivity]. cbn.
    destruct (Z.ltb_spec (qcount c) (dataqsiz c)) as [Hroom|Hnoroom].
    { now rewrite !wrap_uint_small by lia. }
    destruct block; cbn [negb]; [reflexivity|].
    now rewrite Hu.
Qed.

End Facts.

(** [chansend_order] with the runtime's [full]: a blocking send on an
    empty channel of capacity 2 stores the element in slot 0 and leaves
    [sendx] and [qcount] at 1; on an unbuffered channel with a receiver
    waiting, the receiver is taken off the queue and the element handed
    to it. *)
Lemma chansend_order_witness :
  chansend runtime_full direct_send 200 (Some empty_buffered) 9 true sender
  = Returned true (Some (mkHchan 1 2 {[ 0 := 9 ]} 8 0 1 0 [] [] false))
  /\ chansend runtime_full direct_send 200 (Some with_receiver) 9 false sender
     = Returned true (Some (mkHchan 0 0 ∅ 8 0 0 0 [] [] false)).
Proof.
  split.
  - refine (proj1 (chansend_order Z runtime_full direct_send 200 empty_buffered 9
                     true sender _ _)).
    + unfold consistent. simpl. repeat split; lia.
    + intros H. discriminate H.
  - refine (proj1 (chansend_order Z runtime_full direct_send 200 with_receiver 9
                     false sender _ _)).
    + unfold consistent. simpl. repeat split; lia.
    + intros H. discriminate H.
Defined.

End ChanFacts.

(** ** [Lock] *)

Module MutexFacts.
Import GoInt GoIntFacts Mutex.

(** *** Flags in the low three bits, waiters above *)

Lemma constants :
  mutexLocked = 1 /\ mutexWoken = 2 /\ mutexStarving = 4 /\ mutexWaiterShift = 3.
Proof. repeat split. Qed.

(** A state word splits into its waiter count and its three flag bits. *)
Lemma split_word (s : Z) :
  s = 8 * Z.shiftr s 3 + Z.land s 7 /\ 0 <= Z.land s 7 < 8.
Proof.
  rewrite Z.shiftr_div_pow2 by lia.
  change 7 with (Z.ones 3). rewrite Z.land_ones by lia.
  change (2 ^ 3) with 8.
  pose proof (Z.div_mod s 8 ltac:(lia)).
  pose proof (Z.mod_pos_bound s 8 ltac:(lia)). lia.
Qed.

Lemma join_word (w r : Z) :
  0 <= r < 8 -> 8 * w + r = Z.lor (Z.shiftl w 3) r /\ Z.land (Z.shiftl w 3) r = 0.
Proof.
  intros Hr.
  assert (L : Z.land (Z.shiftl w 3) r = 0).
  { apply Z.bits_inj'. intros n Hn. rewrite Z.land_spec, Z.bits_0.
    destruct (Z.ltb_spec n 3).
    - rewrite Z.shiftl_spec_low by lia. reflexivity.
    - rewrite (Z.bits_above_log2 r n); [apply andb_false_r | lia |].
      destruct (Z.eq_dec r 0) as [->|]; [simpl; lia|].
      apply Z.log2_lt_pow2; [lia|].
      apply Z.lt_le_trans with (2 ^ 3); [simpl; lia|].
      apply Z.pow_le_mono_r; lia. }
  split; [|exact L].
  rewrite <- Z.lxor_lor by exact L.
  rewrite <- Z.add_nocarry_lxor by exact L.
  rewrite Z.shiftl_mul_pow2 by lia. lia.
Qed.

(** Two numbers below 8 stay below 8 under [lor] and [ldiff]. *)
Lemma small_cases (r k : Z) :
  0 <= r < 8 -> 0 <= k < 8 ->
  0 <= Z.lor r k < 8 /\ 0 <= Z.ldiff r k < 8 /\ Z.ldiff r k <= r.
Proof.
  intros Hr Hk.
  assert (Er : r = 0 \/ r = 1 \/ r = 2 \/ r = 3 \/ r = 4 \/ r = 5 \/ r = 6 \/ r = 7) by lia.
  assert (Ek : k = 0 \/ k = 1 \/ k = 2 \/ k = 3 \/ k = 4 \/ k = 5 \/ k = 6 \/ k = 7) by lia.
  destruct Er as [->|[->|[->|[->|[->|[->|[->| ->]]]]]]];
    destruct Ek as [->|[->|[->|[->|[->|[->|[->| ->]]]]]]];
    vm_compute; intuition discriminate.
Qed.

(** Bitwise operations with a mask below 8 act on the flag bits only. *)
Lemma lor_low (w r k : Z) :
  0 <= r < 8 -> 0 <= k < 8 ->
  Z.lor (8 * w + r) k = 8 * w + Z.lor r k /\ 0 <= Z.lor r k < 8.
Proof.
  intros Hr Hk.
  assert (B : 0 <= Z.lor r k < 8) by (apply small_cases; assumption).
  split; [|exact B].
  destruct (join_word w r Hr) as [-> _].
  rewrite <- Z.lor_assoc.
  destruct (join_word w (Z.lor r k) B) as [-> _]. reflexivity.
Qed.

Lemma land_low (w r k : Z) :
  0 <= r < 8 -> 0 <= k < 8 -> Z.land (8 * w + r) k = Z.land r k.
Proof.
  intros Hr Hk.
  destruct (join_word w r Hr) as [-> _].
  rewrite Z.land_lor_distr_l.
  destruct (join_word w k Hk) as [_ ->]. reflexivity.
Qed.

Lemma ldiff_low (w r k : Z) :
  0 <= r < 8 -> 0 <= k < 8 ->
  Z.ldiff (8 * w + r) k = 8 * w + Z.ldiff r k /\ 0 <= Z.ldiff r k < 8.
Proof.
  intros Hr Hk.
  assert (B : 0 <= Z.ldiff r k < 8) by (apply small_cases; assumption).
  split; [|exact B].
  destruct (join_word w r Hr) as [-> _].
  destruct (join_word w (Z.ldiff r k) B) as [-> _].
  apply Z.bits_inj'. intros n Hn.
  rewrite Z.ldiff_spec, !Z.lor_spec, Z.ldiff_spec.
  destruct (Z.ltb_spec n 3).
  - rewrite Z.shiftl_spec_low by lia. reflexivity.
  - rewrite (Z.bits_above_log2 k n); [simpl; now rewrite !andb_true_r | lia |].
    destruct (Z.eq_dec k 0) as [->|]; [simpl; lia|].
    apply Z.log2_lt_pow2; [lia|].
    apply Z.lt_le_trans with (2 ^ 3); [simpl; lia|].
    apply Z.pow_le_mono_r; lia.
Qed.

Lemma shiftr_low (w r : Z) : 0 <= r < 8 -> Z.shiftr (8 * w + r) 3 = w.
Proof.
  intros Hr. rewrite Z.shiftr_div_pow2 by lia. change (2 ^ 3) with 8.
  symmetry. apply (Z.div_unique _ 8 w r); lia.
Qed.

(** Masks below 8 leave the waiter count alone; adding 8 adds a waiter. *)
Lemma waiters_lor (s k : Z) : 0 <= k < 8 -> waiters (Z.lor s k) = waiters s.
Proof.
  intros Hk. unfold waiters, mutexWaiterShift.
  rewrite Z.shiftr_lor, (Z.shiftr_div_pow2 k) by lia.
  rewrite Z.div_small by (simpl; lia). apply Z.lor_0_r.
Qed.

Lemma waiters_add (s : Z) : waiters (s + 8) = waiters s + 1.
Proof.
  unfold waiters, mutexWaiterShift. rewrite !Z.shiftr_div_pow2 by lia.
  change (2 ^ 3) with 8. replace (s + 8) with (s + 1 * 8) by lia.
  apply Z.div_add. lia.
Qed.

(** Case analysis on the three flag bits of a word. *)
Lemma word_cases (s : Z) :
  exists w r, s = 8 * w + r /\ w = Z.shiftr s 3
    /\ (r = 0 \/ r = 1 \/ r = 2 \/ r = 3 \/ r = 4 \/ r = 5 \/ r = 6 \/ r = 7).
Proof.
  destruct (split_word s) as [E Hr].
  exists (Z.shiftr s 3), (Z.land s 7). split; [exact E|]. split; [reflexivity|lia].
Qed.

Ltac flag_cases s w r :=
  let E := fresh "E" in
  let Ew := fresh "Ew" in
  let C := fresh "C" in
  destruct (word_cases s) as (w & r & E & Ew & C);
  rewrite E in *;
  destruct C as [->|[->|[->|[->|[->|[->|[->| ->]]]]]]].

Lemma is_set_low (w r k : Z) :
  0 <= r < 8 -> 0 <= k < 8 -> is_set (8 * w + r) k = is_set r k.
Proof. intros Hr Hk. unfold is_set. now rewrite land_low. Qed.

Lemma locked_odd (s : Z) : locked s = Z.odd s.
Proof.
  unfold locked, is_set, mutexLocked. change (Z.shiftl 1 0) with (Z.ones 1).
  rewrite Z.land_ones by lia. change (2 ^ 1) with 2.
  rewrite Zmod_odd. now destruct (Z.odd s).
Qed.

End MutexFacts.

(** ** [Lock] among the goroutines that use the mutex *)

Module MutexProtocolFacts.
Import GoInt GoIntFacts Mutex MutexFacts MutexProtocol.

(** *** Reading the flags and the waiter count of a word *)

Ltac masks :=
  unfold locked, woken, starved, waiters, mutexLocked, mutexWoken, mutexStarving,
    mutexWaiterShift in *;
  change (Z.shiftl 1 0) with 1 in *; change (Z.shiftl 1 1) with 2 in *;
  change (Z.shiftl 1 2) with 4 in *; change (Z.shiftl 1 3) with 8 in *;
  change (Z.lor 1 4) with 5 in *; change (Z.lor (Z.lor 1 2) 4) with 7 in *.

Ltac is_pos p :=
  lazymatch p with
  | xH => idtac
  | xO ?q => is_pos q
  | xI ?q => is_pos q
  end.

Ltac is_num a :=
  lazymatch a with
  | Z0 => idtac
  | Zpos ?p => is_pos p
  | Zneg ?p => is_pos p
  end.

(** Evaluates the operations on numerals. *)
Ltac calc :=
  repeat match goal with
    | |- context [Z.lor ?a ?b] =>
        is_num a; is_num b;
        let v := eval vm_compute in (Z.lor a b) in change (Z.lor a b) with v
    | |- context [Z.ldiff ?a ?b] =>
        is_num a; is_num b;
        let v := eval vm_compute in (Z.ldiff a b) in change (Z.ldiff a b) with v
    | |- context [Z.land ?a ?b] =>
        is_num a; is_num b;
        let v := eval vm_compute in (Z.land a b) in change (Z.land a b) with v
    | |- context [is_set ?a ?b] =>
        is_num a; is_num b;
        let v := eval vm_compute in (is_set a b) in change (is_set a b) with v
    | |- context [Z.eqb ?a ?b] =>
        is_num a; is_num b;
        let v := eval vm_compute in (Z.eqb a b) in change (Z.eqb a b) with v
    end;
  cbn [Z.b2z negb andb orb].

(** A word is its waiter count above its three flags. *)
Lemma word_parts (s : Z) :
  s = 8 * waiters s
      + (4 * Z.b2z (starved s) + 2 * Z.b2z (woken s) + Z.b2z (locked s)).
Proof.
  masks. flag_cases s w r; rewrite shiftr_low, !is_set_low by lia; calc; lia.
Qed.

(** The tests of the code, in terms of the flags. *)
Lemma test_flag (s k : Z) : (Z.land s k =? 0) = negb (is_set s k).
Proof. unfold is_set. now rewrite negb_involutive. Qed.

Lemma test_locked_starving (s : Z) :
  (Z.land s (Z.lor mutexLocked mutexStarving) =? 0)
  = negb (locked s) && negb (starved s).
Proof.
  masks. flag_cases s w r; rewrite land_low, !is_set_low by lia; calc; reflexivity.
Qed.

Lemma test_only_locked (s : Z) :
  (Z.land s (Z.lor mutexLocked mutexStarving) =? mutexLocked)
  = locked s && negb (starved s).
Proof.
  masks. flag_cases s w r; rewrite land_low, !is_set_low by lia; calc; reflexivity.
Qed.

Lemma test_any_flag (s : Z) :
  (Z.land s (Z.lor (Z.lor mutexLocked mutexWoken) mutexStarving) =? 0)
  = negb (locked s) && negb (woken s) && negb (starved s).
Proof.
  masks. flag_cases s w r; rewrite land_low, !is_set_low by lia; calc; reflexivity.
Qed.

Lemma test_zero (s : Z) :
  (s =? 0)
  = (waiters s =? 0) && negb (locked s) && negb (woken s) && negb (starved s).
Proof.
  pose proof (word_parts s) as E.
  destruct (Z.eqb_spec s 0) as [Z|NZ].
  - rewrite Z in *. reflexivity.
  - destruct (Z.eqb_spec (waiters s) 0) as [W0|]; [|reflexivity].
    destruct (starved s), (woken s), (locked s); cbn [Z.b2z] in E;
      try reflexivity; lia.
Qed.

Lemma test_woken (s : Z) : (Z.land s mutexWoken =? 0) = negb (woken s).
Proof. apply test_flag. Qed.

Lemma test_starving (s : Z) : (Z.land s mutexStarving =? 0) = negb (starved s).
Proof. apply test_flag. Qed.

Lemma spins_flags (o : oracle) (l : locals) :
  spins o l = locked (old l) && negb (starved (old l)) && canSpin o.
Proof. unfold spins. now rewrite test_only_locked. Qed.

Lemma wants_woken_flags (l : locals) :
  wants_woken l
  = negb (awoke l) && negb (woken (old l)) && negb (waiters (old l) =? 0).
Proof. unfold wants_woken. now rewrite test_woken. Qed.

(** Brings every operation on a word [8 * w + r] to that form again. *)
Ltac crunch :=
  repeat first
    [ match goal with
      | |- context [Z.lor (8 * ?x + ?r) ?k] =>
          is_num r; is_num k;
          destruct (lor_low x r k ltac:(lia) ltac:(lia)) as [-> _]
      | |- context [Z.ldiff (8 * ?x + ?r) ?k] =>
          is_num r; is_num k;
          destruct (ldiff_low x r k ltac:(lia) ltac:(lia)) as [-> _]
      | |- context [Z.land (8 * ?x + ?r) ?k] =>
          is_num r; is_num k; rewrite (land_low x r k) by lia
      | |- context [is_set (8 * ?x + ?r) ?k] =>
          is_num r; is_num k; rewrite (is_set_low x r k) by lia
      | |- context [Z.shiftr (8 * ?x + ?r) 3] =>
          is_num r; rewrite (shiftr_low x r) by lia
      | |- context [wrap_int32 ?y] => rewrite (wrap_int32_small y) by lia
      | |- context [8 * ?x + ?r + ?c] =>
          is_num r; is_num c;
          let q := eval vm_compute in ((r + c) / 8) in
          let v := eval vm_compute in ((r + c) mod 8) in
          replace (8 * x + r + c) with (8 * (x + q) + v) by lia
      | |- context [8 * ?x + ?r - ?c] =>
          is_num r; is_num c;
          let q := eval vm_compute in ((r - c) / 8) in
          let v := eval vm_compute in ((r - c) mod 8) in
          replace (8 * x + r - c) with (8 * (x + q) + v) by lia
      end
    | progress calc ].

(** The word [lockSlow] prepares. *)
Lemma prepare_flags (l : locals) :
  0 <= waiters (old l) < 2 ^ 28 - 1 ->
  locked (prepare l) = locked (old l) || negb (starved (old l))
  /\ woken (prepare l) = woken (old l) && negb (awoke l)
  /\ starved (prepare l) = starved (old l) || (starving l && locked (old l))
  /\ waiters (prepare l) = waiters (old l) + Z.b2z (locked (old l) || starved (old l)).
Proof.
  unfold prepare. masks. intros H.
  flag_cases (old l) w r; rewrite shiftr_low in H by lia;
    destruct (starving l), (awoke l); crunch; cbn [andb negb];
      crunch; repeat split; lia.
Qed.


(** The woken swap of the spinning goroutine. *)
Lemma spin_flags (s : Z) :
  locked (Z.lor s mutexWoken) = locked s
  /\ woken (Z.lor s mutexWoken) = true
  /\ starved (Z.lor s mutexWoken) = starved s
  /\ waiters (Z.lor s mutexWoken) = waiters s.
Proof. masks. flag_cases s w r; crunch; repeat split; lia. Qed.

(** The add of [Unlock]. *)
Lemma unlock_flags (s : Z) :
  locked s = true -> 0 <= waiters s < 2 ^ 28 ->
  locked (wrap_int32 (s - mutexLocked)) = false
  /\ woken (wrap_int32 (s - mutexLocked)) = woken s
  /\ starved (wrap_int32 (s - mutexLocked)) = starved s
  /\ waiters (wrap_int32 (s - mutexLocked)) = waiters s
  /\ (Z.land (wrap_int32 (wrap_int32 (s - mutexLocked) + mutexLocked)) mutexLocked
      =? 0) = false.
Proof.
  masks. intros HL H.
  flag_cases s w r; rewrite is_set_low in HL by lia; try discriminate HL;
    rewrite shiftr_low in H by lia; crunch; repeat split; lia.
Qed.

(** The swap of [unlockSlow]. *)
Lemma wake_flags (s : Z) :
  locked s = false -> woken s = false -> starved s = false ->
  1 <= waiters s < 2 ^ 28 ->
  locked (Z.lor (wrap_int32 (s - Z.shiftl 1 mutexWaiterShift)) mutexWoken) = false
  /\ woken (Z.lor (wrap_int32 (s - Z.shiftl 1 mutexWaiterShift)) mutexWoken) = true
  /\ starved (Z.lor (wrap_int32 (s - Z.shiftl 1 mutexWaiterShift)) mutexWoken) = false
  /\ waiters (Z.lor (wrap_int32 (s - Z.shiftl 1 mutexWaiterShift)) mutexWoken)
     = waiters s - 1.
Proof.
  masks. intros HL HW HS H.
  flag_cases s w r; rewrite is_set_low in HL, HW, HS by lia;
    try discriminate HL; try discriminate HW; try discriminate HS;
    rewrite shiftr_low in H by lia; crunch; repeat split; lia.
Qed.

(** The add of the hand-off. *)
Lemma handoff_flags (s delta : Z) :
  delta = -7 \/ delta = -11 ->
  locked s = false -> starved s = true -> 1 <= waiters s < 2 ^ 28 ->
  locked (wrap_int32 (s + delta)) = true
  /\ woken (wrap_int32 (s + delta)) = woken s
  /\ starved (wrap_int32 (s + delta)) = (delta =? -7)
  /\ waiters (wrap_int32 (s + delta)) = waiters s - 1.
Proof.
  masks. intros Hd HL HS H.
  flag_cases s w r; rewrite is_set_low in HL, HS by lia;
    try discriminate HL; try discriminate HS;
    rewrite shiftr_low in H by lia; destruct Hd as [-> | ->];
    crunch; repeat split; lia.
Qed.

(** *** Counting the goroutines *)

Lemma tally_cons (kind : place -> Z) (t : place) (ts : list place) :
  tally kind (t :: ts) = kind t + tally kind ts.
Proof. reflexivity. Qed.

Lemma tally_insert (kind : place -> Z) (ts : list place) (i : nat) (t t' : place) :
  ts !! i = Some t ->
  tally kind (<[i := t']> ts) = tally kind ts - kind t + kind t'.
Proof.
  revert i. induction ts as [|x ts IH]; intros [|i] H; try discriminate H.
  - injection H as ->. change (<[0%nat := t']> (t :: ts)) with (t' :: ts).
    rewrite !tally_cons. lia.
  - change (<[S i := t']> (x :: ts)) with (x :: <[i := t']> ts).
    rewrite !tally_cons, (IH i H). lia.
Qed.

Lemma tally_bounds (kind : place -> Z) (ts : list place) :
  (forall t, 0 <= kind t <= 1) ->
  0 <= tally kind ts
  /\ forall i t, ts !! i = Some t -> kind t <= tally kind ts.
Proof.
  intros Hk. induction ts as [|x ts [IH0 IH]].
  - split; [cbn; lia|]. intros i t H. discriminate H.
  - rewrite tally_cons. pose proof (Hk x) as Hx. split; [lia|].
    intros [|i] t Hi.
    + injection Hi as ->. lia.
    + specialize (IH i t Hi). lia.
Qed.

Lemma kinds_range (t : place) :
  0 <= holding t <= 1 /\ 0 <= asleep t <= 1 /\ 0 <= roused t <= 1
  /\ 0 <= taking t <= 1 /\ 0 <= awake t <= 1 /\ 0 <= waking t <= 1
  /\ 0 <= handing t <= 1
  /\ 0 <= asleep t + roused t + taking t <= 1.
Proof.
  destruct t as [|p l|u]; [cbn; lia| |].
  - destruct p; cbn; destruct (awoke l); cbn; lia.
  - destruct u as [| | |[]|]; cbn; lia.
Qed.

(** A goroutine that is not queued leaves room for one more. *)
Lemma queued_bound (ts : list place) (i : nat) (t : place) :
  ts !! i = Some t ->
  tally asleep ts + tally roused ts + tally taking ts
  <= Z.of_nat (length ts) - 1 + (asleep t + roused t + taking t).
Proof.
  assert (B : forall ts,
             tally asleep ts + tally roused ts + tally taking ts
             <= Z.of_nat (length ts)).
  { clear. induction ts as [|x ts IH]; [cbn; lia|].
    rewrite !tally_cons. pose proof (kinds_range x).
    change (length (x :: ts)) with (S (length ts)). lia. }
  revert i. induction ts as [|x ts IH]; intros [|i] H; try discriminate H.
  - injection H as ->. rewrite !tally_cons.
    change (length (t :: ts)) with (S (length ts)).
    specialize (B ts). lia.
  - rewrite !tally_cons. change (length (x :: ts)) with (S (length ts)).
    specialize (IH i H). pose proof (kinds_range x). lia.
Qed.



Lemma wrap_uint32_small (x : Z) : 0 <= x < 2 ^ 32 -> wrap_uint32 x = x.
Proof. intros H. unfold wrap_uint32, wrap_unsigned. now apply Z.mod_small. Qed.

Lemma zero_flags :
  locked 0 = false /\ woken 0 = false /\ starved 0 = false /\ waiters 0 = 0.
Proof. repeat split. Qed.

Lemma one_flags :
  locked mutexLocked = true /\ woken mutexLocked = false
  /\ starved mutexLocked = false /\ waiters mutexLocked = 0.
Proof. repeat split. Qed.

(** *** Every step keeps the encoding *)

Ltac split_ifs H :=
  repeat match type of H with
         | context [if ?b then _ else _] => destruct b eqn:?
         end.

Ltac known_kinds :=
  cbn [holding asleep roused taking awake waking handing place_ok set_old
       awoke starving old iter waitStartTime Z.b2z] in *.

Ltac run_step H :=
  cbn -[wrap_int32 wrap_uint32 wrap_int Z.add Z.sub Z.mul Z.lor Z.land Z.ldiff
        Z.shiftr Z.shiftl Z.eqb Z.ltb prepare spins wants_woken mutexLocked
        mutexWoken mutexStarving mutexWaiterShift unlock_loop unlockSlow] in H.

(** Runs the step in [H] through all its branches. *)
Ltac enter H :=
  cbn [thread_step] in H; unfold step, next_action in H;
  repeat (run_step H; split_ifs H); try discriminate H;
  injection H as <- <-.

Ltac conditions :=
  repeat match goal with
         | H : (_ =? _) = true |- _ => apply Z.eqb_eq in H
         | H : (_ =? _) = false |- _ => apply Z.eqb_neq in H
         | H : (_ <? _) = true |- _ => apply Z.ltb_lt in H
         | H : (_ <? _) = false |- _ => apply Z.ltb_ge in H
         end.

Ltac flags_of s :=
  destruct (locked s) eqn:?, (woken s) eqn:?, (starved s) eqn:?.

Ltac arith :=
  cbn [Z.b2z negb andb orb] in *;
  repeat match goal with
         | H : true = true -> _ |- _ => specialize (H eq_refl)
         | H : false = true -> _ |- _ => clear H
         | H : _ /\ _ |- _ => destruct H
         end;
  try discriminate; try lia;
  repeat split; intros; try discriminate; try reflexivity; try assumption;
  try lia; auto; try (left; reflexivity); try (right; reflexivity).

Section Invariant.

Variable starvationThresholdNs : Z.

Local Abbreviation thread_step := (thread_step starvationThresholdNs).
Local Abbreviation sys_step := (sys_step starvationThresholdNs).
Local Abbreviation run := (run starvationThresholdNs).
Local Abbreviation reachable := (reachable starvationThresholdNs).
Local Abbreviation step := (step starvationThresholdNs).

(** A step of any goroutine, inside [Lock] or inside [Unlock], keeps the
    encoding. *)
Lemma thread_step_encoding o s k ts i t t' m' :
  Z.of_nat (length ts) < 2 ^ 28 ->
  encoding (mkSystem (mkMutex s k) ts) ->
  ts !! i = Some t ->
  thread_step o t (mkMutex s k) = Some (t', m') ->
  encoding (mkSystem m' (<[i := t']> ts)).
Proof.
  intros HN (Hw & Hk & Hok & Hhold & Hmode) Hi Hstep.
  cbn [mu threads state sema] in Hw, Hk, Hok, Hhold, Hmode.
  pose proof (proj1 (Forall_lookup place_ok ts) Hok i t Hi) as Hplace.
  destruct (tally_bounds holding ts ltac:(intros x; apply kinds_range)) as [N1 G1].
  destruct (tally_bounds asleep ts ltac:(intros x; apply kinds_range)) as [N2 G2].
  destruct (tally_bounds roused ts ltac:(intros x; apply kinds_range)) as [N3 G3].
  destruct (tally_bounds taking ts ltac:(intros x; apply kinds_range)) as [N4 G4].
  destruct (tally_bounds awake ts ltac:(intros x; apply kinds_range)) as [N5 G5].
  destruct (tally_bounds waking ts ltac:(intros x; apply kinds_range)) as [N6 G6].
  destruct (tally_bounds handing ts ltac:(intros x; apply kinds_range)) as [N7 G7].
  specialize (G1 i t Hi). specialize (G2 i t Hi). specialize (G3 i t Hi).
  specialize (G4 i t Hi). specialize (G5 i t Hi). specialize (G6 i t Hi).
  specialize (G7 i t Hi).
  pose proof (queued_bound ts i t Hi) as Hq.
  unfold encoding. cbn [mu threads].
  rewrite !(tally_insert _ ts i t t' Hi).
  cut (place_ok t'
       /\ 0 <= waiters (state m') /\ 0 <= sema m'
       /\ Z.b2z (locked (state m')) = tally holding ts - holding t + holding t'
       /\ (if starved (state m') then
             woken (state m') = false
             /\ tally awake ts - awake t + awake t' = 0
             /\ tally waking ts - waking t + waking t' = 0
             /\ sema m' + (tally roused ts - roused t + roused t')
                + (tally taking ts - taking t + taking t')
                + (tally handing ts - handing t + handing t')
                = 1 - Z.b2z (locked (state m'))
             /\ waiters (state m')
                = tally asleep ts - asleep t + asleep t'
                  + (tally roused ts - roused t + roused t')
                  + (tally taking ts - taking t + taking t')
           else
             Z.b2z (woken (state m'))
             = tally awake ts - awake t + awake t'
               + (tally waking ts - waking t + waking t') + sema m'
               + (tally roused ts - roused t + roused t')
             /\ tally taking ts - taking t + taking t' = 0
             /\ tally handing ts - handing t + handing t' = 0
             /\ waiters (state m')
                = tally asleep ts - asleep t + asleep t'
                  - (tally waking ts - waking t + waking t') - sema m')).
  { intros (P & A & B & C & D). split; [exact A|]. split; [exact B|].
    split; [now apply Forall_insert|]. split; [exact C|exact D]. }
  set (nH := tally holding ts) in *. set (nA := tally asleep ts) in *.
  set (nR := tally roused ts) in *. set (nT := tally taking ts) in *.
  set (nW := tally awake ts) in *. set (nU := tally waking ts) in *.
  set (nG := tally handing ts) in *.
  clearbody nH nA nR nT nW nU nG.
  set (N := Z.of_nat (length ts)) in *. clearbody N.
  clear Hok Hi.
  assert (Hk1 : k <= 1) by (flags_of s; arith).
  assert (Hw1 : waiters s <= N - 1 + (asleep t + roused t + taking t))
    by (flags_of s; arith).
  destruct t as [|p l|u].
  - (* an idle goroutine calls [Lock] *)
    injection Hstep as <- <-. known_kinds. cbn [state sema].
    flags_of s; arith.
  - destruct p.
    + (* the fast path *)
      enter Hstep; conditions; known_kinds; cbn [state sema]; try lia.
      * subst s. destruct one_flags as (-> & -> & -> & ->).
        destruct zero_flags as (L0 & W0 & S0 & C0).
        rewrite L0, W0, S0, C0 in *. arith.
      * flags_of s; arith.
    + (* [old := m.state] *)
      enter Hstep; conditions; known_kinds; cbn [state sema]; try lia.
      flags_of s; arith.
    + (* the loop head *)
      enter Hstep;
        rewrite ?spins_flags, ?wants_woken_flags, ?test_locked_starving in *;
        conditions; known_kinds; cbn [state sema];
        try match goal with H : _ = old _ |- _ => rewrite <- H in * end;
        try (destruct (spin_flags s) as (-> & -> & -> & ->));
        try (flags_of s; destruct (awoke l); arith; fail);
        match goal with
        | H : _ = old _ |- _ =>
            destruct (prepare_flags l) as (-> & -> & -> & ->);
            [ rewrite <- H; destruct (starved s); arith
            | rewrite <- H ]
        end;
        flags_of s; destruct (awoke l), (starving l); arith.
    + (* [runtime_doSpin()] *)
      enter Hstep; conditions; known_kinds; cbn [state sema]; try lia.
      flags_of s; destruct (awoke l); arith.
    + (* [iter++; old = m.state] *)
      enter Hstep; conditions; known_kinds; cbn [state sema]; try lia.
      flags_of s; destruct (awoke l); arith.
    + (* [old = m.state] after a failed swap *)
      enter Hstep; conditions; known_kinds; cbn [state sema]; try lia.
      flags_of s; destruct (awoke l); arith.
    + (* asleep on the semaphore *)
      enter Hstep; conditions; known_kinds; cbn [state sema].
      all: rewrite wrap_uint32_small by lia.
      all: flags_of s; arith.
    + (* woken: [old = m.state] *)
      enter Hstep; rewrite ?test_starving in *;
        conditions; known_kinds; cbn [state sema].
      all: flags_of s; arith.
    + (* the hand-off *)
      enter Hstep; conditions; known_kinds; cbn [state sema].
      assert (HS : starved s = true) by (destruct (starved s); arith).
      rewrite HS in Hmode.
      assert (HL : locked s = false) by (destruct (locked s); arith).
      destruct (handoff_flags s delta Hplace HL HS) as (-> & -> & -> & ->);
        [arith|].
      rewrite HL in *. destruct Hplace as [-> | ->].
      * change (-7 =? -7) with true. flags_of s; arith.
      * change (-11 =? -7) with false. flags_of s; arith.
    + (* [Lock] has returned: the goroutine calls [Unlock] *)
      injection Hstep as <- <-. known_kinds. cbn [state sema].
      flags_of s; arith.
  - destruct u as [|old0| |handoff|].
    + (* the add of [Unlock] *)
      assert (HL : locked s = true) by (known_kinds; destruct (locked s); arith).
      destruct (unlock_flags s HL) as (E1 & E2 & E3 & E4 & E5);
        [known_kinds; lia|].
      cbn [MutexProtocol.thread_step unlock_step state sema] in Hstep.
      unfold unlockSlow, unlock_loop in Hstep. rewrite E5 in Hstep.
      rewrite test_starving, test_any_flag in Hstep.
      rewrite (test_zero (wrap_int32 (s - mutexLocked))) in Hstep.
      fold (waiters (wrap_int32 (s - mutexLocked))) in Hstep.
      rewrite E1, E2, E3, E4 in Hstep.
      injection Hstep as <- <-. cbn [state sema]. rewrite E1, E2, E3, E4.
      destruct (Z.eqb_spec (waiters s) 0) as [W0|W0];
        flags_of s; cbn [negb andb orb] in *; known_kinds;
        rewrite ?E1, ?E2, ?E3, ?E4; arith.
    + (* the swap of [unlockSlow] *)
      cbn [MutexProtocol.thread_step unlock_step state sema] in Hstep.
      destruct (Z.eqb_spec s old0) as [<-|Hne]; injection Hstep as <- <-;
        known_kinds; cbn [state sema].
      * destruct Hplace as (HL & HW & HS & HC).
        destruct (wake_flags s HL HW HS) as (-> & -> & -> & ->); [lia|].
        rewrite HL, HW, HS in *. arith.
      * flags_of s; arith.
    + (* [old = m.state] after a failed swap *)
      cbn [MutexProtocol.thread_step unlock_step state sema] in Hstep.
      unfold unlock_loop in Hstep. rewrite test_any_flag in Hstep.
      fold (waiters s) in Hstep. injection Hstep as <- <-. cbn [state sema].
      destruct (Z.eqb_spec (waiters s) 0) as [W0|W0];
        flags_of s; cbn [negb andb orb] in *; known_kinds;
        repeat match goal with
               | H : ?f s = _ |- _ => rewrite H
               end; arith.
    + (* the release of the semaphore *)
      cbn [MutexProtocol.thread_step unlock_step state sema] in Hstep.
      injection Hstep as <- <-. cbn [state sema].
      rewrite wrap_uint32_small by lia.
      destruct handoff; known_kinds; flags_of s; arith.
    + (* nobody unlocks an unlocked mutex *)
      destruct Hplace.
Qed.

Lemma initial_encoding (n : nat) : encoding (initial n).
Proof.
  assert (Z : forall kind, kind Idle = 0 -> tally kind (replicate n Idle) = 0).
  { intros kind H. induction n as [|n IH]; [reflexivity|].
    change (replicate (S n) Idle) with (Idle :: replicate n Idle).
    rewrite tally_cons, H, IH. reflexivity. }
  unfold encoding, initial. cbn [mu threads state sema].
  destruct zero_flags as (-> & -> & -> & ->).
  rewrite !Z by reflexivity.
  repeat split; try reflexivity; try lia.
  apply Forall_forall. intros t Ht. apply elem_of_replicate in Ht as [-> _].
  exact I.
Qed.

Lemma sys_step_encoding (i : nat) (o : oracle) (σ σ' : system) :
  Z.of_nat (length (threads σ)) < 2 ^ 28 ->
  encoding σ ->
  sys_step i o σ = Some σ' ->
  encoding σ' /\ length (threads σ') = length (threads σ).
Proof.
  intros HN Henc Hstep. unfold MutexProtocol.sys_step in Hstep.
  destruct (threads σ !! i) as [t|] eqn:Hi; [|discriminate Hstep].
  destruct (thread_step o t (mu σ)) as [[t' m']|] eqn:Ht; [|discriminate Hstep].
  injection Hstep as <-. cbn [threads]. split; [|apply length_insert].
  destruct σ as [[s k] ts]. cbn [mu threads] in *.
  now apply (thread_step_encoding o s k ts i t t' m').
Qed.

Lemma run_encoding (sched : list (nat * oracle)) (σ σ' : system) :
  Z.of_nat (length (threads σ)) < 2 ^ 28 ->
  encoding σ ->
  run sched σ = Some σ' ->
  encoding σ' /\ length (threads σ') = length (threads σ).
Proof.
  revert σ. induction sched as [|[i o] sched IH]; intros σ HN Henc Hrun.
  - injection Hrun as <-. now split.
  - cbn [MutexProtocol.run] in Hrun.
    destruct (sys_step i o σ) as [σ1|] eqn:H1; [|discriminate Hrun].
    destruct (sys_step_encoding i o σ σ1 HN Henc H1) as [Henc1 Hlen1].
    destruct (IH σ1) as [Henc' Hlen']; [now rewrite Hlen1|exact Henc1|exact Hrun|].
    split; [exact Henc'|]. now rewrite Hlen', Hlen1.
Qed.

(** Every state that [n] goroutines reach keeps the encoding. *)
Lemma reachable_encoding (n : nat) (σ : system) :
  Z.of_nat n < 2 ^ 28 ->
  reachable n σ ->
  encoding σ /\ length (threads σ) = n.
Proof.
  intros HN [sched Hrun].
  assert (Hlen : length (threads (initial n)) = n) by apply length_replicate.
  destruct (run_encoding sched (initial n) σ) as [Henc Hl];
    [now rewrite Hlen|apply initial_encoding|exact Hrun|].
  split; [exact Henc|]. now rewrite Hl.
Qed.

(** C5.  Among fewer than [2^28] goroutines that use the mutex through
    [Lock] and [Unlock], every step a goroutine takes inside [Lock], from
    any state they can reach, keeps the encoding of the state word.  The
    three flags are the bits 1, 2 and 4 and the waiter count starts at
    bit 3.  The fast path swaps 0 for [mutexLocked] and returns, or
    leaves the mutex alone and enters [lockSlow].  A step leaves the
    state word alone, or changes it by a compare-and-swap that found the
    word equal to its [old], or by an atomic add.  Before and after the
    step the locked bit says whether a goroutine holds the mutex, the
    woken bit whether a wake-up is under way, the starving bit whether
    the mutex is handed over, and the bits above count the waiters, as
    [encoding] reads them against the goroutines.  And when the step is
    the last one of [Lock], on the fast path, after the swap in
    [lockSlow] or after the hand-off, the locked bit is set in the word
    it leaves. *)
Theorem Lock_keeps_encoding (n : nat) (σ : system) (i : nat) (o : oracle)
    (p : pc) (l : locals) (p' : pc) (l' : locals) (m' : Mutex) :
  Z.of_nat n < 2 ^ 28 ->
  reachable n σ ->
  threads σ !! i = Some (Locking p l) ->
  step o p l (mu σ) = Some (p', l', m') ->
  (mutexLocked = 1 /\ mutexWoken = 2 /\ mutexStarving = 4 /\ mutexWaiterShift = 3)
  /\ (p = FastPath ->
      if state (mu σ) =? 0
      then p' = Done /\ m' = mkMutex mutexLocked (sema (mu σ))
      else p' = SlowEntry /\ m' = mu σ)
  /\ (state m' = state (mu σ)
      \/ (exists new,
            next_action o p l = Some (CompareAndSwapInt32 (state (mu σ)) new)
            /\ state m' = new)
      \/ (exists delta,
            next_action o p l = Some (AddInt32 delta)
            /\ state m' = wrap_int32 (state (mu σ) + delta)))
  /\ encoding σ
  /\ encoding (mkSystem m' (<[i := Locking p' l']> (threads σ)))
  /\ (p' = Done -> locked (state m') = true).
Proof.
  intros HN Hreach Hi Hstep.
  destruct (reachable_encoding n σ HN Hreach) as [Henc Hlen].
  assert (Hthread : thread_step o (Locking p l) (mu σ) = Some (Locking p' l', m')).
  { destruct p; cbn [MutexProtocol.thread_step]; try (now rewrite Hstep).
    discriminate Hstep. }
  assert (Henc' : encoding (mkSystem m' (<[i := Locking p' l']> (threads σ)))).
  { destruct σ as [[s k] ts]. cbn [mu threads] in *.
    apply (thread_step_encoding o s k ts i (Locking p l) (Locking p' l') m');
      [lia|exact Henc|exact Hi|exact Hthread]. }
  split; [exact constants|].
  split; [|split; [|split; [exact Henc|split; [exact Henc'|]]]].
  - (* the fast path *)
    intros ->. clear Hthread Henc'. destruct σ as [[s k] ts].
    cbn in Hstep |- *.
    destruct (s =? 0); injection Hstep as <- _ <-; split; reflexivity.
  - (* the state word changes only by a swap or an add *)
    clear Hthread Henc'. unfold Mutex.step in Hstep.
    destruct (next_action o p l) as [a|] eqn:Ha; [|discriminate Hstep].
    destruct (perform a (mu σ)) as [[m1 v]|] eqn:Hp; [|discriminate Hstep].
    injection Hstep as _ ->.
    destruct a; simpl in Hp.
    + injection Hp as <- _. now left.
    + destruct (Z.eqb_spec (state (mu σ)) old0) as [E|E]; injection Hp as <- _.
      * right. left. exists new. subst old0. split; reflexivity.
      * now left.
    + injection Hp as <- _. right. right. exists delta. split; reflexivity.
    + destruct (0 <? sema (mu σ)); [|discriminate Hp]. injection Hp as <- _. now left.
    + injection Hp as <- _. now left.
  - (* the last step leaves the mutex locked *)
    intros ->. destruct Henc' as (_ & _ & _ & Hhold & _).
    cbn [mu threads state] in Hhold.
    destruct (tally_bounds holding (<[i := Locking Done l']> (threads σ))
                ltac:(intros x; apply kinds_range)) as [_ Hge].
    specialize (Hge i (Locking Done l')).
    rewrite list_lookup_insert_eq in Hge by (eapply lookup_lt_Some, Hi).
    specialize (Hge eq_refl). cbn [holding] in Hge.
    destruct (locked (state m')); [reflexivity|]. cbn [Z.b2z] in Hhold. lia.
Qed.

End Invariant.

(** [Lock_keeps_encoding] on the schedule of [handoff_schedule]: the
    second goroutine, asleep on a mutex it has turned starving, is woken
    with the state at 12 (starving, unlocked, one waiter), adds -11 and
    returns from [Lock] with the state at 1. *)
Lemma Lock_keeps_encoding_witness :
  run 10 handoff_schedule (initial 2)
  = Some (mkSystem (mkMutex 12 0) [Idle; Locking (Handoff (-11)) starved_locals])
  /\ step 10 late (Handoff (-11)) starved_locals (mkMutex 12 0)
     = Some (Done, starved_locals, mkMutex 1 0)
  /\ locked 1 = true.
Proof.
  split; [reflexivity|]. split; [reflexivity|].
  apply (proj2 (proj2 (proj2 (proj2 (proj2
           (Lock_keeps_encoding 10 2
              (mkSystem (mkMutex 12 0)
                 [Idle; Locking (Handoff (-11)) starved_locals])
              1 late (Handoff (-11)) starved_locals Done starved_locals
              (mkMutex 1 0) ltac:(simpl; lia)
              (ex_intro _ handoff_schedule eq_refl) eq_refl eq_refl)))))).
  reflexivity.
Defined.

End MutexProtocolFacts.

(** ** [schedule] *)

Module SchedFacts.
Import GoInt Sched.

Lemma every_61st (tick : Z) : (Z.rem tick 61 =? 0) = (tick mod 61 =? 0).
Proof.
  destruct (Z.eqb_spec (Z.rem tick 61) 0) as [E|E];
    destruct (Z.eqb_spec (tick mod 61) 0) as [E'|E']; try reflexivity; exfalso.
  - apply E'. apply Z.mod_divide; [lia|]. apply Z.rem_divide in E; [exact E|lia].
  - apply E. apply Z.rem_divide; [lia|]. apply Z.mod_divide in E'; [exact E'|lia].
Qed.

Section Facts.

Variable G : Type.
Variable Rest : Type.
Variable gcstopm : runtime Rest -> runtime Rest.
Variable globrunqget : Z -> runtime Rest -> option G * runtime Rest.
Variable runqget : runtime Rest -> option G * bool * runtime Rest.
Variable netpollinited : runtime Rest -> bool.
Variable netpoll : Z -> runtime Rest -> list G * runtime Rest.
Variable injectglist : list G -> runtime Rest -> runtime Rest.
Variable casgstatus : G -> runtime Rest -> runtime Rest.
Variable stopm : runtime Rest -> runtime Rest.
Variable stealWork :
  Z -> runtime Rest -> option G * bool * Z * Z * bool * runtime Rest.

Local Abbreviation findrunnable :=
  (findrunnable globrunqget runqget netpollinited netpoll injectglist casgstatus
     stopm stealWork).
Local Abbreviation schedule :=
  (schedule gcstopm globrunqget runqget netpollinited netpoll injectglist
     casgstatus stopm stealWork).
Local Abbreviation described_pick :=
  (described_pick globrunqget runqget netpollinited netpoll injectglist casgstatus
     stopm stealWork).

(** While a collection is pending, [schedule] stops for it and starts
    over. *)
Lemma schedule_gcwaiting (fuel : nat) (now : Z) (r : runtime Rest) :
  gcwaiting r <> 0 ->
  schedule (S fuel) now r = schedule fuel now (gc_round gcstopm r).
Proof.
  intros H. cbn [Sched.schedule]. cbn [gcwaiting set_preempt].
  destruct (Z.eqb_spec (gcwaiting r) 0) as [E|_]; [contradiction|]. reflexivity.
Qed.

(** With no collection pending, it picks in the described order. *)
Lemma schedule_picks (fuel : nat) (now : Z) (r : runtime Rest) :
  gcwaiting r = 0 ->
  schedule (S fuel) now r = described_pick (S fuel) now r.
Proof.
  intros H. cbn [Sched.schedule]. unfold Sched.described_pick.
  unfold globrunqget_locked, lock, unlock, set_sched_lock, set_preempt.
  cbn [gcwaiting schedtick runqsize preempt spinning nmspinning npidle lastpoll
       netpollWaiters gomaxprocs sched_lock rest].
  rewrite H. cbn [Z.eqb negb].
  rewrite every_61st.
  replace (bool_decide (@None G = None)) with true by reflexivity.
  cbn [andb].
  destruct ((schedtick r mod 61 =? 0) && (0 <? runqsize r)).
  - destruct (globrunqget 1 _) as [[gp|] r1].
    + reflexivity.
    + destruct (runqget _) as [[[gp|] inheritTime] r2]; reflexivity.
  - destruct (runqget _) as [[[gp|] inheritTime] r2]; reflexivity.
Qed.

(** After [n] collections it picks in the described order. *)
Lemma schedule_after_collections (n fuel : nat) (now : Z) (r : runtime Rest) :
  (forall k, (k < n)%nat -> gcwaiting (after_collections gcstopm k r) <> 0) ->
  gcwaiting (after_collections gcstopm n r) = 0 ->
  schedule (n + S fuel) now r
  = described_pick (S fuel) now (after_collections gcstopm n r).
Proof.
  revert r. induction n as [|n IH]; intros r Hpending Hdone.
  - now apply schedule_picks.
  - cbn [Nat.add]. rewrite schedule_gcwaiting by (apply (Hpending 0%nat); lia).
    cbn [after_collections]. apply IH; [|exact Hdone].
    intros k Hk. apply (Hpending (S k)). lia.
Qed.

(** While the collections do not end, it picks nothing. *)
Lemma schedule_collecting (fuel : nat) (now : Z) (r : runtime Rest) :
  (forall k, gcwaiting (after_collections gcstopm k r) <> 0) ->
  schedule fuel now r = None.
Proof.
  revert r. induction fuel as [|fuel IH]; intros r Hpending; [reflexivity|].
  rewrite schedule_gcwaiting by apply (Hpending 0%nat).
  apply IH. intros k. apply (Hpending (S k)).
Qed.

(** [findrunnable] gets to stealing: with nothing in the local queue, an
    empty global queue and nothing to poll, a goroutine that may spin
    returns what [stealWork] found. *)
Lemma findrunnable_steals (fuel : nat) (now : Z) (r r1 r2 : runtime Rest)
    (inheritTime0 inheritTime newWork : bool) (gp : G) (tnow w : Z) :
  runqget r = (None, inheritTime0, r1) ->
  runqsize r1 = 0 ->
  netpollinited r1 && (0 <? netpollWaiters r1) && negb (lastpoll r1 =? 0) = false ->
  may_spin r1 = true ->
  stealWork now (start_spinning r1) = (Some gp, inheritTime, tnow, w, newWork, r2) ->
  findrunnable (S fuel) now r = Some (Found (Some gp) inheritTime r2).
Proof.
  intros Hq Hg Hpoll Hspin Hsteal. cbn [Sched.findrunnable].
  rewrite Hq. cbn [bool_decide decide_rel]. rewrite Hg. cbn [Z.eqb negb].
  rewrite Hpoll, Hspin. fold (start_spinning r1). rewrite Hsteal.
  reflexivity.
Qed.

(** C6.  [schedule] stops for every pending collection and starts
    over, and once none is pending, after any number [n] of them, it
    picks the next goroutine in the described order: on every 61st tick
    with a non-empty global queue, one goroutine from the global queue,
    asked for while [sched.lock] is held and with the lock released
    afterwards; if none was taken, the local queue through [runqget]; if
    that is empty, [findrunnable]; and the goroutine obtained goes to
    [execute].  The fuel covers the [n] trips through [goto top] and the
    pick.  [findrunnable] in turn gets to [stealWork], and as long as
    collections stay pending nothing is picked. *)
Theorem schedule_order (n fuel : nat) (now : Z) (r : runtime Rest) :
  (forall k, (k < n)%nat -> gcwaiting (after_collections gcstopm k r) <> 0) ->
  gcwaiting (after_collections gcstopm n r) = 0 ->
  schedule (n + S fuel) now r
  = described_pick (S fuel) now (after_collections gcstopm n r)
  /\ (forall (r0 r1 r2 : runtime Rest) (inheritTime0 inheritTime newWork : bool)
        (gp : G) (tnow w : Z),
        runqget r0 = (None, inheritTime0, r1) ->
        runqsize r1 = 0 ->
        netpollinited r1 && (0 <? netpollWaiters r1) && negb (lastpoll r1 =? 0) = false ->
        may_spin r1 = true ->
        stealWork now (start_spinning r1) = (Some gp, inheritTime, tnow, w, newWork, r2) ->
        findrunnable (S fuel) now r0 = Some (Found (Some gp) inheritTime r2))
  /\ (forall (fuel0 : nat) (r0 : runtime Rest),
        (forall k, gcwaiting (after_collections gcstopm k r0) <> 0) ->
        schedule fuel0 now r0 = None).
Proof.
  intros Hpending Hdone. split; [|split].
  - now apply schedule_after_collections.
  - intros r0 r1 r2 inheritTime0 inheritTime newWork gp tnow w.
    apply findrunnable_steals.
  - intros fuel0 r0. apply schedule_collecting.
Qed.

End Facts.

(** [schedule_order] on the toy runtime, whose global queue answers only
    to the holder of [sched.lock]: at tick 122, after the two pending
    collections, the head of the global queue is picked although the
    local queue is not empty, and the lock is free again; at tick 123
    the local queue comes first; and with both queues empty the
    goroutine that [stealWork] finds is run. *)
Lemma schedule_order_witness :
  guarded_schedule 3 (collecting 2 122 [1; 2]%nat [3]%nat)
  = Some (Execute (Some 1%nat) false
            (mkRuntime false 122 false 0 1 0 0 0 0 4 false ([2]%nat, [3]%nat)))
  /\ guarded_schedule 1 (collecting 0 123 [1; 2]%nat [3]%nat)
     = Some (Execute (Some 3%nat) true
               (mkRuntime false 123 false 0 2 0 0 0 0 4 false ([1; 2]%nat, [])))
  /\ guarded_schedule 1 (collecting 0 123 [] [])
     = Some (Execute (Some 99%nat) false
               (mkRuntime false 123 true 0 0 1 0 0 0 4 false ([], []))).
Proof.
  unfold guarded_schedule.
  split; [|split].
  - refine (proj1 (schedule_order nat _ toy_gcstopm guarded_globrunqget toy_runqget
                     (fun _ => false) (fun _ r => ([], r)) (fun _ r => r)
                     (fun _ r => r) (fun r => r) toy_stealWork
                     2%nat 0%nat 0 (collecting 2 122 [1; 2]%nat [3]%nat) _ _)).
    + intros k Hk. assert (k = 0 \/ k = 1)%nat as [->| ->] by lia; discriminate.
    + reflexivity.
  - refine (proj1 (schedule_order nat _ toy_gcstopm guarded_globrunqget toy_runqget
                     (fun _ => false) (fun _ r => ([], r)) (fun _ r => r)
                     (fun _ r => r) (fun r => r) toy_stealWork
                     0%nat 0%nat 0 (collecting 0 123 [1; 2]%nat [3]%nat) _ _)).
    + intros k Hk. lia.
    + reflexivity.
  - refine (proj1 (schedule_order nat _ toy_gcstopm guarded_globrunqget toy_runqget
                     (fun _ => false) (fun _ r => ([], r)) (fun _ r => r)
                     (fun _ r => r) (fun r => r) toy_stealWork
                     0%nat 0%nat 0 (collecting 0 123 [] []) _ _)).
    + intros k Hk. lia.
    + reflexivity.
Defined.

End SchedFacts.

(** ** The file utility: open files, changes, output *)

Module FileUtilAuditFacts.
Import FileUtil FileUtilFacts FileUtilAudit.

Local Open Scope string_scope.

Lemma leaked_bind {W A B} (h : handler W) (p : Prog A) (f : A -> Prog B) (w : W)
    (held : list File) :
  leaked h (bind p f) w held
  = let '(a, w') := run h p w in leaked h (f a) w' (leaked h p w held).
Proof.
  revert w held. induction p as [a | X e k IH]; intros w held; simpl.
  - reflexivity.
  - destruct (h X e w) as [x w']. apply IH.
Qed.

Lemma remove_first_head (f : File) (held : list File) :
  remove_first f (f :: held) = held.
Proof. simpl. destruct (decide (f = f)); [reflexivity|contradiction]. Qed.

(** Printing opens nothing. *)
Lemma leaked_print_loop {W} (h : handler W) (files : list string) (w : W)
    (held : list File) :
  leaked h (foldr (fun file rest => fmt_Println file;; rest) (Ret tt) files) w held
  = held.
Proof.
  revert w. induction files as [| file files IH]; intros w; simpl.
  - reflexivity.
  - destruct (h unit _ w) as [[] w']. apply IH.
Qed.

Ltac answer h :=
  repeat (simpl;
          match goal with
          | |- context [h ?X ?e ?w] =>
              let x := fresh "x" in
              let w' := fresh "w" in
              destruct (h X e w) as [x w'];
              lazymatch type of x with
              | prod _ _ => destruct x as [? [?|]]
              | _ => idtac
              end
          end);
  repeat (simpl; case_decide; [|contradiction]); simpl.

Lemma createFile_closes {W} (h : handler W) (w : W) (path : string) (held : list File) :
  leaked h (createFile path) w held = held.
Proof. unfold createFile, trigger. answer h; reflexivity. Qed.

Lemma appendToFile_closes {W} (h : handler W) (w : W) (path content : string)
    (held : list File) :
  leaked h (appendToFile path content) w held = held.
Proof. unfold appendToFile, trigger. answer h; reflexivity. Qed.

Lemma copyFile_closes {W} (h : handler W) (w : W) (src dest : string)
    (held : list File) :
  leaked h (copyFile src dest) w held = held.
Proof. unfold copyFile, trigger. answer h; reflexivity. Qed.

Lemma report_opens_nothing {W} (h : handler W) (failure success : string)
    (err : error) (w : W) (held : list File) :
  leaked h (report failure success err) w held = held.
Proof. unfold report, fmt_Printf, trigger. destruct err; answer h; reflexivity. Qed.

(** X1.  Whatever the library answers, a run of the utility leaves open
    no file that it opened: every successful [os.Create], [os.Open] and
    [os.OpenFile] is followed by the [Close] of that file on every path
    through [createFile], [appendToFile] and [copyFile], and no other
    part of [main] opens anything. *)
Theorem no_file_left_open (W : Type) (h : handler W) (w : W) (held : list File) :
  (forall cmdFlags : CommandFlags, leaked h (main_with cmdFlags) w held = held)
  /\ (forall args : list string, leaked h (main args) w held = held).
Proof.
  assert (M : forall (cmdFlags : CommandFlags) (w : W),
            leaked h (main_with cmdFlags) w held = held).
  { intros cmdFlags w0. rewrite main_with_dispatch.
    destruct (selected cmdFlags) as [op|].
    2:{ unfold printHelp, fmt_Println, trigger. answer h. reflexivity. }
    destruct (required_missing op cmdFlags).
    { unfold fmt_Println, trigger. answer h. reflexivity. }
    destruct op; cbn [helperOf call_helper];
      change (@mbind Prog _) with (fun A B f p => @bind A B p f); cbn beta;
      rewrite leaked_bind.
    - destruct (run h _ w0) as [err w1] eqn:E.
      rewrite report_opens_nothing. now rewrite createFile_closes.
    - destruct (run h _ w0) as [[content err] w1] eqn:E.
      rewrite report_opens_nothing.
      unfold readFile, trigger. answer h; reflexivity.
    - destruct (run h _ w0) as [err w1] eqn:E.
      rewrite report_opens_nothing. unfold writeFile, trigger. answer h; reflexivity.
    - destruct (run h _ w0) as [err w1] eqn:E.
      rewrite report_opens_nothing. now rewrite appendToFile_closes.
    - destruct (run h _ w0) as [err w1] eqn:E.
      rewrite report_opens_nothing. now rewrite copyFile_closes.
    - destruct (run h _ w0) as [err w1] eqn:E.
      rewrite report_opens_nothing. unfold deleteFile, trigger. answer h; reflexivity.
    - destruct (run h _ w0) as [[files err] w1] eqn:E.
      assert (L : leaked h (listFiles (Path cmdFlags)) w0 held = held).
      { unfold listFiles, trigger. answer h; reflexivity. }
      rewrite L. destruct err; simpl.
      + unfold fmt_Printf, trigger. answer h. reflexivity.
      + destruct (h unit _ w1) as [[] w2]. apply leaked_print_loop.
    - destruct (run h _ w0) as [err w1] eqn:E.
      rewrite report_opens_nothing. unfold renameFile, trigger. answer h; reflexivity. }
  split; [intros cmdFlags; apply M|].
  intros args. unfold main.
  destruct (parseFlags args) as [f rest | f rest | msg |].
  - change (leaked h (bind (main_with f) (fun _ => Ret 0%Z)) w held = held).
    rewrite leaked_bind. destruct (run h (main_with f) w). simpl. apply M.
  - change (leaked h (bind (main_with f) (fun _ => Ret 0%Z)) w held = held).
    rewrite leaked_bind. destruct (run h (main_with f) w). simpl. apply M.
  - simpl. now destruct (h unit _ w).
  - reflexivity.
Qed.

Lemma calls_print_loop {W} (h : handler W) (files : list string) (w : W) :
  calls h (foldr (fun file rest => fmt_Println file;; rest) (Ret tt) files) w
  = map (fun file => Call (Stdout (file ++ newline))) files.
Proof.
  revert w. induction files as [| file files IH]; intros w; simpl.
  - reflexivity.
  - destruct (h unit _ w) as [[] w']. simpl. f_equal. apply IH.
Qed.

(** The calls of the list case once its guard has passed. *)
Lemma list_calls {W} (h : handler W) (w : W) (path : string) :
  calls h (call_helper (listFiles_ path)) w
  = (let '(entries, err, w1) := h _ (os_ReadDir path) w in
     Call (os_ReadDir path)
     :: (if is_nil err then listing entries
         else [Call (Stdout ("Error listing files: " ++ error_text err ++ newline))])).
Proof.
  unfold call_helper, listFiles, trigger. simpl.
  destruct (h _ (os_ReadDir path) w) as [[entries [e|]] w1]; simpl.
  - unfold fmt_Printf, trigger. simpl. now destruct (h unit _ w1).
  - destruct (h unit _ w1) as [[] w2]. unfold listing. do 2 f_equal.
    etransitivity; [apply (calls_print_loop h _ w2)|].
    rewrite listFiles_loop. simpl. now rewrite map_map.
Qed.

(** X2.  Reading and listing change nothing: when [main] shows the usage
    text, reads a file or lists a directory, no call that can change the
    file system is made, whatever the library answers. *)
Theorem reading_changes_nothing (W : Type) (h : handler W) (w : W)
    (cmdFlags : CommandFlags) :
  selected cmdFlags = None \/ selected cmdFlags = Some OpRead
  \/ selected cmdFlags = Some OpList ->
  existsb mutating (calls h (main_with cmdFlags) w) = false.
Proof.
  intros Hsel. rewrite main_with_dispatch.
  destruct Hsel as [-> | [-> | ->]].
  - unfold printHelp, fmt_Println, trigger. simpl. now destruct (h unit _ w).
  - destruct (required_missing OpRead cmdFlags).
    + unfold fmt_Println, trigger. simpl. now destruct (h unit _ w).
    + unfold helperOf, call_helper, readFile, report, fmt_Printf, trigger.
      answer h; reflexivity.
  - destruct (required_missing OpList cmdFlags).
    + unfold fmt_Println, trigger. simpl. now destruct (h unit _ w).
    + cbn [helperOf]. rewrite list_calls.
      destruct (h _ (os_ReadDir (Path cmdFlags)) w) as [[entries [e|]] w1];
        [reflexivity|].
      simpl. induction entries as [| entry entries IH]; [reflexivity|exact IH].
Qed.

(** [reading_changes_nothing] for [-read -path notes.txt] on a file
    system that holds no such file. *)
Lemma reading_changes_nothing_witness :
  existsb mutating
    (calls memfs (main_with (set_Path "notes.txt" (set_Read true zeroFlags))) emptyFS)
  = false.
Proof.
  apply (reading_changes_nothing MemFS memfs emptyFS
           (set_Path "notes.txt" (set_Read true zeroFlags))).
  right. left. reflexivity.
Defined.

(** X3.  A successful listing reads the directory once and prints the
    header followed by one line per entry, in the order [os.ReadDir] gave
    them, directories with a slash appended. *)
Theorem listing_prints_entries (W : Type) (h : handler W) (w w1 : W)
    (cmdFlags : CommandFlags) (entries : list DirEntry) :
  selected cmdFlags = Some OpList ->
  Path cmdFlags <> "" ->
  h _ (os_ReadDir (Path cmdFlags)) w = (entries, nil, w1) ->
  calls h (main_with cmdFlags) w
  = Call (os_ReadDir (Path cmdFlags)) :: listing entries.
Proof.
  intros Hsel Hpath Hdir. rewrite main_with_dispatch, Hsel.
  cbn [required_missing helperOf].
  destruct (String.eqb_spec (Path cmdFlags) "") as [E|_]; [contradiction|].
  now rewrite list_calls, Hdir.
Qed.

(** [listing_prints_entries] for [-list -path docs] on a directory with
    a file and a subdirectory. *)
Lemma listing_prints_entries_witness :
  calls memfs (main_with (set_Path "docs" (set_List true zeroFlags))) docsFS
  = [Call (os_ReadDir "docs");
     Call (Stdout ("Files in directory:" ++ newline));
     Call (Stdout ("sub/" ++ newline));
     Call (Stdout ("todo.txt" ++ newline))].
Proof.
  apply (listing_prints_entries MemFS memfs docsFS docsFS
           (set_Path "docs" (set_List true zeroFlags))
           [mkDirEntry "sub" true; mkDirEntry "todo.txt" false]).
  - reflexivity.
  - discriminate.
  - vm_compute. reflexivity.
Defined.

(** X4.  An argument its operation does not use has no effect: [-content]
    matters only to write and append (in particular a created file is
    always empty, whatever [-content] says), and [-dest] only to copy and
    rename. *)
Theorem unused_arguments (cmdFlags : CommandFlags) (content dest : string) :
  (selected cmdFlags <> Some OpWrite -> selected cmdFlags <> Some OpAppend ->
   main_with (set_Content content cmdFlags) = main_with cmdFlags)
  /\ (selected cmdFlags <> Some OpCopy -> selected cmdFlags <> Some OpRename ->
      main_with (set_Dest dest cmdFlags) = main_with cmdFlags).
Proof.
  split; intros H1 H2; rewrite !main_with_dispatch.
  - change (selected (set_Content content cmdFlags)) with (selected cmdFlags).
    destruct (selected cmdFlags) as [[]|]; try reflexivity; contradiction.
  - change (selected (set_Dest dest cmdFlags)) with (selected cmdFlags).
    destruct (selected cmdFlags) as [[]|]; try reflexivity; contradiction.
Qed.

(** [unused_arguments] for [-create -path a.txt]: adding [-content] makes
    no difference. *)
Lemma unused_arguments_witness :
  main_with (set_Content "Hello, World!" (set_Path "a.txt" (set_Create true zeroFlags)))
  = main_with (set_Path "a.txt" (set_Create true zeroFlags)).
Proof.
  apply (proj1 (unused_arguments (set_Path "a.txt" (set_Create true zeroFlags))
                  "Hello, World!" "")); discriminate.
Defined.

End FileUtilAuditFacts.

(** ** [calcRemainderAndMod] *)

Module BasisDemoFacts.
Import GoInt GoIntFacts BasisDemo.

(** The quotient fits [int] except for [minInt / -1]. *)
Lemma quot_in_range (n d : Z) :
  is_int n -> d <> 0 -> ~ (n = minInt /\ d = -1) -> is_int (Z.quot n d).
Proof.
  unfold is_int, minInt, maxInt. intros Hn Hd Hex.
  pose proof (Z.quot_rem' n d) as QR.
  pose proof (Z.rem_bound_abs n d Hd) as RB.
  assert (S1 : 0 <= n -> 0 <= Z.rem n d) by (intros; apply Z.rem_nonneg; assumption).
  assert (S2 : n <= 0 -> Z.rem n d <= 0) by (intros; apply Z.rem_nonpos; assumption).
  set (q := Z.quot n d) in *. set (r := Z.rem n d) in *.
  clearbody q r.
  change (2 ^ 63) with 9223372036854775808 in *.
  assert (d <= -2 \/ d = -1 \/ d >= 1) as [D|[D|D]] by lia;
    assert (n <= 0 \/ 0 <= n) as [N|N] by lia;
    try specialize (S1 N); try specialize (S2 N); nia.
Qed.

(** X6.  For [int] arguments: a zero denominator gives zeros and the
    error "denominator is 0", and nothing else gives an error; otherwise
    the two results are an [int] quotient and the remainder with
    [numerator = quotient * denominator + remainder], the remainder
    smaller in size than the denominator and of the numerator's sign.
    The one exception to the equation is [minInt / -1], whose quotient
    wraps to [minInt]; there it still holds modulo [2^64]. *)
Theorem calcRemainderAndMod_spec (numerator denominator : Z) :
  is_int numerator -> is_int denominator ->
  (denominator = 0 ->
   calcRemainderAndMod numerator denominator = (0, 0, errors_New "denominator is 0"))
  /\ (denominator <> 0 ->
      exists q r,
        calcRemainderAndMod numerator denominator = (q, r, nil)
        /\ is_int q
        /\ Z.abs r < Z.abs denominator
        /\ (0 <= numerator -> 0 <= r) /\ (numerator <= 0 -> r <= 0)
        /\ wrap_int (q * denominator + r) = numerator
        /\ (~ (numerator = minInt /\ denominator = -1) ->
            q * denominator + r = numerator))
  /\ (numerator = minInt -> denominator = -1 ->
      calcRemainderAndMod numerator denominator = (minInt, 0, nil)).
Proof.
  intros Hn Hd. split; [|split].
  - intros ->. reflexivity.
  - intros Hnz. unfold calcRemainderAndMod.
    destruct (Z.eqb_spec denominator 0) as [E|_]; [contradiction|].
    exists (go_div numerator denominator), (go_mod numerator denominator).
    unfold go_div, go_mod.
    pose proof (Z.quot_rem' numerator denominator) as QR.
    split; [reflexivity|]. split; [apply wrap_int_range|].
    split; [now apply Z.rem_bound_abs|].
    split; [intros H; now apply Z.rem_nonneg|].
    split; [intros H; now apply Z.rem_nonpos|].
    destruct (Z.eq_dec numerator minInt) as [En|En];
      [destruct (Z.eq_dec denominator (-1)) as [Ed|Ed]|].
    + subst. split; [reflexivity|]. intros H. exfalso. apply H. split; reflexivity.
    + rewrite (wrap_int_small (Z.quot _ _)) by (apply quot_in_range; tauto).
      rewrite Z.mul_comm, <- QR. split; [now apply wrap_int_small|reflexivity].
    + rewrite (wrap_int_small (Z.quot _ _)) by (apply quot_in_range; tauto).
      rewrite Z.mul_comm, <- QR. split; [now apply wrap_int_small|reflexivity].
  - intros -> ->. reflexivity.
Qed.

(** [calcRemainderAndMod_spec] at [-7] and [2]: quotient [-3], remainder
    [-1]. *)
Lemma calcRemainderAndMod_spec_witness :
  exists q r,
    calcRemainderAndMod (-7) 2 = (q, r, nil) /\ q * 2 + r = -7 /\ r <= 0.
Proof.
  assert (I1 : is_int (-7)) by (unfold is_int, minInt, maxInt; lia).
  assert (I2 : is_int 2) by (unfold is_int, minInt, maxInt; lia).
  destruct (proj1 (proj2 (calcRemainderAndMod_spec (-7) 2 I1 I2)) ltac:(lia))
    as (q & r & E & _ & _ & _ & Hneg & _ & Heq).
  exists q, r. split; [exact E|]. split.
  - apply Heq. intros [H _]. unfold minInt in H. lia.
  - apply Hneg. lia.
Defined.

End BasisDemoFacts.

(** ** Submitting tasks to the pool *)

Module PoolSubmitFacts.
Import GoInt GoroutinePool PoolSubmit.

Section Facts.

Context {F C : Type}.

Implicit Types (ctx : Context) (task : option (Task F C)) (s : state F C).

Lemma accepted_task task s :
  accepted task s ->
  exists t, task = Some t /\ Fn t <> None
            /\ (closed (pool s) =? 1) = false
            /\ task ≫= (fun t => Fn t ≫= (fun _ => Some t)) = Some t.
Proof.
  intros [Hc (t & -> & Hfn)]. exists t. repeat split; try assumption.
  - now apply Z.eqb_neq.
  - simpl. destruct (Fn t); [reflexivity | contradiction].
Qed.

Lemma rejected_task task s :
  ~ accepted task s ->
  closed (pool s) = 1 \/ task ≫= (fun t => Fn t ≫= (fun _ => Some t)) = None.
Proof.
  intros Hn. destruct (Z.eq_dec (closed (pool s)) 1) as [|Hc]; [now left|right].
  destruct task as [t|]; [|reflexivity]. simpl.
  destruct (Fn t) eqn:Hfn; [|reflexivity].
  exfalso. apply Hn. split; [assumption|]. exists t. split; [reflexivity|congruence].
Qed.

(** What the [select] of an accepted submission can give. *)
Lemma select_cases ctx t s r :
  In r (SubmitWithContext ctx (Some t) s) ->
  Fn t <> None -> closed (pool s) <> 1 ->
  (r = Returned nil (send t (count_task s)) /\ send_ready (count_task s) = true)
  \/ (r = Returned (Err ctx) (count_task s) /\ done ctx = true)
  \/ (r = Returned (errors_New "pool is shutting down") (count_task s)
      /\ quit_closed s = true)
  \/ (r = Blocked (count_task s) /\ send_ready (count_task s) = false
      /\ done ctx = false /\ quit_closed s = false).
Proof.
  intros Hin Hfn Hc. unfold SubmitWithContext in Hin.
  apply Z.eqb_neq in Hc. rewrite Hc in Hin. simpl in Hin.
  destruct (Fn t); [|contradiction]. simpl in Hin.
  destruct (send_ready (count_task s)), (done ctx), (quit_closed s);
    simpl in Hin; intuition (subst; auto).
Qed.

Lemma send_ready_count s : send_ready (count_task s) = send_ready s.
Proof. reflexivity. Qed.

(** X7.  [totalTasks] counts the submissions that pass the two checks,
    not the tasks that reach the queue: every such submission leaves the
    counter one higher (modulo 2^64) and the rest of the pool value as it
    was, whether it then returns nil, returns the context's or the
    shutdown error, or blocks.  A submission to a closed pool returns
    "pool is closed", and one of a nil task or a task with a nil [Fn] to an
    open pool returns "task or task function cannot be nil"; both leave
    the pool and its queue untouched. *)
Theorem submissions_counted ctx task s r :
  In r (SubmitWithContext ctx task s) ->
  (accepted task s ->
     let p := pool s in
     pool (state_of r) =
       mkPool (minWorkers p) (maxWorkers p) (keepAlive p) (queueSize p)
         (currentWorkers p) (idleWorkers p) (runningTasks p)
         (wrap_uint (totalTasks p + 1)) (completedTasks p) (failedTasks p)
         (taskQueue p) (workerQueue p) (quit p) (closed p))
  /\ (closed (pool s) = 1 -> r = Returned (errors_New "pool is closed") s)
  /\ (closed (pool s) <> 1 ->
      task = None \/ (exists t, task = Some t /\ Fn t = None) ->
      r = Returned (errors_New "task or task function cannot be nil") s).
Proof.
  intros Hin. split; [|split].
  - intros Hacc. destruct (accepted_task _ _ Hacc) as (t & -> & Hfn & Hc & _).
    apply Z.eqb_neq in Hc.
    destruct (select_cases _ _ _ _ Hin Hfn Hc)
      as [[-> _]|[[-> _]|[[-> _]|[-> _]]]]; simpl; try reflexivity.
    unfold send. simpl. destruct (receivers s); reflexivity.
  - intros Hc. unfold SubmitWithContext in Hin.
    apply Z.eqb_eq in Hc. rewrite Hc in Hin. simpl in Hin. intuition.
  - intros Hc Hnil. unfold SubmitWithContext in Hin.
    apply Z.eqb_neq in Hc. rewrite Hc in Hin.
    assert (task ≫= (fun t => Fn t ≫= (fun _ => Some t)) = None) as Hrej.
    { destruct Hnil as [->|(t & -> & Hfn)]; simpl; [reflexivity|].
      now rewrite Hfn. }
    rewrite Hrej in Hin. simpl in Hin. intuition.
Qed.

(** X8.  With a context that reports an error once it is done, a nil
    error from [SubmitWithContext] means the task has been sent: it sits
    at the tail of the task queue, which stays within its capacity and
    keeps the earlier tasks in order, or it went to a goroutine that was
    waiting to receive.  Every other result, blocking included, leaves
    the queue, the receivers and the tasks handed over as they were. *)
Theorem nil_means_queued ctx task s r :
  (done ctx = true -> Err ctx <> nil) ->
  In r (SubmitWithContext ctx task s) ->
  (r = Returned nil (state_of r) ->
     exists t, task = Some t /\ Fn t <> None /\
       ((receivers s = O /\ receivers (state_of r) = O
         /\ queued (state_of r) = queued s ++ [t]
         /\ handed (state_of r) = handed s
         /\ Z.of_nat (length (queued (state_of r)))
            <= capacity (taskQueue (pool (state_of r))))
        \/ (receivers s = S (receivers (state_of r))
            /\ handed (state_of r) = handed s ++ [t]
            /\ queued (state_of r) = queued s)))
  /\ (r <> Returned nil (state_of r) ->
      queued (state_of r) = queued s
      /\ handed (state_of r) = handed s
      /\ receivers (state_of r) = receivers s).
Proof.
  intros Hctx Hin.
  destruct (Z.eq_dec (closed (pool s)) 1) as [Hc|Hc].
  { unfold SubmitWithContext in Hin. apply Z.eqb_eq in Hc.
    rewrite Hc in Hin. simpl in Hin.
    destruct Hin as [<-|[]]. split; [discriminate | intros _; auto]. }
  destruct (task ≫= (fun t => Fn t ≫= (fun _ => Some t))) as [t'|] eqn:Htask.
  2:{ unfold SubmitWithContext in Hin. apply Z.eqb_neq in Hc.
      rewrite Hc, Htask in Hin. simpl in Hin.
      destruct Hin as [<-|[]]. split; [discriminate | intros _; auto]. }
  destruct task as [t|]; [|discriminate]. simpl in Htask.
  destruct (Fn t) as [fn|] eqn:Hfn; [|discriminate].
  assert (Fn t <> None) as Hfn' by congruence.
  destruct (select_cases _ _ _ _ Hin Hfn' Hc)
    as [[-> Hr]|[[-> Hd]|[[-> _]|[-> _]]]]; simpl.
  - split; [|intros Hne; now contradiction Hne].
    intros _. exists t. split; [reflexivity|]. split; [assumption|].
    rewrite send_ready_count in Hr. unfold send_ready in Hr.
    unfold send. simpl. destruct (receivers s) as [|n] eqn:Hrecv; simpl.
    + left. simpl in Hr. apply Z.ltb_lt in Hr.
      repeat split. rewrite length_app. simpl. lia.
    + right. auto.
  - split; [|intros _; auto].
    intros Heq. exfalso. apply (Hctx Hd). congruence.
  - split; [discriminate | intros _; auto].
  - split; [discriminate | intros _; auto].
Qed.

(** X9.  [Submit], which passes the background context, never returns a
    context error.  For a task that passes the checks: with the queue full
    and no receiver waiting it blocks while [quit] is open (back
    pressure) and returns "pool is shutting down" once [quit] is closed;
    with room in the queue (or a receiver) it returns nil while [quit] is
    open, and once [quit] is closed both results are possible, so a task
    can still be accepted by a pool that is shutting down. *)
Theorem Submit_outcomes task s t :
  task = Some t -> Fn t <> None -> closed (pool s) <> 1 ->
  let shutting_down :=
    Returned (errors_New "pool is shutting down") (count_task s) in
  let sent := Returned nil (send t (count_task s)) in
  (send_ready s = false -> quit_closed s = false ->
   Submit task s = [Blocked (count_task s)])
  /\ (send_ready s = false -> quit_closed s = true ->
      Submit task s = [shutting_down])
  /\ (send_ready s = true -> quit_closed s = false -> Submit task s = [sent])
  /\ (send_ready s = true -> quit_closed s = true ->
      Submit task s = [sent; shutting_down]).
Proof.
  intros -> Hfn Hc. apply Z.eqb_neq in Hc.
  unfold Submit, SubmitWithContext. rewrite Hc. simpl.
  destruct (Fn t); [|contradiction]. simpl.
  rewrite send_ready_count.
  repeat split; intros -> ->; reflexivity.
Qed.

End Facts.

Lemma submissions_counted_witness :
  let s := mkState (small_pool 0) [job 1] O [] true in
  let r := Returned (errors_New "pool is shutting down") (count_task s) in
  In r (SubmitWithContext (mkContext false nil) (Some (job 2)) s)
  /\ totalTasks (pool (state_of r)) = 1
  /\ queued (state_of r) = [job 1].
Proof.
  set (s := mkState (small_pool 0) [job 1] O [] true).
  set (r := Returned (errors_New "pool is shutting down") (count_task s)).
  assert (In r (SubmitWithContext (mkContext false nil) (Some (job 2)) s)) as Hin.
  { simpl. right. left. reflexivity. }
  assert (accepted (Some (job 2)) s) as Hacc.
  { split; [discriminate|]. exists (job 2). split; [reflexivity|discriminate]. }
  split; [exact Hin|]. split; [|reflexivity].
  pose proof (proj1 (submissions_counted _ _ _ _ Hin) Hacc) as H.
  exact (f_equal totalTasks H).
Defined.

Lemma nil_means_queued_witness :
  let s := mkState (small_pool 0) [job 1] O [] false in
  let r := Returned nil (send (job 2) (count_task s)) in
  In r (SubmitWithContext (mkContext true (errors_New "context canceled"))
          (Some (job 2)) s)
  /\ exists t, Some (job 2) = Some t /\ Fn t <> None /\
       ((receivers s = O /\ receivers (state_of r) = O
         /\ queued (state_of r) = queued s ++ [t]
         /\ handed (state_of r) = handed s
         /\ Z.of_nat (length (queued (state_of r)))
            <= capacity (taskQueue (pool (state_of r))))
        \/ (receivers s = S (receivers (state_of r))
            /\ handed (state_of r) = handed s ++ [t]
            /\ queued (state_of r) = queued s)).
Proof.
  set (s := mkState (small_pool 0) [job 1] O [] false).
  set (r := Returned nil (send (job 2) (count_task s))).
  assert (In r (SubmitWithContext
                  (mkContext true (errors_New "context canceled"))
                  (Some (job 2)) s)) as Hin.
  { simpl. left. reflexivity. }
  split; [exact Hin|].
  refine (proj1 (nil_means_queued _ _ _ _ _ Hin) eq_refl).
  simpl. discriminate.
Defined.

Lemma Submit_outcomes_witness :
  let s := mkState (small_pool 0) [job 1] O [] true in
  Submit (Some (job 2)) s =
    [Returned nil (send (job 2) (count_task s));
     Returned (errors_New "pool is shutting down") (count_task s)].
Proof.
  intros s.
  refine (proj2 (proj2 (proj2
    (Submit_outcomes (Some (job 2)) s (job 2) eq_refl _ _))) eq_refl eq_refl);
    discriminate.
Defined.

End PoolSubmitFacts.

(** ** [NewPool]: what it checks and what it stores *)

Module NewPoolFacts.
Import GoInt GoIntFacts GoroutinePool GoroutinePoolFacts.

Section Facts.

Variable NumCPU : Z.
Variable World : Type.
Variable createWorker : Pool * World -> Pool * World.
Variable go_dispatcher : Pool -> World -> World.

Local Abbreviation NewPool := (NewPool NumCPU World createWorker go_dispatcher).

Lemma iter_keeps_field {A : Type} (field : Pool -> A) (n : nat) (pw : Pool * World) :
  (forall pw, field (fst (createWorker pw)) = field (fst pw)) ->
  field (fst (Nat.iter n createWorker pw)) = field (fst pw).
Proof.
  intros Hkeep. induction n as [| n IH]; [reflexivity|].
  simpl. now rewrite Hkeep.
Qed.

(** X10.  [NewPool] starts nothing unless it succeeds.  Either it returns
    a pool with a nil error, or the world is as it was before the call (no
    worker created, no dispatcher started) and the call returned a nil
    pool with one of its two errors, or panicked in [make].  The queue
    size is not validated: with valid worker counts a negative [QueueSize]
    is not reported as an error but panics. *)
Theorem NewPool_all_or_nothing (config : option Config) (w : World) :
  let cfg := effective NumCPU config in
  ((exists pool, fst (NewPool config w) = Returns (Some pool, nil))
   \/ (snd (NewPool config w) = w
       /\ (fst (NewPool config w)
           = Returns (None, errors_New "workers count must be positive")
           \/ fst (NewPool config w)
              = Returns (None,
                         errors_New "minWorkers cannot be greater than maxWorkers")
           \/ fst (NewPool config w) = Panics "makechan: size out of range")))
  /\ (0 < MinWorkers cfg <= MaxWorkers cfg -> QueueSize cfg < 0 ->
      NewPool config w = (Panics "makechan: size out of range", w)).
Proof.
  intros cfg. unfold GoroutinePool.NewPool.
  fold (effective NumCPU config). fold cfg. split.
  - destruct ((MinWorkers cfg <=? 0) || (MaxWorkers cfg <=? 0));
      [right; simpl; auto|].
    destruct (MinWorkers cfg >? MaxWorkers cfg); [right; simpl; auto|].
    unfold make_chan.
    destruct ((QueueSize cfg <? 0) || _); [right; simpl; auto|].
    destruct ((MaxWorkers cfg <? 0) || _); [right; simpl; auto|].
    simpl. destruct (startWorkers _ _ _ _ _ _) as [pool w1].
    left. exists pool. reflexivity.
  - intros [H1 H2] Hq.
    replace (MinWorkers cfg <=? 0) with false by (symmetry; apply Z.leb_gt; lia).
    replace (MaxWorkers cfg <=? 0) with false by (symmetry; apply Z.leb_gt; lia).
    replace (MinWorkers cfg >? MaxWorkers cfg) with false
      by (symmetry; rewrite Z.gtb_ltb; apply Z.ltb_ge; lia).
    unfold make_chan.
    replace (QueueSize cfg <? 0) with true by (symmetry; apply Z.ltb_lt; lia).
    reflexivity.
Qed.

(** X11.  The pool keeps its worker bounds as [int32].  With a
    [createWorker] that leaves the two bounds alone, a pool that [NewPool]
    returns has [minWorkers] and [maxWorkers] equal to the configured
    values, with [0 < minWorkers <= maxWorkers], when [MaxWorkers] is below
    [2^31]; for a [MaxWorkers] from [2^31] up to [2^32 - 1], which passes
    the checks, the stored [maxWorkers] is [MaxWorkers - 2^32], a negative
    number below [minWorkers]' configured value. *)
Theorem NewPool_bounds (config : option Config) (w w' : World) (pool : Pool) :
  (forall pw, minWorkers (fst (createWorker pw)) = minWorkers (fst pw)) ->
  (forall pw, maxWorkers (fst (createWorker pw)) = maxWorkers (fst pw)) ->
  is_int (MinWorkers (effective NumCPU config)) ->
  NewPool config w = (Returns (Some pool, nil), w') ->
  let cfg := effective NumCPU config in
  (MaxWorkers cfg < 2 ^ 31 ->
   minWorkers pool = MinWorkers cfg /\ maxWorkers pool = MaxWorkers cfg
   /\ 0 < minWorkers pool <= maxWorkers pool)
  /\ (2 ^ 31 <= MaxWorkers cfg < 2 ^ 32 ->
      maxWorkers pool = MaxWorkers cfg - 2 ^ 32
      /\ maxWorkers pool < 0 < MinWorkers cfg).
Proof.
  intros Kmin Kmax Hint Hret cfg.
  unfold GoroutinePool.NewPool in Hret. fold (effective NumCPU config) in Hret.
  fold cfg in Hret.
  destruct (Z.leb_spec (MinWorkers cfg) 0) as [H1|H1]; [discriminate Hret|].
  destruct (Z.leb_spec (MaxWorkers cfg) 0) as [H2|H2]; [discriminate Hret|].
  cbn [orb] in Hret.
  destruct (Z.gtb_spec (MinWorkers cfg) (MaxWorkers cfg)) as [H3|H3];
    [discriminate Hret|].
  unfold make_chan in Hret.
  destruct ((QueueSize cfg <? 0) || _); [discriminate Hret|].
  destruct ((MaxWorkers cfg <? 0) || _); [discriminate Hret|].
  simpl in Hret.
  rewrite startWorkers_iter in Hret by (try lia; assumption).
  match type of Hret with
  | context [Nat.iter ?n createWorker (?p0, w)] =>
      pose proof (iter_keeps_field minWorkers n (p0, w) Kmin) as E1;
      pose proof (iter_keeps_field maxWorkers n (p0, w) Kmax) as E2;
      destruct (Nat.iter n createWorker (p0, w)) as [pool1 w1]
  end.
  injection Hret as <- <-. simpl in E1, E2. rewrite E1, E2. split.
  - intros Hsmall.
    rewrite !wrap_int32_small by lia. lia.
  - intros [Hlo Hhi].
    assert (wrap_int32 (MaxWorkers cfg) = MaxWorkers cfg - 2 ^ 32) as ->.
    { unfold wrap_int32, wrap_signed.
      change (2 ^ (32 - 1)) with (2 ^ 31).
      replace (MaxWorkers cfg + 2 ^ 31)
        with ((MaxWorkers cfg - 2 ^ 31) + 1 * 2 ^ 32) by lia.
      rewrite Z.mod_add by lia. rewrite Z.mod_small by lia. lia. }
    lia.
Qed.

End Facts.

Lemma NewPool_all_or_nothing_witness :
  NewPool 8 nat countingWorker countingDispatcher
    (Some (mkConfig 2 4 (60 * Second) (-1))) 7%nat
  = (Panics "makechan: size out of range", 7%nat).
Proof.
  apply (proj2 (NewPool_all_or_nothing 8 nat countingWorker countingDispatcher
                  (Some (mkConfig 2 4 (60 * Second) (-1))) 7%nat));
    simpl; lia.
Defined.

Lemma NewPool_bounds_witness :
  exists pool,
    NewPool 8 nat countingWorker countingDispatcher
      (Some (mkConfig 1 (2 ^ 31) (60 * Second) 10)) 0%nat
    = (Returns (Some pool, nil), 2%nat)
    /\ maxWorkers pool = 2 ^ 31 - 2 ^ 32
    /\ maxWorkers pool < 0 < 1.
Proof.
  eexists. split; [reflexivity|].
  refine (proj2 (NewPool_bounds 8 nat countingWorker countingDispatcher
                   (Some (mkConfig 1 (2 ^ 31) (60 * Second) 10)) 0%nat _ _
                   _ _ _ eq_refl) _).
  - intros [p n]. reflexivity.
  - intros [p n]. reflexivity.
  - unfold is_int, minInt, maxInt. simpl. lia.
  - simpl. lia.
Defined.

End NewPoolFacts.

(** ** [chansend]: the buffer as a queue, and how a send can end *)

Module ChanRingFacts.
Import GoInt GoIntFacts Chan ChanFacts ChanRing.

Section Facts.

Variable Elem : Type.
Variable full : hchan Elem -> bool.
Variable send : hchan Elem -> sudog Elem -> Elem -> (hchan Elem -> hchan Elem) -> hchan Elem.
Variable acquireSudog : Z.

Local Abbreviation chansend := (chansend full send acquireSudog).

(** Two slots less than [dataqsiz] apart are different. *)
Lemma slots_apart (d a b : Z) :
  0 < d -> a < b < a + d -> a mod d <> b mod d.
Proof.
  intros Hd Hab E.
  assert ((b - a) mod d = 0) as H0.
  { rewrite Zminus_mod, E, Z.sub_diag. now apply Z.mod_0_l, Z.neq_sym, Z.lt_neq. }
  rewrite Z.mod_small in H0 by lia. lia.
Qed.

(** X12.  The buffer is a first-in first-out queue that a send never
    overwrites.  On an open channel with consistent indices, no waiting
    receiver and room in the buffer, a send (blocking or not, with the
    runtime's [full]) returns true and leaves a channel whose buffer
    holds what it held, in the same order, followed by the element sent;
    the indices are consistent again, [recvx] and the wait queues have
    not moved, and the lock is released. *)
Theorem buffered_send_appends (c : hchan Elem) (ep : Elem) (block : bool) (gp : g) :
  ring_ok c -> closed c = 0 -> recvq c = [] -> qcount c < dataqsiz c ->
  exists c',
    Chan.chansend runtime_full send acquireSudog (Some c) ep block gp
    = Returned true (Some c')
    /\ contents c' = contents c ++ [Some ep]
    /\ ring_ok c'
    /\ recvx c' = recvx c /\ recvq c' = [] /\ sendq c' = sendq c
    /\ closed c' = 0 /\ lock c' = false.
Proof.
  intros (Hd & Hq & Hr & Hs) Hopen Hrecv Hroom.
  exists (unlock (buffer_put ep (do_lock c))).
  assert (runtime_full c = false) as Hfull.
  { unfold runtime_full.
    destruct (Z.eqb_spec (dataqsiz c) 0); [lia|]. apply Z.eqb_neq. lia. }
  split.
  { unfold Chan.chansend. rewrite Hfull, andb_false_r. simpl.
    rewrite Hopen. simpl. unfold dequeue_recvq. simpl. rewrite Hrecv.
    change (qcount (do_lock c)) with (qcount c).
    change (dataqsiz (do_lock c)) with (dataqsiz c).
    replace (qcount c <? dataqsiz c) with true by (symmetry; now apply Z.ltb_lt).
    reflexivity. }
  assert (qcount (unlock (buffer_put ep (do_lock c))) = qcount c + 1) as Eq.
  { simpl. apply wrap_uint_small. lia. }
  assert (sendx (unlock (buffer_put ep (do_lock c)))
          = (recvx c + (qcount c + 1)) mod dataqsiz c) as Ex.
  { change (sendx (unlock (buffer_put ep (do_lock c))))
      with (sendx (buffer_put ep (do_lock c))).
    pose proof (Z.mod_pos_bound (recvx c + qcount c) (dataqsiz c) ltac:(lia)).
    rewrite buffer_put_sendx by (simpl; lia). simpl.
    rewrite Hs, Z.add_assoc. apply Zplus_mod_idemp_l. }
  split; [|split].
  - unfold contents. rewrite Eq.
    replace (Z.to_nat (qcount c + 1)) with (S (Z.to_nat (qcount c))) by lia.
    rewrite seq_S, map_app. simpl. f_equal.
    + apply map_ext_in. intros k Hk. apply in_seq in Hk.
      unfold slot. simpl. apply lookup_insert_ne.
      rewrite Hs. apply not_eq_sym, slots_apart; lia.
    + f_equal. unfold slot. simpl.
      rewrite Z2Nat.id by lia. rewrite <- Hs. apply lookup_insert_eq.
  - unfold ring_ok. rewrite Eq, Ex. simpl. repeat split; lia.
  - simpl. repeat split; assumption.
Qed.

(** X13.  How a send can end, whatever [full] and [send] are.  It returns
    false only when it is non-blocking, and then the channel is as before
    but possibly for its lock.  It returns true only on an open channel,
    after handing the element to the oldest waiting receiver or, no
    receiver waiting and [qcount < dataqsiz], storing it.  It panics only
    on a closed channel, with "send on closed channel".  It parks only
    when blocking: for ever on the nil channel, else on an open channel
    without receiver whose buffer has no room, with the buffer untouched
    and its sudog, carrying the element, last in [sendq]; woken as it was
    parked, it passes the waiting-list check whatever the waker put in
    [gp.param].  It never throws before parking. *)
Theorem send_endings (c : option (hchan Elem)) (ep : Elem) (block : bool) (gp : g) :
  match chansend c ep block gp with
  | Returned false c' =>
      block = false
      /\ match c, c' with
         | None, None => True
         | Some c, Some c' => same_but_lock c c'
         | _, _ => False
         end
  | Returned true c' =>
      exists c0, c = Some c0 /\ closed c0 = 0 /\
        ((exists sg rest,
            recvq c0 = sg :: rest
            /\ c' = Some (send (snd (dequeue_recvq (do_lock c0))) sg ep unlock)
            /\ recvq (snd (dequeue_recvq (do_lock c0))) = rest)
         \/ (recvq c0 = [] /\ qcount c0 < dataqsiz c0
             /\ c' = Some (unlock (buffer_put ep (do_lock c0)))))
  | Panicked msg c' =>
      msg = "send on closed channel"%string
      /\ exists c0, c = Some c0 /\ closed c0 <> 0 /\ same_but_lock c0 c'
  | Thrown _ => False
  | ParkedForever => block = true /\ c = None
  | Parked gp' mysg c' =>
      block = true
      /\ (exists c0, c = Some c0 /\ closed c0 = 0 /\ recvq c0 = []
            /\ dataqsiz c0 <= qcount c0
            /\ c' = enqueue_sendq mysg (do_lock c0))
      /\ sg_elem mysg = Some ep /\ sg_g mysg = goid gp
      /\ waiting gp' = Some (sg_addr mysg) /\ param gp' = None
      /\ forall (p : option Z) (c'' : hchan Elem),
           chansend_wakeup (woken gp' p) mysg c''
           = match p with
             | Some _ => Returned true (Some c'')
             | None => if closed c'' =? 0
                       then Thrown "chansend: spurious wakeup"
                       else Panicked "send on closed channel" c''
             end
  end.
Proof.
  unfold Chan.chansend. destruct c as [c|].
  2:{ destruct block; simpl; auto. }
  destruct (negb block && (closed c =? 0) && full c) eqn:Hfast.
  { apply andb_prop in Hfast as [Hfast _]. apply andb_prop in Hfast as [Hb _].
    destruct block; [discriminate|]. split; [reflexivity|].
    unfold same_but_lock. now destruct c. }
  simpl. destruct (Z.eqb_spec (closed c) 0) as [Hopen|Hclosed]; simpl.
  2:{ split; [reflexivity|]. exists c. repeat split; assumption. }
  unfold dequeue_recvq. simpl.
  destruct (recvq c) as [|sg rest] eqn:Hrecv.
  2:{ exists c. split; [reflexivity|]. split; [assumption|].
      left. exists sg, rest. simpl. rewrite Hrecv. auto. }
  change (qcount (do_lock c)) with (qcount c).
  change (dataqsiz (do_lock c)) with (dataqsiz c).
  destruct (Z.ltb_spec (qcount c) (dataqsiz c)) as [Hroom|Hnoroom].
  { exists c. split; [reflexivity|]. split; [assumption|]. right. auto. }
  destruct block; simpl.
  2:{ split; [reflexivity|]. reflexivity. }
  split; [reflexivity|]. split.
  { exists c. repeat split; assumption. }
  repeat split.
  intros p c''. unfold chansend_wakeup, woken. simpl.
  rewrite bool_decide_eq_true_2 by reflexivity. simpl.
  destruct p; reflexivity.
Qed.

End Facts.

Lemma buffered_send_appends_witness :
  contents wrapped = [Some 5; Some 6]
  /\ exists c',
       Chan.chansend runtime_full direct_send 200 (Some wrapped) 9 false sender
       = Returned true (Some c')
       /\ contents c' = [Some 5; Some 6; Some 9]
       /\ sendx c' = 2.
Proof.
  split; [reflexivity|].
  destruct (buffered_send_appends Z direct_send 200 wrapped 9 false sender)
    as (c' & Hsend & Hcontents & Hok & _).
  - unfold ring_ok. simpl. repeat split; solve [reflexivity | lia].
  - reflexivity.
  - reflexivity.
  - simpl. lia.
  - exists c'. split; [exact Hsend|]. split; [exact Hcontents|].
    injection Hsend as <-. reflexivity.
Defined.

End ChanRingFacts.

(** ** [Lock] run by one goroutine on its own *)

Module MutexRunFacts.
Import GoInt GoIntFacts Mutex MutexFacts MutexRun.

Section Facts.
Variable starvationThresholdNs : Z.
Local Abbreviation run_alone := (run_alone starvationThresholdNs).
Local Abbreviation step := (step starvationThresholdNs).

Lemma run_alone_Done os l m : run_alone os Done l m = (Done, l, m).
Proof. destruct os; reflexivity. Qed.

Lemma run_alone_step o os p l m p' l' m' :
  step o p l m = Some (p', l', m') ->
  run_alone (o :: os) p l m = run_alone os p' l' m'.
Proof. intros H. cbn [MutexRun.run_alone]. now rewrite H. Qed.

Lemma not_set (s k : Z) : is_set s k = false -> Z.land s k = 0.
Proof. unfold is_set. intros H. apply negb_false_iff in H. now apply Z.eqb_eq. Qed.

Lemma flags_clear (s : Z) :
  locked s = false -> starved s = false ->
  Z.land s (Z.lor mutexLocked mutexStarving) = 0.
Proof.
  intros Hl Hs. apply not_set in Hl, Hs.
  rewrite Z.land_lor_distr_r, Hl, Hs. reflexivity.
Qed.

(** The first two steps on a word that is not 0. *)
Lemma enters_slow_path o1 o2 os s sem :
  s <> 0 ->
  run_alone (o1 :: o2 :: os) FastPath entry (mkMutex s sem)
  = run_alone os LoopHead (mkLocals 0 false false 0 s) (mkMutex s sem).
Proof.
  intros Hne.
  rewrite (run_alone_step o1 _ FastPath entry _ SlowEntry entry (mkMutex s sem)).
  2:{ unfold Mutex.step. cbn [next_action perform state].
      replace (s =? 0) with false by (symmetry; now apply Z.eqb_neq).
      reflexivity. }
  now rewrite (run_alone_step o2 _ SlowEntry entry _ LoopHead
                 (mkLocals 0 false false 0 s) (mkMutex s sem)).
Qed.

(** X14.  Barging.  A goroutine that calls [Lock] on a mutex that is
    neither locked nor starving, and is not disturbed, has the lock after
    at most three steps, however many goroutines are queued: the word it
    leaves is the old one with [mutexLocked] set, so the waiter count and
    the woken flag are as they were, and the semaphore is not touched. *)
Theorem Lock_barges (s sem : Z) (o1 o2 o3 : oracle) (os : list oracle) :
  locked s = false -> starved s = false ->
  (exists l', run_alone (o1 :: o2 :: o3 :: os) FastPath entry (mkMutex s sem)
             = (Done, l', mkMutex (Z.lor s mutexLocked) sem))
  /\ locked (Z.lor s mutexLocked) = true
  /\ woken (Z.lor s mutexLocked) = woken s
  /\ starved (Z.lor s mutexLocked) = false
  /\ waiters (Z.lor s mutexLocked) = waiters s.
Proof.
  intros Hl Hs. pose proof (flags_clear s Hl Hs) as H5.
  split.
  - destruct (Z.eq_dec s 0) as [->|Hne].
    + exists entry. reflexivity.
    + exists (mkLocals 0 false false 0 s).
      rewrite enters_slow_path by assumption.
      rewrite (run_alone_step o3 _ LoopHead _ _ Done (mkLocals 0 false false 0 s)
                 (mkMutex (Z.lor s mutexLocked) sem)).
      { apply run_alone_Done. }
      unfold Mutex.step. cbn [next_action].
      unfold spins, prepare. cbn [old starving awoke andb].
      rewrite H5. apply not_set in Hs. rewrite Hs.
      cbn [perform state]. simpl (0 =? mutexLocked). simpl (0 =? 0).
      cbn [andb negb]. cbn [perform state]. rewrite Z.eqb_refl.
      cbn [continue]. unfold spins. cbn [old]. rewrite H5. reflexivity.
  - apply not_set in Hl, Hs.
    repeat split.
    + unfold locked, is_set. rewrite Z.land_lor_distr_l, Hl. reflexivity.
    + unfold woken, is_set. rewrite Z.land_lor_distr_l. 
      change (Z.land mutexLocked mutexWoken) with 0. now rewrite Z.lor_0_r.
    + unfold starved, is_set. rewrite Z.land_lor_distr_l, Hs. reflexivity.
    + apply waiters_lor. change mutexLocked with 1. lia.
Qed.

Lemma lor_locked (s : Z) : locked s = true -> Z.lor s mutexLocked = s.
Proof.
  intros H. rewrite locked_odd in H.
  apply Z.bits_inj'. intros n Hn. rewrite Z.lor_spec.
  destruct (Z.eq_dec n 0) as [->|Hn0].
  - rewrite Z.bit0_odd, H. reflexivity.
  - change mutexLocked with 1. rewrite (Z.bits_above_log2 1 n) by (simpl; lia).
    apply orb_false_r.
Qed.

Lemma is_set_add8 (s k : Z) : 0 <= k < 8 -> is_set (s + 8) k = is_set s k.
Proof.
  intros Hk. destruct (split_word s) as [E Hr].
  transitivity (is_set (Z.land s 7) k).
  - replace (s + 8) with (8 * (Z.shiftr s 3 + 1) + Z.land s 7) by lia.
    now apply is_set_low.
  - rewrite <- (is_set_low (Z.shiftr s 3) (Z.land s 7) k Hr Hk).
    now rewrite <- E.
Qed.

(** X15.  Queueing.  A goroutine that calls [Lock] on a mutex that is
    locked or starving, with the word below [2^31 - 8], and that does not
    spin (the runtime declines, or the mutex is starving), registers
    itself with one atomic swap that adds exactly 8 to the word, one
    waiter more and the three flags as they were, and then waits on the
    semaphore at the back of the queue ([queueLifo] false), its waiting
    time counted from that moment. *)
Theorem Lock_queues (s : Z) (o1 o2 o3 : oracle) (os : list oracle) :
  0 <= s < 2 ^ 31 - 8 ->
  locked s = true \/ starved s = true ->
  canSpin o3 = false \/ starved s = true ->
  run_alone (o1 :: o2 :: o3 :: os) FastPath entry (mkMutex s 0)
  = (Wait false, mkLocals (nanotime o3) false false 0 s, mkMutex (s + 8) 0)
  /\ waiters (s + 8) = waiters s + 1
  /\ locked (s + 8) = locked s
  /\ woken (s + 8) = woken s
  /\ starved (s + 8) = starved s.
Proof.
  intros Hs Hflag Hspin.
  assert (s <> 0) as Hne.
  { intros ->. destruct Hflag as [H|H]; discriminate H. }
  assert ((Z.land s (Z.lor mutexLocked mutexStarving) =? 0) = false) as H5.
  { apply Z.eqb_neq. rewrite Z.land_lor_distr_r. intros H0.
    apply Z.lor_eq_0_iff in H0 as [H1 H4].
    unfold locked, starved, is_set in Hflag. rewrite H1, H4 in Hflag.
    destruct Hflag; discriminate. }
  assert (spins o3 (mkLocals 0 false false 0 s) = false) as Hsp.
  { unfold spins. cbn [old]. destruct Hspin as [->|Hst]; [apply andb_false_r|].
    apply andb_false_intro1. apply Z.eqb_neq. intros E.
    unfold starved, is_set in Hst.
    assert (Z.land (Z.land s (Z.lor mutexLocked mutexStarving)) mutexStarving = 0) as E'
      by (rewrite E; reflexivity).
    rewrite <- Z.land_assoc in E'.
    change (Z.land (Z.lor mutexLocked mutexStarving) mutexStarving) with mutexStarving in E'.
    rewrite E' in Hst. discriminate. }
  assert (prepare (mkLocals 0 false false 0 s) = s + 8) as Hprep.
  { unfold prepare. cbn [old starving awoke andb]. rewrite H5. cbn [negb].
    change (Z.shiftl 1 mutexWaiterShift) with 8.
    destruct (Z.eqb_spec (Z.land s mutexStarving) 0) as [E|E].
    - assert (locked s = true) as Hl.
      { destruct Hflag as [H|H]; [exact H|].
        unfold starved, is_set in H. rewrite E in H. discriminate. }
      rewrite lor_locked by assumption. apply wrap_int32_small. lia.
    - apply wrap_int32_small. lia. }
  split.
  - rewrite enters_slow_path by assumption.
    rewrite (run_alone_step o3 _ LoopHead _ _ (Wait false)
               (mkLocals (nanotime o3) false false 0 s) (mkMutex (s + 8) 0)).
    + destruct os; reflexivity.
    + unfold Mutex.step. cbn [next_action]. rewrite Hsp, Hprep.
      cbn [perform state]. rewrite Z.eqb_refl.
      cbn [continue]. rewrite Hsp. cbn [old]. rewrite H5. reflexivity.
  - split; [apply waiters_add|].
    unfold locked, woken, starved.
    rewrite !is_set_add8 by (vm_compute; split; [discriminate|reflexivity]).
    auto.
Qed.
Lemma locked_word (s : Z) :
  locked s = true -> starved s = false ->
  exists w r, s = 8 * w + r /\ (r = 1 \/ r = 3).
Proof.
  intros Hl Hs. destruct (split_word s) as [E Hr].
  exists (Z.shiftr s 3), (Z.land s 7). split; [exact E|].
  unfold locked, starved in *. rewrite E in Hl, Hs.
  rewrite is_set_low in Hl, Hs
    by (assumption || (vm_compute; split; [discriminate|reflexivity])).
  assert (C : Z.land s 7 = 0 \/ Z.land s 7 = 1 \/ Z.land s 7 = 2 \/ Z.land s 7 = 3
              \/ Z.land s 7 = 4 \/ Z.land s 7 = 5 \/ Z.land s 7 = 6 \/ Z.land s 7 = 7)
    by lia.
  destruct C as [C|[C|[C|[C|[C|[C|[C|C]]]]]]]; rewrite C in Hl, Hs;
    try discriminate Hl; try discriminate Hs; auto.
Qed.

Lemma prepare_requeue (t w r : Z) (late : bool) :
  r = 1 \/ r = 3 -> 0 <= 8 * w + r < 2 ^ 31 - 8 ->
  prepare (mkLocals t late true 0 (8 * w + r))
  = 8 * (w + 1) + (if late then 5 else 1).
Proof.
  intros Hr Hs. unfold prepare. cbn [old starving awoke].
  change mutexLocked with 1. change mutexStarving with 4.
  change mutexWoken with 2. change (Z.shiftl 1 mutexWaiterShift) with 8.
  change (Z.lor 1 4) with 5.
  rewrite !land_low by lia.
  destruct (lor_low w r 1 ltac:(lia) ltac:(lia)) as [-> _].
  assert (Z.land r 4 = 0 /\ Z.land r 5 = 1 /\ Z.land r 1 = 1 /\ Z.lor r 1 = r)
    as (-> & -> & -> & ->) by (destruct Hr as [->| ->]; repeat split).
  simpl (0 =? 0). simpl (1 =? 0). cbn [negb andb]. rewrite andb_true_r.
  rewrite wrap_int32_small by lia.
  replace (8 * w + r + 8) with (8 * (w + 1) + r) by lia.
  destruct late.
  - destruct (lor_low (w + 1) r 4 ltac:(lia) ltac:(lia)) as [-> Hb].
    destruct (ldiff_low (w + 1) (Z.lor r 4) 2 Hb ltac:(lia)) as [-> _].
    destruct Hr as [->| ->]; reflexivity.
  - destruct (ldiff_low (w + 1) r 2 ltac:(lia) ltac:(lia)) as [-> _].
    destruct Hr as [->| ->]; reflexivity.
Qed.

(** X16.  A waiter that is woken in normal mode does not own the mutex.
    If it finds the word locked again (and does not spin), it registers
    once more, now for the front of the queue ([queueLifo] true) and with
    its original start of waiting; the word it writes has one waiter
    more, [mutexLocked] set, [mutexWoken] clear, and [mutexStarving] set
    exactly when it has by then waited longer than
    [starvationThresholdNs] (or was starving before).  The semaphore
    count has gone down by one. *)
Theorem woken_waiter_requeues (q : bool) (l : locals) (s sem : Z)
    (o1 o2 o3 : oracle) :
  0 <= s < 2 ^ 31 - 8 -> 0 < sem < 2 ^ 32 ->
  locked s = true -> starved s = false ->
  waitStartTime l <> 0 -> canSpin o3 = false ->
  let late :=
    starving l
    || (starvationThresholdNs <? wrap_int (nanotime o1 - waitStartTime l)) in
  exists s',
    run_alone [o1; o2; o3] (Wait q) l (mkMutex s sem)
    = (Wait true, mkLocals (waitStartTime l) late true 0 s, mkMutex s' (sem - 1))
    /\ waiters s' = waiters s + 1
    /\ locked s' = true /\ woken s' = false /\ starved s' = late.
Proof.
  intros Hs Hsem Hl Hst Ht Hspin late.
  destruct (locked_word s Hl Hst) as (w & r & -> & Hr).
  exists (8 * (w + 1) + (if late then 5 else 1)).
  split.
  - rewrite (run_alone_step o1 _ (Wait q) l _ WakeReload
               (mkLocals (waitStartTime l) late (awoke l) (iter l) (old l))
               (mkMutex (8 * w + r) (sem - 1))).
    2:{ unfold Mutex.step. cbn [next_action perform sema state].
        replace (0 <? sem) with true by (symmetry; apply Z.ltb_lt; lia).
        unfold wrap_uint32, wrap_unsigned. rewrite Z.mod_small by lia.
        reflexivity. }
    assert ((Z.land (8 * w + r) mutexStarving =? 0) = true) as H4.
    { change mutexStarving with 4. rewrite land_low by lia.
      destruct Hr as [->| ->]; reflexivity. }
    rewrite (run_alone_step o2 _ WakeReload _ _ LoopHead
               (mkLocals (waitStartTime l) late true 0 (8 * w + r))
               (mkMutex (8 * w + r) (sem - 1))).
    2:{ unfold Mutex.step. cbn [next_action perform state continue].
        rewrite H4. reflexivity. }
    assert (spins o3 (mkLocals (waitStartTime l) late true 0 (8 * w + r)) = false)
      as Hsp by (unfold spins; rewrite Hspin; apply andb_false_r).
    assert ((Z.land (8 * w + r) (Z.lor mutexLocked mutexStarving) =? 0) = false) as H5.
    { change (Z.lor mutexLocked mutexStarving) with 5. rewrite land_low by lia.
      destruct Hr as [->| ->]; reflexivity. }
    rewrite (run_alone_step o3 _ LoopHead _ _ (Wait true)
               (mkLocals (waitStartTime l) late true 0 (8 * w + r))
               (mkMutex (8 * (w + 1) + (if late then 5 else 1)) (sem - 1))).
    { reflexivity. }
    unfold Mutex.step. cbn [next_action]. rewrite Hsp.
    rewrite prepare_requeue by assumption.
    cbn [perform state]. rewrite Z.eqb_refl.
    cbn [continue]. rewrite Hsp. cbn [old waitStartTime starving awoke iter].
    rewrite H5.
    replace (waitStartTime l =? 0) with false by (symmetry; now apply Z.eqb_neq).
    reflexivity.
  - unfold waiters, locked, woken, starved.
    change mutexWaiterShift with 3. change mutexLocked with 1.
    change mutexWoken with 2. change mutexStarving with 4.
    assert (0 <= (if late then 5 else 1) < 8) as Hb by (destruct late; lia).
    rewrite !shiftr_low, !is_set_low by lia.
    split; [reflexivity|]. destruct late; repeat split.
Qed.

End Facts.

(** Two goroutines queued and the woken flag set ([18]): the newcomer
    takes the lock and leaves [19]. *)
Lemma Lock_barges_witness :
  exists l',
    run_alone 1000000
      [mkOracle true 5; mkOracle true 6; mkOracle true 7] FastPath entry
      (mkMutex 18 0)
    = (Done, l', mkMutex 19 0).
Proof.
  exact (proj1 (Lock_barges 1000000 18 0 (mkOracle true 5) (mkOracle true 6)
                  (mkOracle true 7) [] eq_refl eq_refl)).
Defined.

(** A locked mutex without waiters ([1]): the caller ends up waiting,
    the word at [9]. *)
Lemma Lock_queues_witness :
  run_alone 1000000
    [mkOracle true 5; mkOracle true 6; mkOracle false 7] FastPath entry
    (mkMutex 1 0)
  = (Wait false, mkLocals 7 false false 0 1, mkMutex 9 0).
Proof.
  refine (proj1 (Lock_queues 1000000 1 (mkOracle true 5) (mkOracle true 6)
                  (mkOracle false 7) [] _ _ _)).
  - simpl. lia.
  - left. reflexivity.
  - left. reflexivity.
Defined.

(** A waiter that started waiting at time 100 and is woken at time
    2000100, past the threshold of 1000000, on a word that is locked with
    one waiter ([9]): it queues again at the front and leaves the word
    starving with two waiters ([21]). *)
Lemma woken_waiter_requeues_witness :
  exists s',
    run_alone 1000000
      [mkOracle false 2000100; mkOracle false 2000101; mkOracle false 2000102]
      (Wait false) (mkLocals 100 false false 0 1) (mkMutex 9 1)
    = (Wait true, mkLocals 100 true true 0 9, mkMutex s' 0)
    /\ waiters s' = 2 /\ locked s' = true /\ woken s' = false
    /\ starved s' = true.
Proof.
  refine (woken_waiter_requeues 1000000 false (mkLocals 100 false false 0 1) 9 1
            (mkOracle false 2000100) (mkOracle false 2000101)
            (mkOracle false 2000102) _ _ eq_refl eq_refl _ eq_refl).
  - simpl. lia.
  - simpl. lia.
  - discriminate.
Defined.

End MutexRunFacts.

(** ** [schedule] and [findrunnable]: what comes out *)

Module SchedSpinningFacts.
Import GoInt GoIntFacts Sched SchedSpinning.

Section Facts.

Variable G : Type.
Variable Rest : Type.
Variable gcstopm : runtime Rest -> runtime Rest.
Variable globrunqget : Z -> runtime Rest -> option G * runtime Rest.
Variable runqget : runtime Rest -> option G * bool * runtime Rest.
Variable netpollinited : runtime Rest -> bool.
Variable netpoll : Z -> runtime Rest -> list G * runtime Rest.
Variable injectglist : list G -> runtime Rest -> runtime Rest.
Variable casgstatus : G -> runtime Rest -> runtime Rest.
Variable stopm : runtime Rest -> runtime Rest.
Variable stealWork :
  Z -> runtime Rest -> option G * bool * Z * Z * bool * runtime Rest.

Local Abbreviation findrunnable :=
  (findrunnable globrunqget runqget netpollinited netpoll injectglist casgstatus
     stopm stealWork).
Local Abbreviation schedule :=
  (schedule gcstopm globrunqget runqget netpollinited netpoll injectglist
     casgstatus stopm stealWork).

Ltac split_pair_as H E :=
  match type of H with
  | context [match ?e with pair _ _ => _ end] => destruct e as [? ?] eqn:E
  end.

Ltac split_pair H :=
  match type of H with
  | context [match ?e with pair _ _ => _ end] =>
      let E := fresh "E" in destruct e as [? ?] eqn:E
  end.

Lemma findrunnable_finds (fuel : nat) (now : Z) (r : runtime Rest)
    (gp : option G) (inheritTime : bool) (r' : runtime Rest) :
  findrunnable fuel now r = Some (Found gp inheritTime r') -> is_Some gp.
Proof.
  revert now r. induction fuel as [|fuel IH]; intros now r H; [discriminate|].
  cbn [Sched.findrunnable] in H.
  repeat (split_pair H;
          try (case_bool_decide; [injection H as <- <- <-; assumption|])).
  match type of H with (if ?b then _ else _) = _ => destruct b end;
    [now apply IH in H|].
  match type of H with (if ?b then _ else _) = _ => destruct b end;
    [discriminate|].
  case_bool_decide; [injection H as <- <- <-; assumption|].
  now apply IH in H.
Qed.

(** X17.  [schedule] never hands a nil goroutine to [execute], and
    [findrunnable] never returns one, whatever the runtime functions they
    call do: every way out of [findrunnable] is guarded by [gp != nil],
    and it loops (or sleeps in [stopm]) rather than come back empty. *)
Theorem never_executes_nil (fuel : nat) (now : Z) (r : runtime Rest)
    (gp : option G) (inheritTime : bool) (r' : runtime Rest) :
  schedule fuel now r = Some (Execute gp inheritTime r') -> is_Some gp.
Proof.
  revert now r. induction fuel as [|fuel IH]; intros now r H; [discriminate|].
  cbn [Sched.schedule] in H.
  match type of H with (if ?b then _ else _) = _ => destruct b end;
    [now apply IH in H|].
  split_pair H.
  match goal with o : option G |- _ => destruct o as [g|] end.
  { injection H as <- <- <-. eauto. }
  split_pair H. split_pair H.
  match goal with o : option G |- _ => destruct o as [g|] end.
  { injection H as <- <- <-. eauto. }
  destruct (findrunnable (S fuel) now _) as [[gpf itf rf|msg]|] eqn:Hf;
    [|discriminate|discriminate].
  injection H as <- <- <-. eapply findrunnable_finds. exact Hf.
Qed.

(** Steps that leave the count in order. *)
Lemma accounted_sched_lock (b : bool) (r : runtime Rest) :
  accounted (set_sched_lock b r) <-> accounted r.
Proof. reflexivity. Qed.

Lemma accounted_start (r : runtime Rest) :
  accounted r ->
  accounted (if negb (spinning r) then Xadd_nmspinning 1 (set_spinning true r) else r).
Proof.
  unfold accounted, own. destruct (spinning r) eqn:Hs; cbn [negb]; [now rewrite Hs|].
  cbn [Xadd_nmspinning set_spinning spinning nmspinning]. intros H.
  unfold wrap_uint32, wrap_unsigned. rewrite Z.mod_small by lia. lia.
Qed.

Lemma accounted_stop (r : runtime Rest) :
  accounted r ->
  accounted (if spinning r then Xadd_nmspinning (-1) (set_spinning false r) else r)
  /\ spinning r
     && (wrap_int32
           (nmspinning
              (if spinning r then Xadd_nmspinning (-1) (set_spinning false r) else r))
         <? 0) = false.
Proof.
  unfold accounted, own. destruct (spinning r) eqn:Hs; [|now rewrite Hs].
  cbn [Xadd_nmspinning set_spinning spinning nmspinning andb]. intros H.
  unfold wrap_uint32, wrap_unsigned. rewrite Z.mod_small by lia.
  rewrite wrap_int32_small by lia. split; [lia|]. apply Z.ltb_ge. lia.
Qed.

Section Accounted.

Hypothesis gcstopm_ok : forall r, accounted r -> accounted (gcstopm r).
Hypothesis globrunqget_ok :
  forall max r, accounted r -> accounted (snd (globrunqget max r)).
Hypothesis runqget_ok : forall r, accounted r -> accounted (snd (runqget r)).
Hypothesis netpoll_ok : forall d r, accounted r -> accounted (snd (netpoll d r)).
Hypothesis injectglist_ok :
  forall list r, accounted r -> accounted (injectglist list r).
Hypothesis casgstatus_ok : forall gp r, accounted r -> accounted (casgstatus gp r).
Hypothesis stopm_ok : forall r, accounted r -> accounted (stopm r).
Hypothesis stealWork_ok :
  forall now r, accounted r -> accounted (snd (stealWork now r)).

Lemma globrunqget_locked_ok (max : Z) (r : runtime Rest) :
  accounted r -> accounted (snd (globrunqget_locked globrunqget max r)).
Proof.
  intros H. unfold globrunqget_locked.
  pose proof (globrunqget_ok max (lock r) H) as H1.
  destruct (globrunqget max (lock r)) as [gp r1]. exact H1.
Qed.

Lemma global_check_ok (r : runtime Rest) (gp : option G) (r1 : runtime Rest) :
  accounted r ->
  (if negb (runqsize r =? 0) then globrunqget_locked globrunqget 0 r else (None, r))
  = (gp, r1) ->
  accounted r1.
Proof.
  intros H E. destruct (negb (runqsize r =? 0)).
  - pose proof (globrunqget_locked_ok 0 r H) as H1. now rewrite E in H1.
  - now injection E as <- <-.
Qed.

Lemma findrunnable_accounted (fuel : nat) (now : Z) (r : runtime Rest)
    (res : found G Rest) :
  accounted r ->
  findrunnable fuel now r = Some res ->
  exists gp inheritTime r', res = Found (Some gp) inheritTime r' /\ accounted r'.
Proof.
  revert now r. induction fuel as [|fuel IH]; intros now r Hacc H; [discriminate|].
  cbn [Sched.findrunnable] in H.
  pose proof (runqget_ok r Hacc) as A1.
  destruct (runqget r) as [[gp1 it1] r1]. cbn [snd] in A1.
  case_bool_decide as Hgp.
  { destruct Hgp as [g ->]. injection H as <-. eauto. }
  clear Hgp. split_pair_as H E2.
  pose proof (global_check_ok _ _ _ A1 E2) as A2. clear E2.
  case_bool_decide as Hgp.
  { destruct Hgp as [g ->]. injection H as <-. eauto. }
  clear Hgp. split_pair_as H E3.
  match type of E3 with _ = (_, ?r3) => assert (accounted r3) as A3 end.
  { match type of E3 with (if ?c then _ else _) = _ => destruct c end.
    - match type of E3 with context [netpoll 0 ?r2] =>
        pose proof (netpoll_ok 0 r2 A2) as A;
        destruct (netpoll 0 r2) as [[|g list] rn]
      end.
      + now injection E3 as <- <-.
      + injection E3 as <- <-. now apply casgstatus_ok, injectglist_ok.
    - now injection E3 as <- <-. }
  clear E3.
  case_bool_decide as Hgp.
  { destruct Hgp as [g ->]. injection H as <-. eauto. }
  clear Hgp.
  match type of H with
  | context [match ?e with pair _ _ => _ end] =>
      destruct e as [[[[gp4 it4] now4] newWork] r4] eqn:E4
  end.
  assert (accounted r4) as A4.
  { match type of E4 with (if ?c then _ else _) = _ => destruct c end.
    - match type of E4 with context [stealWork now ?r3'] =>
        pose proof (stealWork_ok now r3' (accounted_start _ A3)) as A;
        destruct (stealWork now r3') as [[[[[? ?] ?] ?] ?] rs]
      end.
      now injection E4 as <- <- <- <- <-.
    - now injection E4 as <- <- <- <- <-. }
  clear E4.
  case_bool_decide as Hgp.
  { destruct Hgp as [g ->]. injection H as <-. eauto. }
  clear Hgp.
  destruct newWork; [now apply IH in H|].
  destruct (accounted_stop r4 A4) as [A5 Hno].
  rewrite Hno in H. split_pair_as H E6.
  pose proof (global_check_ok _ _ _ A5 E6) as A6. clear E6.
  case_bool_decide as Hgp.
  { destruct Hgp as [g ->]. injection H as <-. eauto. }
  apply IH in H; [exact H|]. now apply stopm_ok.
Qed.

(** X18.  The count of spinning threads stays in order.  If on entry
    [sched.nmspinning] covers this M when it spins (with fewer than
    [2^31 - 1] other spinning Ms), and the runtime functions called keep
    it so, then [schedule] never dies with "findrunnable: negative
    nmspinning": when it ends it hands a goroutine to [execute] with the
    count still in order.  [findrunnable] adds the M to the count before
    it steals and takes it out again before it sleeps. *)
Theorem spinning_stays_accounted (fuel : nat) (now : Z) (r : runtime Rest)
    (res : scheduled G Rest) :
  accounted r ->
  schedule fuel now r = Some res ->
  exists gp inheritTime r', res = Execute (Some gp) inheritTime r' /\ accounted r'.
Proof.
  revert now r. induction fuel as [|fuel IH]; intros now r Hacc H; [discriminate|].
  cbn [Sched.schedule] in H.
  assert (accounted (set_preempt false r)) as A0 by exact Hacc.
  match type of H with (if ?b then _ else _) = _ => destruct b end.
  { apply IH in H; [exact H|]. now apply gcstopm_ok. }
  split_pair_as H E1.
  match type of E1 with _ = (_, ?r1) => assert (accounted r1) as A1 end.
  { match type of E1 with (if ?c then _ else _) = _ => destruct c end.
    - pose proof (globrunqget_locked_ok 1 _ A0) as A. now rewrite E1 in A.
    - now injection E1 as <- <-. }
  clear E1.
  match goal with o : option G |- _ => destruct o as [g|] end.
  { injection H as <-. eauto. }
  match type of H with context [runqget ?r1] =>
    pose proof (runqget_ok r1 A1) as A2;
    destruct (runqget r1) as [[gp2 it2] r2]
  end.
  cbn [snd] in A2. destruct gp2 as [g|].
  { injection H as <-. eauto. }
  destruct (findrunnable (S fuel) now r2) as [res1|] eqn:Hf; [|discriminate].
  destruct (findrunnable_accounted _ _ _ _ A2 Hf) as (gp & it & r' & -> & A).
  injection H as <-. eauto.
Qed.

End Accounted.

End Facts.

(** On the toy runtime at tick 123, with goroutine 3 in the local
    queue, goroutine 3 is run. *)
Lemma never_executes_nil_witness :
  exists r',
    toy_schedule 1 (toy_runtime 123 [1; 2]%nat [3]%nat)
    = Some (Execute (Some 3%nat) true r')
    /\ is_Some (Some 3%nat).
Proof.
  eexists. split; [reflexivity|].
  refine (never_executes_nil nat _ (fun r => r) toy_globrunqget toy_runqget
            (fun _ => false) (fun _ r => ([], r)) (fun _ r => r) (fun _ r => r)
            (fun r => r) toy_stealWork 1%nat 0
            (toy_runtime 123 [1; 2]%nat [3]%nat) (Some 3%nat) true _ _).
  reflexivity.
Defined.

(** On the toy runtime with both queues empty, the M starts spinning,
    steals goroutine 99 and runs it, counted once in [nmspinning]. *)
Lemma spinning_stays_accounted_witness :
  exists gp inheritTime r',
    toy_schedule 1 (toy_runtime 123 [] [])
    = Some (Execute (Some gp) inheritTime r')
    /\ accounted r' /\ spinning r' = true /\ nmspinning r' = 1.
Proof.
  destruct (toy_schedule 1 (toy_runtime 123 [] [])) as [res|] eqn:E;
    [|vm_compute in E; discriminate E].
  assert (forall max r, accounted r -> accounted (snd (toy_globrunqget max r)))
    as Hglob.
  { intros max r A. unfold toy_globrunqget. destruct (fst (rest r)); exact A. }
  assert (forall r, accounted r -> accounted (snd (toy_runqget r))) as Hrunq.
  { intros r A. unfold toy_runqget. destruct (snd (rest r)); exact A. }
  assert (accounted (toy_runtime 123 [] [])) as Hacc.
  { unfold accounted, own. simpl. lia. }
  destruct (spinning_stays_accounted nat _ (fun r => r) toy_globrunqget
              toy_runqget (fun _ => false) (fun _ r => ([], r)) (fun _ r => r)
              (fun _ r => r) (fun r => r) toy_stealWork
              (fun r A => A) Hglob Hrunq (fun d r A => A) (fun l r A => A)
              (fun g r A => A) (fun r A => A) (fun n r A => A)
              1%nat 0 (toy_runtime 123 [] []) res Hacc E)
    as (gp & it & r' & -> & A).
  exists gp, it, r'. split; [reflexivity|]. split; [exact A|].
  vm_compute in E. injection E as _ _ <-. split; reflexivity.
Defined.

End SchedSpinningFacts.

(** ** What a run of the file utility prints *)

Module FileUtilReportFacts.
Import FileUtil FileUtilFacts FileUtilAudit FileUtilAuditFacts.

Local Open Scope string_scope.

Lemma listing_last (entries : list DirEntry) :
  existsb on_stderr (listing entries) = false
  /\ exists text, last (listing entries) = Some (Call (Stdout text)).
Proof.
  unfold listing. split.
  - simpl. induction entries as [|e entries IH]; [reflexivity|exact IH].
  - rewrite last_cons, fmap_last.
    destruct (last entries) as [e|]; simpl; eauto.
Qed.

(** X19.  Every run of [main] past the flag parsing reports on standard
    output and only there: no call writes to standard error (a failed
    operation is reported on standard output too), the last call of the
    run is a print, and unless a directory is listed the run prints
    exactly once: the usage text, the complaint about a missing
    argument, the error of the operation or its success. *)
Theorem one_report_per_run (W : Type) (h : handler W) (w : W)
    (cmdFlags : CommandFlags) :
  existsb on_stderr (calls h (main_with cmdFlags) w) = false
  /\ exists text,
       last (calls h (main_with cmdFlags) w) = Some (Call (Stdout text))
       /\ (selected cmdFlags <> Some OpList ->
           output (calls h (main_with cmdFlags) w) = [text]).
Proof.
  rewrite main_with_dispatch.
  destruct (selected cmdFlags) as [op|].
  2:{ unfold printHelp, fmt_Println, trigger. simpl.
      destruct (h unit _ w). simpl. eauto. }
  destruct (required_missing op cmdFlags).
  { unfold fmt_Println, trigger. simpl. destruct (h unit _ w). simpl. eauto. }
  destruct op; cbn [helperOf].
  all: try (unfold call_helper, createFile, readFile, writeFile, appendToFile,
            copyFile, deleteFile, renameFile, report, fmt_Printf, trigger;
            answer h;
            try (match goal with x : error |- _ => destruct x end; answer h);
            (split; [reflexivity|]); eexists;
            (split; [reflexivity | intros _; reflexivity])).
  rewrite list_calls.
  destruct (h _ (os_ReadDir (Path cmdFlags)) w) as [[entries [e|]] w1].
  - simpl. split; [reflexivity|]. eexists. split; [reflexivity|]. intros []. reflexivity.
  - destruct (listing_last entries) as [H1 (text & H2)].
    cbn [is_nil]. split; [exact H1|]. exists text. split.
    + rewrite last_cons, H2. reflexivity.
    + intros []. reflexivity.
Qed.

End FileUtilReportFacts.

(** ** [randomOrder.start] *)

Module RandomOrderFacts.
Import GoInt GoIntFacts RandomOrder.

Lemma len32_le (ord : randomOrder) :
  0 <= len32 ord <= Z.of_nat (length (coprimes ord)) /\ len32 ord < 2 ^ 32.
Proof.
  unfold len32, wrap_uint32, wrap_unsigned.
  pose proof (Z.mod_pos_bound (Z.of_nat (length (coprimes ord))) (2 ^ 32) ltac:(lia)).
  pose proof (Z.mod_le (Z.of_nat (length (coprimes ord))) (2 ^ 32) ltac:(lia) ltac:(lia)).
  lia.
Qed.

Lemma lookup_mod (ord : randomOrder) (j : Z) :
  len32 ord <> 0 ->
  is_Some (coprimes ord !! Z.to_nat (j mod len32 ord)).
Proof.
  intros Hn. apply lookup_lt_is_Some.
  pose proof (len32_le ord) as [H _].
  pose proof (Z.mod_pos_bound j (len32 ord) ltac:(lia)). lia.
Qed.

(** X20.  [randomOrder.start], for an [i] in [uint32]: it panics with a
    division by zero when [count] is 0 or the length of [coprimes] is 0
    as a [uint32], and never with an index out of range; otherwise the
    enumeration it returns has [i mod count], below [count], as its [i],
    [pos] is the entry of [coprimes] at [i] modulo the length, and [inc]
    the entry after it, cyclically, except for [i = 2^32 - 1], where
    [i + 1] wraps and [inc] is the first entry. *)
Theorem start_spec (ord : randomOrder) (i : Z) :
  0 <= i < 2 ^ 32 -> 0 <= count ord ->
  (count ord = 0 \/ len32 ord = 0 ->
   start ord i = Panics "integer divide by zero")
  /\ (count ord <> 0 -> len32 ord <> 0 ->
      exists e, start ord i = Started e
        /\ enum_i e = i mod count ord /\ 0 <= enum_i e < count ord
        /\ enum_count e = count ord
        /\ coprimes ord !! Z.to_nat (i mod len32 ord) = Some (pos e)
        /\ coprimes ord
           !! Z.to_nat (if i =? 2 ^ 32 - 1 then 0 else (i + 1) mod len32 ord)
           = Some (inc e)).
Proof.
  intros Hi Hc. split.
  - intros [H|H]; unfold start.
    + now rewrite H.
    + rewrite H. simpl. now destruct (count ord =? 0).
  - intros Hcount Hlen. unfold start.
    destruct (Z.eqb_spec (count ord) 0) as [|_]; [contradiction|].
    destruct (Z.eqb_spec (len32 ord) 0) as [|_]; [contradiction|].
    destruct (lookup_mod ord i Hlen) as [p Hp].
    destruct (lookup_mod ord (wrap_uint32 (i + 1)) Hlen) as [c Hc'].
    rewrite Hp, Hc'. eexists. split; [reflexivity|]. cbn.
    split; [reflexivity|]. split; [apply Z.mod_pos_bound; lia|].
    split; [reflexivity|]. split; [reflexivity|].
    rewrite <- Hc'. f_equal. f_equal.
    destruct (Z.eqb_spec i (2 ^ 32 - 1)) as [->|Hne].
    + reflexivity.
    + unfold wrap_uint32, wrap_unsigned. now rewrite (Z.mod_small (i + 1) (2 ^ 32)) by lia.
Qed.

Lemma start_spec_witness :
  exists e,
    start (mkRandomOrder 6 [1; 5]) 7 = Started e
    /\ enum_i e = 1 /\ pos e = 5 /\ inc e = 1.
Proof.
  destruct (proj2 (start_spec (mkRandomOrder 6 [1; 5]) 7 ltac:(lia) ltac:(simpl; lia))
              ltac:(discriminate) ltac:(discriminate))
    as (e & Hs & Hi & _ & _ & Hp & Hc).
  exists e. split; [exact Hs|]. split; [exact Hi|].
  split; [injection Hp as <-; reflexivity | injection Hc as <-; reflexivity].
Defined.

End RandomOrderFacts.

(** ** The frame of a new goroutine *)

Module NewprocFacts.
Import GoInt GoIntFacts Newproc.

(** Rounding up to a multiple of a power of two. *)
Lemma round_up (t k : Z) :
  0 <= k -> 0 <= t ->
  (t + (- t) mod 2 ^ k) mod 2 ^ k = 0
  /\ t <= t + (- t) mod 2 ^ k < t + 2 ^ k.
Proof.
  intros Hk Ht.
  assert (0 < 2 ^ k) as Hp by (apply Z.pow_pos_nonneg; lia).
  pose proof (Z.mod_pos_bound (- t) (2 ^ k) Hp).
  split; [|lia].
  rewrite Zplus_mod_idemp_r. replace (t + - t) with 0 by lia.
  now apply Z.mod_0_l, Z.neq_sym, Z.lt_neq.
Qed.

(** Reducing to 64 bits does not change the low [k] bits. *)
Lemma mod_mod_pow2 (a k : Z) :
  0 <= k < 64 -> (a mod 2 ^ 64) mod 2 ^ k = a mod 2 ^ k.
Proof.
  intros Hk.
  assert (2 ^ 64 = 2 ^ (64 - k) * 2 ^ k) as E.
  { rewrite <- Z.pow_add_r by lia. f_equal. lia. }
  rewrite (Z.mod_eq a (2 ^ 64)) by lia.
  rewrite E at 1.
  replace (a - 2 ^ (64 - k) * 2 ^ k * (a / 2 ^ 64))
    with (a + (- (2 ^ (64 - k) * (a / 2 ^ 64))) * 2 ^ k) by lia.
  apply Z_mod_plus_full.
Qed.

(** X21.  [newproc1] rounds the frame up to the stack alignment.  With
    [SpAlign] a power of two [2^k] and the sizes small enough not to
    wrap, [totalSize] is the least multiple of [SpAlign] that is at least
    [4*RegSize + siz + MinFrameSize], and on a stack whose top [hi] is
    aligned and far enough up, the stack pointer [hi - totalSize] is
    aligned too, and leaves at least the unrounded size free. *)
Theorem frame_rounded_up (RegSize MinFrameSize k siz : Z) :
  0 <= k < 64 -> 0 <= RegSize -> 0 <= MinFrameSize -> 0 <= siz ->
  4 * RegSize + siz + MinFrameSize + 2 ^ k <= 2 ^ 64 ->
  let raw := 4 * RegSize + siz + MinFrameSize in
  totalSize RegSize MinFrameSize (2 ^ k) siz mod 2 ^ k = 0
  /\ raw <= totalSize RegSize MinFrameSize (2 ^ k) siz < raw + 2 ^ k
  /\ forall hi,
       hi mod 2 ^ k = 0 -> raw + 2 ^ k <= hi < 2 ^ 64 ->
       sp RegSize MinFrameSize (2 ^ k) hi siz mod 2 ^ k = 0
       /\ hi - raw - 2 ^ k < sp RegSize MinFrameSize (2 ^ k) hi siz <= hi - raw.
Proof.
  intros Hk HR HM Hs Hfit raw.
  assert (0 < 2 ^ k) as Hp by (apply Z.pow_pos_nonneg; lia).
  assert (totalSize RegSize MinFrameSize (2 ^ k) siz = raw + (- raw) mod 2 ^ k) as E.
  { unfold totalSize. fold raw.
    rewrite (wrap_uint_small siz) by lia.
    rewrite (wrap_uint_small (4 * RegSize + siz)) by lia.
    rewrite (wrap_uint_small (4 * RegSize + siz + MinFrameSize)) by lia.
    fold raw.
    assert (2 ^ k < 2 ^ 64) as Hlt by (apply Z.pow_lt_mono_r; lia).
    rewrite (wrap_uint_small (2 ^ k - 1)) by lia.
    replace (2 ^ k - 1) with (Z.ones k) by (rewrite Z.ones_equiv; lia).
    rewrite Z.land_ones by lia.
    unfold wrap_uint at 2. unfold wrap_unsigned.
    rewrite (mod_mod_pow2 (- raw) k) by lia.
    apply wrap_uint_small.
    pose proof (round_up raw k ltac:(lia) ltac:(unfold raw; lia)). lia. }
  destruct (round_up raw k ltac:(lia) ltac:(unfold raw; lia)) as [Hmod Hrange].
  rewrite E. split; [exact Hmod|]. split; [exact Hrange|].
  intros hi Hhi Hroom. unfold sp. rewrite E.
  rewrite wrap_uint_small by lia. split; [|lia].
  rewrite Zminus_mod, Hhi, Hmod. reflexivity.
Qed.

Lemma frame_rounded_up_witness :
  totalSize 8 8 16 20 = 64 /\ sp 8 8 16 4096 20 = 4032.
Proof.
  destruct (frame_rounded_up 8 8 4 20) as (H1 & H2 & H3);
    try (simpl; lia).
  destruct (H3 4096 eq_refl ltac:(simpl; lia)) as [H4 H5].
  split; reflexivity.
Defined.

End NewprocFacts.

(** ** [stealWork] *)

Module StealWorkFacts.
Import GoInt GoIntFacts RandomOrder StealWork.

Section Facts.

Variable G : Type.
Variable P : Type.
Context `{EqDecision P}.
Variable W : Type.
Variable gcwaiting : W -> Z.
Variable allp : W -> list P.
Variable stealOrder : W -> randomOrder.
Variable fastrand : W -> Z * W.
Variable done : randomEnum -> bool.
Variable next : randomEnum -> randomEnum.
Variable position : randomEnum -> Z.
Variable runqsteal : P -> P -> bool -> W -> thrown (option G) * W.
Variable runqget : P -> W -> option G * bool * W.

Local Abbreviation steal_pass :=
  (steal_pass gcwaiting allp done next position runqsteal).
Local Abbreviation steal_tries :=
  (steal_tries gcwaiting allp stealOrder fastrand done next position
     runqsteal runqget).
Local Abbreviation stealWork :=
  (stealWork gcwaiting allp stealOrder fastrand done next position
     runqsteal runqget).
Local Abbreviation recorded_stealWork :=
  (recorded_stealWork gcwaiting allp stealOrder fastrand done next position
     runqsteal runqget).

(** A result that leaves an enumeration. *)
Lemma steal_pass_leaves (fuel : nat) (pp : P) (now pollUntil : Z)
    (newWork flag : bool) (enum : randomEnum) (w : W)
    (gp : option G) (inheritTime : bool) (rnow pu : Z) (nw : bool) (w' : W) :
  steal_pass fuel pp now pollUntil newWork flag enum w
  = Some (Left (Stolen gp inheritTime rnow pu nw w')) ->
  inheritTime = false /\ rnow = now /\ pu = pollUntil
  /\ ((nw = true /\ gp = None /\ gcwaiting w' <> 0)
      \/ (nw = newWork /\ is_Some gp)).
Proof.
  revert enum w. induction fuel as [|fuel IH]; intros enum w H; [discriminate|].
  cbn [StealWork.steal_pass] in H.
  destruct (done enum); [discriminate|].
  destruct (Z.eqb_spec (gcwaiting w) 0) as [E|E]; cbn [negb] in H.
  2:{ injection H as <- <- <- <- <- <-. auto 10. }
  destruct (index (allp w) (position enum)) as [p2|]; [|discriminate].
  destruct (decide (pp = p2)); [now apply IH in H|].
  destruct (runqsteal pp p2 flag w) as [[[g|]|msg] w1].
  - injection H as <- <- <- <- <- <-. eauto 10.
  - now apply IH in H.
  - discriminate.
Qed.

Lemma steal_tries_leaves (fuel todo : nat) (i : Z) (pp : P) (now pollUntil : Z)
    (newWork : bool) (w : W)
    (gp : option G) (inheritTime : bool) (rnow pu : Z) (nw : bool) (w' : W) :
  steal_tries fuel todo i pp false now pollUntil newWork w
  = Some (Stolen gp inheritTime rnow pu nw w') ->
  inheritTime = false /\ rnow = now /\ pu = pollUntil
  /\ ((nw = true /\ gp = None /\ gcwaiting w' <> 0) \/ nw = newWork).
Proof.
  revert i w. induction todo as [|todo IH]; intros i w H.
  - injection H as <- <- <- <- <- <-. auto.
  - cbn [StealWork.steal_tries] in H.
    destruct (fastrand w) as [r w1].
    destruct (start (stealOrder w1) r) as [enum|msg]; [|discriminate].
    destruct (steal_pass fuel pp now pollUntil newWork _ enum w1)
      as [[w2|res1]|] eqn:Hp; [|injection H as ->|discriminate].
    + now apply IH in H.
    + apply steal_pass_leaves in Hp. intuition.
Qed.

Lemma steal_tries_runqget (runqget' : P -> W -> option G * bool * W)
    (fuel todo : nat) (i : Z) (pp : P) (now pollUntil : Z) (newWork : bool) (w : W) :
  steal_tries fuel todo i pp false now pollUntil newWork w
  = StealWork.steal_tries gcwaiting allp stealOrder fastrand done next position
      runqsteal runqget' fuel todo i pp false now pollUntil newWork w.
Proof.
  revert i w. induction todo as [|todo IH]; intros i w; [reflexivity|].
  cbn [StealWork.steal_tries].
  destruct (fastrand w) as [r w1].
  destruct (start (stealOrder w1) r) as [enum|msg]; [|reflexivity].
  destruct (steal_pass fuel pp now pollUntil newWork _ enum w1)
    as [[w2|res1]|]; [apply IH|reflexivity|reflexivity].
Qed.

(** X22.  What [stealWork] can return, whatever the runtime functions
    do.  [inheritTime] is always false, [rnow] is the [now] it was given
    and [pollUntil] is 0: no timer is ever run, so the closing
    [runqget], guarded by [ranTimer], is never reached and the result
    does not depend on it.  [newWork] is true only when the call broke
    off because a collection is waiting, and then no goroutine is
    returned. *)
Theorem stealWork_results (fuel : nat) (pp : P) (now : Z) (w : W)
    (gp : option G) (inheritTime : bool) (rnow pollUntil : Z) (newWork : bool)
    (w' : W) :
  stealWork fuel pp now w = Some (Stolen gp inheritTime rnow pollUntil newWork w') ->
  inheritTime = false /\ rnow = now /\ pollUntil = 0
  /\ (newWork = true -> gp = None /\ gcwaiting w' <> 0)
  /\ forall runqget' : P -> W -> option G * bool * W,
       StealWork.stealWork gcwaiting allp stealOrder fastrand done next position
         runqsteal runqget' fuel pp now w
       = stealWork fuel pp now w.
Proof.
  intros H. unfold StealWork.stealWork in *.
  destruct (steal_tries_leaves _ _ _ _ _ _ _ _ _ _ _ _ _ _ H) as (-> & -> & -> & Hn).
  split; [reflexivity|]. split; [reflexivity|]. split; [reflexivity|]. split.
  - intros ->. destruct Hn as [(_ & ? & ?)|?]; [split; assumption|discriminate].
  - intros runqget'. symmetry. apply steal_tries_runqget.
Qed.

(** *** With the recorder *)

Local Abbreviation WL := (W * record P)%type.

Local Abbreviation rec_pass :=
  (StealWork.steal_pass (W := WL) (fun wl => gcwaiting (fst wl))
     (fun wl => allp (fst wl)) done next position (recording runqsteal)).
Local Abbreviation rec_tries :=
  (StealWork.steal_tries (W := WL) (fun wl => gcwaiting (fst wl))
     (fun wl => allp (fst wl)) (fun wl => stealOrder (fst wl)) (aside fastrand)
     done next position (recording runqsteal) (fun pp => aside (runqget pp))).

Lemma rec_pass_record (fuel : nat) (pp : P) (now pollUntil : Z)
    (newWork flag : bool) (enum : randomEnum) (wl : WL) (r : pass G WL) :
  rec_pass fuel pp now pollUntil newWork flag enum wl = Some r ->
  exists new,
    snd (pass_state r) = snd wl ++ new
    /\ Forall (fun e => fst e <> pp /\ snd e = flag) new.
Proof.
  revert enum wl. induction fuel as [|fuel IH]; intros enum wl H; [discriminate|].
  cbn [StealWork.steal_pass] in H.
  destruct (done enum).
  { injection H as <-. exists []. split; [now rewrite app_nil_r|constructor]. }
  destruct (negb (gcwaiting (fst wl) =? 0)).
  { injection H as <-. exists []. split; [now rewrite app_nil_r|constructor]. }
  destruct (index (allp (fst wl)) (position enum)) as [p2|].
  2:{ injection H as <-. exists []. split; [now rewrite app_nil_r|constructor]. }
  destruct (decide (pp = p2)) as [|Hne]; [now apply IH in H|].
  unfold recording in H at 1.
  destruct (runqsteal pp p2 flag (fst wl)) as [[[g|]|msg] w1].
  - injection H as <-. exists [(p2, flag)]. split; [reflexivity|].
    constructor; [split; [cbn; congruence|reflexivity]|constructor].
  - apply IH in H as (new & E & F). exists ((p2, flag) :: new). split.
    + rewrite E. cbn [snd]. now rewrite <- app_assoc.
    + constructor; [split; [cbn; congruence|reflexivity]|exact F].
  - injection H as <-. exists [(p2, flag)]. split; [reflexivity|].
    constructor; [split; [cbn; congruence|reflexivity]|constructor].
Qed.

Lemma rec_tries_record (fuel todo : nat) (i : Z) (pp : P)
    (now pollUntil : Z) (newWork : bool) (wl : WL) (res : stolen G WL) :
  0 <= i -> i + Z.of_nat todo = stealTries ->
  rec_tries fuel todo i pp false now pollUntil newWork wl = Some res ->
  exists ordinary last_pass,
    snd (state_of res) = snd wl ++ ordinary ++ last_pass
    /\ Forall (fun e => fst e <> pp /\ snd e = false) ordinary
    /\ Forall (fun e => fst e <> pp /\ snd e = true) last_pass.
Proof.
  revert i wl. induction todo as [|todo IH]; intros i wl Hi Hsum H.
  - injection H as <-. exists [], []. split; [now rewrite !app_nil_r|].
    split; constructor.
  - cbn [StealWork.steal_tries] in H. unfold aside in H at 1.
    destruct (fastrand (fst wl)) as [r w1]. cbn [fst snd] in H.
    destruct (start (stealOrder w1) r) as [enum|msg].
    2:{ injection H as <-. exists [], []. split; [now rewrite !app_nil_r|].
        split; constructor. }
    destruct (rec_pass fuel pp now pollUntil newWork _ enum (w1, snd wl))
      as [r1|] eqn:Hp; [|discriminate].
    destruct (rec_pass_record _ _ _ _ _ _ _ _ _ Hp) as (new & E & F).
    cbn [snd] in E. unfold stealTries in *.
    destruct (Z.eqb_spec i (4 - 1)) as [Ei|Ei].
    + assert (todo = O) as -> by lia.
      exists [], new. destruct r1 as [wl2|res1].
      * cbn [StealWork.steal_tries] in H. injection H as <-.
        split; [exact E|]. split; [constructor|exact F].
      * injection H as <-. split; [exact E|]. split; [constructor|exact F].
    + destruct r1 as [wl2|res1].
      * rewrite wrap_int_small in H by (unfold is_int, minInt, maxInt; lia).
        apply IH in H as (l1 & l2 & E' & F1 & F2); [|lia|lia].
        exists (new ++ l1), l2. split.
        -- rewrite E'. cbn [pass_state] in E. rewrite E. now rewrite <- !app_assoc.
        -- split; [apply Forall_app; split; assumption|exact F2].
      * injection H as <-. exists new, []. split; [now rewrite app_nil_r|].
        split; [exact F|constructor].
Qed.

(** The recorder does not change what the run does. *)
Lemma rec_pass_forget (fuel : nat) (pp : P) (now pollUntil : Z)
    (newWork flag : bool) (enum : randomEnum) (wl : WL) :
  forget_pass <$> rec_pass fuel pp now pollUntil newWork flag enum wl
  = steal_pass fuel pp now pollUntil newWork flag enum (fst wl).
Proof.
  revert enum wl. induction fuel as [|fuel IH]; intros enum wl; [reflexivity|].
  cbn [StealWork.steal_pass].
  destruct (done enum); [reflexivity|].
  destruct (negb (gcwaiting (fst wl) =? 0)); [reflexivity|].
  destruct (index (allp (fst wl)) (position enum)) as [p2|]; [|reflexivity].
  destruct (decide (pp = p2)); [apply IH|].
  unfold recording at 1.
  destruct (runqsteal pp p2 flag (fst wl)) as [[[g|]|msg] w1]; try reflexivity.
  apply (IH (next enum) (w1, _)).
Qed.

Lemma rec_tries_forget (fuel todo : nat) (i : Z) (pp : P)
    (now pollUntil : Z) (newWork : bool) (wl : WL) :
  forget <$> rec_tries fuel todo i pp false now pollUntil newWork wl
  = steal_tries fuel todo i pp false now pollUntil newWork (fst wl).
Proof.
  revert i wl. induction todo as [|todo IH]; intros i wl; [reflexivity|].
  cbn [StealWork.steal_tries]. unfold aside at 1.
  destruct (fastrand (fst wl)) as [r w1]. cbn [fst snd].
  destruct (start (stealOrder w1) r) as [enum|msg]; [|reflexivity].
  rewrite <- (rec_pass_forget fuel pp now pollUntil newWork _ enum (w1, snd wl)).
  destruct (rec_pass fuel pp now pollUntil newWork _ enum (w1, snd wl))
    as [[wl2|res1]|]; cbn; [apply IH|reflexivity|reflexivity].
Qed.

(** X23.  [stealWork] never steals from the P it runs on, and tries the
    [runnext] slots last.  Run with a recorder in front of [runqsteal],
    which does not change what the run does, the victims tried are all
    different from [pp], and the tries with [stealRunNextG] false all
    come before those with it true. *)
Theorem steals_from_others (fuel : nat) (pp : P) (now : Z) (w : W)
    (res : stolen G WL) :
  recorded_stealWork fuel pp now w = Some res ->
  stealWork fuel pp now w = Some (forget res)
  /\ exists ordinary last_pass,
       snd (state_of res) = ordinary ++ last_pass
       /\ Forall (fun e => fst e <> pp /\ snd e = false) ordinary
       /\ Forall (fun e => fst e <> pp /\ snd e = true) last_pass.
Proof.
  intros H. unfold StealWork.recorded_stealWork, StealWork.stealWork in *. split.
  - pose proof (rec_tries_forget fuel (Z.to_nat stealTries) 0 pp now 0 false (w, []))
      as E.
    rewrite H in E. symmetry. exact E.
  - apply rec_tries_record in H; [exact H|lia|reflexivity].
Qed.

End Facts.

(** On the toy runtime the fourth pass takes goroutine 42 from the
    [runnext] of P 2. *)
Lemma stealWork_results_witness :
  toy_stealWork 4 7 0 = Some (Stolen (Some 42%nat) false 7 0 false 0).
Proof.
  destruct (toy_stealWork 4 7 0) as [[gp it rnow pu nw w'|msg w']|] eqn:E;
    try (vm_compute in E; discriminate E).
  pose proof E as E'. unfold toy_stealWork in E'.
  apply stealWork_results in E' as (-> & -> & -> & _).
  vm_compute in E. injection E as <- <- <-. reflexivity.
Defined.

(** On the toy runtime: three passes over P 1 and P 2 without the flag,
    then P 1 and P 2 with it; P 0, the caller, is never tried. *)
Lemma steals_from_others_witness :
  exists res,
    toy_recorded 4 7 0 = Some res
    /\ snd (state_of res)
       = [(1, false); (2, false); (1, false); (2, false); (1, false); (2, false);
          (1, true); (2, true)]%nat
    /\ toy_stealWork 4 7 0 = Some (forget res).
Proof.
  destruct (toy_recorded 4 7 0) as [res|] eqn:E;
    [|vm_compute in E; discriminate E].
  exists res. split; [reflexivity|].
  pose proof E as E'. unfold toy_recorded in E'.
  apply steals_from_others in E' as [Hplain _].
  split; [|exact Hplain].
  vm_compute in E. injection E as <-. reflexivity.
Defined.

End StealWorkFacts.

(** ** [goexit] *)

Module GoexitFacts.
Import Goexit.

Section Facts.

Variable M : Type.
Variable P : Type.
Variable W : Type.
Variable p : M -> P.
Variable reflectcall : Defer -> g M * W -> g M * W.
Variable freedefer : Defer -> g M * W -> g M * W.
Variable casgstatus : g M -> Z -> Z -> W -> g M * W.
Variable gfput : P -> g M -> W -> W.
Variable schedule : W -> W.

Local Abbreviation goexit1 := (goexit1 p casgstatus gfput schedule).
Local Abbreviation goexit :=
  (goexit p reflectcall freedefer casgstatus gfput schedule).
Local Abbreviation run_defer := (run_defer reflectcall freedefer).

Lemma goexit1_faults (_g_ : g M) (w : W) :
  exists g' w',
    goexit1 _g_ w
    = Faulted "invalid memory address or nil pointer dereference" g' w'
    /\ m g' = None /\ _defer g' = [] /\ _panic g' = None
    /\ (g', w') =
       (let '(g1, w1) := casgstatus _g_ _Grunning _Gdead w in
        (mkG [] None None (atomicstatus g1) 0 false false, w1)).
Proof.
  unfold Goexit.goexit1. destruct (casgstatus _g_ _Grunning _Gdead w) as [g1 w1].
  cbn. eauto 10.
Qed.

Lemma goexit_loop (fuel : nat) (_g_ : g M) (w : W) :
  (forall d gw, _defer (fst (reflectcall d gw)) = _defer (fst gw)) ->
  (forall d gw, _defer (fst (freedefer d gw)) = _defer (fst gw)) ->
  (length (_defer _g_) < fuel)%nat ->
  goexit fuel _g_ w
  = Some (let '(g', w') := fold_left run_defer (_defer _g_) (_g_, w) in
          goexit1 g' w').
Proof.
  intros Hr Hf. revert _g_ w.
  induction fuel as [|fuel IH]; intros _g_ w Hlen; [lia|].
  cbn [Goexit.goexit].
  destruct (_defer _g_) as [|d link] eqn:Hd; [reflexivity|].
  cbn [fold_left]. unfold Goexit.run_defer at 2. rewrite Hd. cbn [tail].
  pose proof (Hr d (mkG link (_panic _g_) (m _g_) (atomicstatus _g_) (lockedm _g_)
                      (preemptStop _g_) (paniconfault _g_), w)) as E1.
  destruct (reflectcall d _) as [g1 w1]. cbn [fst _defer] in E1.
  pose proof (Hf d (g1, w1)) as E2.
  destruct (freedefer d (g1, w1)) as [g2 w2]. cbn [fst] in E2.
  rewrite IH by (rewrite E2, E1; cbn in Hlen; lia).
  now rewrite E2, E1.
Qed.

(** X24.  The exit of a goroutine as the notes have it.  [goexit1]
    clears [_g_.m] and then reads [_g_.m.p]: whatever the runtime
    functions do, every run of [goexit] that ends, ends on that nil
    pointer, so the goroutine is never put on the free list and
    [schedule] is never called.  Before that, when the deferred
    functions leave the chain of deferred calls alone, [goexit] runs
    each deferred call exactly once, the most recent first, and frees
    it. *)
Theorem goexit_runs_defers_and_faults (_g_ : g M) (w : W) :
  (forall (fuel : nat) (res : exited M W),
     goexit fuel _g_ w = Some res ->
     exists g' w',
       res = Faulted "invalid memory address or nil pointer dereference" g' w'
       /\ m g' = None)
  /\ ((forall d gw, _defer (fst (reflectcall d gw)) = _defer (fst gw)) ->
      (forall d gw, _defer (fst (freedefer d gw)) = _defer (fst gw)) ->
      forall fuel : nat,
        (length (_defer _g_) < fuel)%nat ->
        goexit fuel _g_ w
        = Some (let '(g', w') := fold_left run_defer (_defer _g_) (_g_, w) in
                goexit1 g' w')).
Proof.
  split.
  - intros fuel. revert _g_ w.
    induction fuel as [|fuel IH]; intros _g_ w res H; [discriminate|].
    cbn [Goexit.goexit] in H. destruct (_defer _g_) as [|d link].
    + injection H as <-.
      destruct (goexit1_faults _g_ w) as (g' & w' & -> & Hm & _). eauto.
    + destruct (reflectcall d _) as [g1 w1].
      destruct (freedefer d (g1, w1)) as [g2 w2]. now apply IH in H.
  - intros Hr Hf fuel Hlen. now apply goexit_loop.
Qed.

End Facts.

Lemma goexit_runs_defers_and_faults_witness :
  toy_goexit 4 toy_g
  = Some (Faulted "invalid memory address or nil pointer dereference"
            (mkG [] None None _Gdead 0 false false) [3; 2; 1]).
Proof.
  unfold toy_goexit.
  rewrite (proj2 (goexit_runs_defers_and_faults unit unit (list Z) (fun _ => tt)
                    toy_reflectcall (fun _ gw => gw) toy_casgstatus
                    (fun _ _ w => w) (fun w => w) toy_g [])
             ltac:(reflexivity) ltac:(reflexivity) 4%nat ltac:(simpl; lia)).
  reflexivity.
Defined.

End GoexitFacts.

(** ** [runqsteal] *)

Module RunqstealFacts.
Import GoInt GoIntFacts StealWork Runqsteal.

Lemma slot_mod (k : Z) : slot k = k mod 256.
Proof.
  unfold slot, runq_len, wrap_uint32, wrap_unsigned.
  rewrite (Z.mod_small 256) by lia.
  rewrite (Z.mod_eq k (2 ^ 32)) by lia.
  replace (k - 2 ^ 32 * (k / 2 ^ 32)) with (k + (- (2 ^ 24 * (k / 2 ^ 32))) * 256) by lia.
  apply Z_mod_plus_full.
Qed.

Lemma slot_shift (a b : Z) : slot (a + wrap_uint32 b) = slot (a + b).
Proof.
  rewrite !slot_mod. unfold wrap_uint32, wrap_unsigned.
  rewrite (Z.mod_eq b (2 ^ 32)) by lia.
  replace (a + (b - 2 ^ 32 * (b / 2 ^ 32)))
    with (a + b + (- (2 ^ 24 * (b / 2 ^ 32))) * 256) by lia.
  apply Z_mod_plus_full.
Qed.

(** The entries of a list, looked up one by one. *)
Lemma lookups_all {A : Type} (l : list A) :
  map (fun i => l !! i) (seq 0 (length l)) = map Some l.
Proof.
  induction l as [|x l IH] using rev_ind; [reflexivity|].
  rewrite length_app. cbn [length]. rewrite seq_app, !map_app. cbn. f_equal.
  - rewrite <- IH. apply map_ext_in. intros i Hi. apply in_seq in Hi.
    apply lookup_app_l. lia.
  - rewrite lookup_app_r, Nat.sub_diag by lia. reflexivity.
Qed.

Lemma map_seq_from {A : Type} (f : nat -> A) (a n : nat) :
  map f (seq a n) = map (fun i => f (a + i)%nat) (seq 0 n).
Proof.
  revert a. induction n as [|n IH]; intros a; [reflexivity|].
  cbn [seq map]. f_equal; [f_equal; lia|].
  rewrite IH, <- (seq_shift n 0), map_map.
  apply map_ext. intros i. f_equal. lia.
Qed.

Section Facts.

Variable G : Type.
Variable runqgrab : p G -> gmap Z G -> Z -> bool -> Z * p G * gmap Z G.

Local Abbreviation runqsteal := (runqsteal runqgrab).

(** X25.  [runqsteal] returns the goroutine grabbed last and queues
    the others.  When [runqgrab] has put the goroutines [gs] into the
    thief's array from slot [runqtail] on without touching the slots of
    its queue, and they fit, [runqsteal] returns the last of [gs] (nil
    when there is none), the thief's queue is what it was followed by the
    others in their order, and [runqtail] has moved by their number,
    modulo [2^32]; it does not throw. *)
Theorem runqsteal_keeps_order (_p_ p2 p2' : p G) (stealRunNextG : bool)
    (batch : gmap Z G) (gs : list G) :
  0 <= runqhead _p_ < 2 ^ 32 -> 0 <= runqtail _p_ < 2 ^ 32 ->
  runqgrab p2 (runq _p_) (runqtail _p_) stealRunNextG
  = (Z.of_nat (length gs), p2', batch) ->
  queue_len _p_ + Z.of_nat (length gs) <= 256 ->
  (forall j, (j < length gs)%nat ->
             batch !! slot (runqtail _p_ + Z.of_nat j) = gs !! j) ->
  (forall j, (Z.of_nat j < queue_len _p_) ->
             batch !! slot (runqhead _p_ + Z.of_nat j)
             = runq _p_ !! slot (runqhead _p_ + Z.of_nat j)) ->
  exists thief,
    runqsteal _p_ p2 stealRunNextG = (Ok (last gs), thief, p2')
    /\ queue thief = queue _p_ ++ map Some (removelast gs)
    /\ runqhead thief = runqhead _p_
    /\ runqtail thief
       = wrap_uint32 (runqtail _p_ + Z.of_nat (length (removelast gs)))
    /\ runnext thief = runnext _p_.
Proof.
  intros Hh Ht Hgrab Hroom Hnew Hold.
  unfold Runqsteal.runqsteal. rewrite Hgrab.
  assert (0 <= queue_len _p_ < 2 ^ 32) as Hq.
  { unfold queue_len, wrap_uint32, wrap_unsigned. apply Z.mod_pos_bound. lia. }
  induction gs as [|g l _] using rev_ind.
  - cbn [length Z.of_nat Z.eqb]. eexists. split; [reflexivity|]. cbn.
    split; [|split; [reflexivity|split; [|reflexivity]]].
    + rewrite app_nil_r. unfold queue, queue_len. cbn [runqhead runqtail runq].
      apply map_ext_in. intros j Hj. apply in_seq in Hj.
      apply Hold. unfold queue_len. lia.
    + rewrite Z.add_0_r. symmetry. apply Z.mod_small. lia.
  - rewrite length_app in *. cbn [length] in *.
    replace (Z.of_nat (length l + 1) =? 0) with false by (symmetry; apply Z.eqb_neq; lia).
    rewrite removelast_last, last_snoc.
    assert (wrap_uint32 (Z.of_nat (length l + 1) - 1) = Z.of_nat (length l)) as ->.
    { unfold wrap_uint32, wrap_unsigned. rewrite Z.mod_small by lia. lia. }
    cbn [runq runqhead runqtail runnext].
    fold (slot (runqtail _p_ + Z.of_nat (length l))).
    rewrite (Hnew (length l)) by lia.
    rewrite lookup_app_r, Nat.sub_diag by lia. cbn [lookup list_lookup].
    eexists. split; [reflexivity|]. cbn [runq runqhead runqtail runnext].
    split; [|auto].
    unfold queue, queue_len. cbn [runq runqhead runqtail].
    assert (wrap_uint32 (wrap_uint32 (runqtail _p_ + Z.of_nat (length l)) - runqhead _p_)
            = queue_len _p_ + Z.of_nat (length l)) as ->.
    { unfold queue_len, wrap_uint32, wrap_unsigned in *.
      rewrite Zminus_mod_idemp_l.
      replace (runqtail _p_ + Z.of_nat (length l) - runqhead _p_)
        with (runqtail _p_ - runqhead _p_ + Z.of_nat (length l)) by lia.
      rewrite <- Zplus_mod_idemp_l.
      set (q := (runqtail _p_ - runqhead _p_) mod 2 ^ 32) in *.
      clearbody q. apply Z.mod_small. lia. }
    replace (Z.to_nat (queue_len _p_ + Z.of_nat (length l)))
      with (Z.to_nat (queue_len _p_) + length l)%nat by lia.
    rewrite seq_app, map_app. cbn [Nat.add]. f_equal.
    + apply map_ext_in. intros j Hj. apply in_seq in Hj. apply Hold.
      unfold queue_len in *. lia.
    + rewrite map_seq_from, <- (lookups_all l).
      apply map_ext_in. intros i Hi. apply in_seq in Hi.
      fold (queue_len _p_).
      replace (runqhead _p_ + Z.of_nat (Z.to_nat (queue_len _p_) + i))
        with (runqhead _p_ + Z.of_nat i + queue_len _p_) by lia.
      unfold queue_len. rewrite slot_shift.
      replace (runqhead _p_ + Z.of_nat i + (runqtail _p_ - runqhead _p_))
        with (runqtail _p_ + Z.of_nat i) by lia.
      rewrite Hnew by lia. apply lookup_app_l. lia.
Qed.

End Facts.

(** The thief's indices wrap around [2^32]: it returns goroutine 9 and
    keeps 7 and 8, in slots 255 and 0, with its tail at 1. *)
Lemma runqsteal_keeps_order_witness :
  exists thief,
    runqsteal toy_runqgrab toy_thief toy_victim false
    = (Ok (Some 9%nat), thief, mkP 3 3 (runq toy_victim) None)
    /\ queue thief = [Some 7%nat; Some 8%nat]
    /\ runqtail thief = 1.
Proof.
  destruct (runqsteal_keeps_order nat toy_runqgrab toy_thief toy_victim
              (mkP 3 3 (runq toy_victim) None) false
              (snd (toy_runqgrab toy_victim (runq toy_thief) (runqtail toy_thief) false))
              [7; 8; 9]%nat)
    as (thief & Hs & Hq & _ & Ht & _).
  - simpl. lia.
  - simpl. lia.
  - reflexivity.
  - vm_compute. discriminate.
  - intros [|[|[|j]]] Hj; [reflexivity|reflexivity|reflexivity|simpl in Hj; lia].
  - intros j Hj. vm_compute in Hj. destruct j; discriminate Hj.
  - exists thief. split; [exact Hs|]. split; [exact Hq|exact Ht].
Defined.

End RunqstealFacts.

(** ** [Lock]: the hand-off to a woken waiter *)

Module MutexHandoffFacts.
Import GoInt GoIntFacts Mutex MutexFacts MutexRun MutexRunFacts.

Lemma starving_word (s : Z) :
  locked s = false -> starved s = true ->
  exists w r, s = 8 * w + r /\ (r = 4 \/ r = 6).
Proof.
  intros Hl Hs. destruct (split_word s) as [E Hr].
  exists (Z.shiftr s 3), (Z.land s 7). split; [exact E|].
  unfold locked, starved in *. rewrite E in Hl, Hs.
  rewrite is_set_low in Hl, Hs
    by (assumption || (vm_compute; split; [discriminate|reflexivity])).
  assert (C : Z.land s 7 = 0 \/ Z.land s 7 = 1 \/ Z.land s 7 = 2 \/ Z.land s 7 = 3
              \/ Z.land s 7 = 4 \/ Z.land s 7 = 5 \/ Z.land s 7 = 6 \/ Z.land s 7 = 7)
    by lia.
  destruct C as [C|[C|[C|[C|[C|[C|[C|C]]]]]]]; rewrite C in Hl, Hs;
    try discriminate Hl; try discriminate Hs; auto.
Qed.

Section Facts.
Variable starvationThresholdNs : Z.
Local Abbreviation run_alone := (run_alone starvationThresholdNs).

(** X26.  The hand-off in starving mode.  A waiter that is woken while
    the word is starving and not locked (with at least one waiter
    counted) takes the mutex with one atomic add, without competing:
    [Lock] returns with [mutexLocked] set, one waiter fewer and the woken
    flag as it was; the mutex stays in starving mode exactly when this
    waiter is itself starving (it was, or has by now waited longer than
    [starvationThresholdNs]) and is not the last one waiting. *)
Theorem starving_handoff (q : bool) (l : locals) (s sem : Z) (o1 o2 o3 : oracle) :
  8 <= s < 2 ^ 31 -> 0 < sem < 2 ^ 32 ->
  locked s = false -> starved s = true ->
  let late :=
    starving l
    || (starvationThresholdNs <? wrap_int (nanotime o1 - waitStartTime l)) in
  exists s' l',
    run_alone [o1; o2; o3] (Wait q) l (mkMutex s sem)
    = (Done, l', mkMutex s' (sem - 1))
    /\ locked s' = true
    /\ waiters s' = waiters s - 1
    /\ woken s' = woken s
    /\ starved s' = late && negb (waiters s =? 1).
Proof.
  intros Hs Hsem Hl Hst late.
  destruct (starving_word s Hl Hst) as (w & r & -> & Hr).
  assert (waiters (8 * w + r) = w) as Hw.
  { unfold waiters. change mutexWaiterShift with 3. apply shiftr_low. lia. }
  set (leave := negb late || (w =? 1)).
  exists (8 * (w - 1) + (if leave then r - 3 else r + 1)).
  exists (mkLocals (waitStartTime l) late (awoke l) (iter l) (8 * w + r)).
  split.
  - rewrite (run_alone_step _ o1 _ (Wait q) l _ WakeReload
               (mkLocals (waitStartTime l) late (awoke l) (iter l) (old l))
               (mkMutex (8 * w + r) (sem - 1))).
    2:{ unfold Mutex.step. cbn [next_action perform sema state].
        replace (0 <? sem) with true by (symmetry; apply Z.ltb_lt; lia).
        unfold wrap_uint32, wrap_unsigned. rewrite Z.mod_small by lia.
        reflexivity. }
    assert ((Z.land (8 * w + r) mutexStarving =? 0) = false) as H4.
    { change mutexStarving with 4. rewrite land_low by lia.
      destruct Hr as [->| ->]; reflexivity. }
    rewrite (run_alone_step _ o2 _ WakeReload _ _
               (Handoff (if leave then -11 else -7))
               (mkLocals (waitStartTime l) late (awoke l) (iter l) (8 * w + r))
               (mkMutex (8 * w + r) (sem - 1))).
    2:{ unfold Mutex.step. cbn [next_action perform state continue].
        rewrite H4. cbn [negb starving]. unfold set_old. cbn.
        change (Z.shiftr (8 * w + r) mutexWaiterShift) with (waiters (8 * w + r)).
        rewrite Hw. fold leave. destruct leave; reflexivity. }
    rewrite (run_alone_step _ o3 _ (Handoff (if leave then -11 else -7)) _ _ Done
               (mkLocals (waitStartTime l) late (awoke l) (iter l) (8 * w + r))
               (mkMutex (8 * (w - 1) + (if leave then r - 3 else r + 1)) (sem - 1))).
    { reflexivity. }
    unfold Mutex.step. cbn [next_action perform state sema continue].
    rewrite wrap_int32_small by (destruct leave; lia).
    do 3 f_equal. destruct leave; lia.
  - assert (0 <= (if leave then r - 3 else r + 1) < 8) as Hb
      by (destruct leave; lia).
    unfold waiters, locked, woken, starved in *.
    change mutexWaiterShift with 3 in *. change mutexLocked with 1.
    change mutexWoken with 2. change mutexStarving with 4.
    rewrite !shiftr_low, !is_set_low by lia.
    split; [destruct leave, Hr as [->| ->]; reflexivity|].
    split; [lia|].
    split; [destruct leave, Hr as [->| ->]; reflexivity|].
    unfold leave. destruct late, (w =? 1), Hr as [->| ->]; reflexivity.
Qed.
End Facts.

(** Two waiters on a starving mutex ([20]); the one woken is starving
    itself: it gets the lock and leaves the mutex starving with one
    waiter ([13]). *)
Lemma starving_handoff_witness :
  exists s' l',
    run_alone 1000000 [mkOracle false 200; mkOracle false 201; mkOracle false 202]
      (Wait true) (mkLocals 100 true true 0 9) (mkMutex 20 1)
    = (Done, l', mkMutex s' 0)
    /\ locked s' = true /\ waiters s' = 1 /\ woken s' = false
    /\ starved s' = true.
Proof.
  refine (starving_handoff 1000000 true (mkLocals 100 true true 0 9) 20 1
            (mkOracle false 200) (mkOracle false 201) (mkOracle false 202)
            _ _ eq_refl eq_refl).
  - simpl. lia.
  - simpl. lia.
Defined.

End MutexHandoffFacts.
